(** * HELLSPHERE: the geospatial core, embedded in Rocq

    Shallow embedding of the location-intelligence route handler
    (haversineDistance, parseTleSets, computeSatellitePasses, GET), of the
    globe data loaders (classifyWeather, normalize, loadHeatmapData,
    loadWeatherCells, loadTimeline, buildRouteArcs) and of the globe store
    (setTimelineIndex, setTimeline and the other setters).

    Numbers.  A JavaScript number is modelled as a value of [number]: NaN,
    the two infinities, or a finite real.  Arithmetic on finite values is
    exact real arithmetic: rounding, overflow and the sign of zero are not
    modelled.  NaN and the infinities follow ECMAScript (comparisons with NaN
    are false, [Math.min]/[Math.max] propagate NaN, Infinity - Infinity is
    NaN, ...).  Where a statement allows NaN, or names a magnitude
    or a margin (as [safeMagnitude] does), it is to hold of double
    precision as well.

    Exceptions.  A call that can throw returns an [option]: [None] is the
    throw, which the handlers turn into their 502 answer.

    Strings.  A JavaScript string is a list of UTF-16 code units. *)

From Stdlib Require Import Reals Lra Lia ZArith List Bool Ascii String.
From Stdlib Require Import Permutation Sorted.
Import ListNotations.

Set Implicit Arguments.

(* ================================================================== *)
(** * Part I: the model                                                 *)
(* ================================================================== *)

(** ** JavaScript numbers *)

Module JSNumber.

Local Open Scope R_scope.

Inductive number : Type :=
| NaN
| NegInf
| Fin (x : R)
| PosInf.

Definition signed_inf (positive : bool) : number :=
  if positive then PosInf else NegInf.

(** An infinity of sign [positive] multiplied by the finite [x]. *)
Definition scale_inf (positive : bool) (x : R) : number :=
  if Req_dec_T x 0 then NaN
  else if Rlt_dec 0 x then signed_inf positive
  else signed_inf (negb positive).

Definition neg (a : number) : number :=
  match a with
  | NaN => NaN
  | NegInf => PosInf
  | Fin x => Fin (- x)
  | PosInf => NegInf
  end.

Definition add (a b : number) : number :=
  match a, b with
  | NaN, _ | _, NaN => NaN
  | Fin x, Fin y => Fin (x + y)
  | PosInf, NegInf | NegInf, PosInf => NaN
  | PosInf, _ | _, PosInf => PosInf
  | NegInf, _ | _, NegInf => NegInf
  end.

Definition sub (a b : number) : number := add a (neg b).

Definition mul (a b : number) : number :=
  match a, b with
  | NaN, _ | _, NaN => NaN
  | Fin x, Fin y => Fin (x * y)
  | Fin x, PosInf | PosInf, Fin x => scale_inf true x
  | Fin x, NegInf | NegInf, Fin x => scale_inf false x
  | PosInf, PosInf | NegInf, NegInf => PosInf
  | PosInf, NegInf | NegInf, PosInf => NegInf
  end.

(** Division; a zero divisor is read as +0. *)
Definition div (a b : number) : number :=
  match a, b with
  | NaN, _ | _, NaN => NaN
  | Fin x, Fin y =>
      if Req_dec_T y 0 then scale_inf true x else Fin (x / y)
  | Fin _, (PosInf | NegInf) => Fin 0
  | PosInf, Fin y => if Rlt_dec y 0 then NegInf else PosInf
  | NegInf, Fin y => if Rlt_dec y 0 then PosInf else NegInf
  | (PosInf | NegInf), (PosInf | NegInf) => NaN
  end.

(** [a < b]; false as soon as one side is NaN. *)
Definition ltb (a b : number) : bool :=
  match a, b with
  | NaN, _ | _, NaN => false
  | Fin x, Fin y => if Rlt_dec x y then true else false
  | NegInf, NegInf => false
  | NegInf, _ => true
  | _, NegInf => false
  | PosInf, _ => false
  | Fin _, PosInf => true
  end.

(** [a === b] on numbers: NaN is not equal to itself. *)
Definition strict_eq (a b : number) : bool :=
  match a, b with
  | NaN, _ | _, NaN => false
  | Fin x, Fin y => if Req_dec_T x y then true else false
  | NegInf, NegInf | PosInf, PosInf => true
  | _, _ => false
  end.

Definition gtb (a b : number) : bool := ltb b a.
Definition leb (a b : number) : bool := ltb a b || strict_eq a b.
Definition geb (a b : number) : bool := leb b a.

(** [Number.isFinite]. *)
Definition isFinite (a : number) : bool :=
  match a with Fin _ => true | _ => false end.

(** Truthiness of a number: 0 and NaN are falsy. *)
Definition truthy (a : number) : bool :=
  match a with
  | NaN => false
  | Fin x => if Req_dec_T x 0 then false else true
  | _ => true
  end.

(** [Math.min(a, b)] and [Math.max(a, b)]. *)
Definition min2 (a b : number) : number :=
  match a, b with
  | NaN, _ | _, NaN => NaN
  | _, _ => if ltb b a then b else a
  end.

Definition max2 (a b : number) : number :=
  match a, b with
  | NaN, _ | _, NaN => NaN
  | _, _ => if ltb a b then b else a
  end.

(** [Math.min(...xs)] and [Math.max(...xs)]: the empty call gives the
    neutral infinity. *)
Definition minOf (xs : list number) : number := fold_left min2 xs PosInf.
Definition maxOf (xs : list number) : number := fold_left max2 xs NegInf.

Definition abs (a : number) : number :=
  match a with
  | NaN => NaN
  | Fin x => Fin (Rabs x)
  | _ => PosInf
  end.

(** [x ** 2]. *)
Definition square (a : number) : number := mul a a.

(** [Math.sin], [Math.cos]: NaN outside the finite numbers. *)
Definition sin (a : number) : number :=
  match a with Fin x => Fin (Rtrigo_def.sin x) | _ => NaN end.

Definition cos (a : number) : number :=
  match a with Fin x => Fin (Rtrigo_def.cos x) | _ => NaN end.

(** [Math.sqrt]: NaN below zero. *)
Definition sqrt (a : number) : number :=
  match a with
  | Fin x => if Rlt_dec x 0 then NaN else Fin (R_sqrt.sqrt x)
  | PosInf => PosInf
  | _ => NaN
  end.

(** The angle of the point (x, y), on the reals. *)
Definition Ratan2 (y x : R) : R :=
  if Rlt_dec 0 x then atan (y / x)
  else if Rlt_dec x 0 then
    (if Rlt_dec y 0 then atan (y / x) - PI else atan (y / x) + PI)
  else if Rlt_dec 0 y then PI / 2
  else if Rlt_dec y 0 then - (PI / 2)
  else 0.

(** [Math.atan2(y, x)]. *)
Definition atan2 (y x : number) : number :=
  match y, x with
  | NaN, _ | _, NaN => NaN
  | Fin b, Fin a => Fin (Ratan2 b a)
  | Fin b, PosInf => Fin 0
  | Fin b, NegInf => if Rlt_dec b 0 then Fin (- PI) else Fin PI
  | PosInf, Fin _ => Fin (PI / 2)
  | NegInf, Fin _ => Fin (- (PI / 2))
  | PosInf, PosInf => Fin (PI / 4)
  | PosInf, NegInf => Fin (3 * PI / 4)
  | NegInf, PosInf => Fin (- (PI / 4))
  | NegInf, NegInf => Fin (- (3 * PI / 4))
  end.

(** [Number(x.toFixed(1))]: the nearest multiple of one tenth, a tie going
    away from zero; the infinities and NaN are unchanged by the round trip
    through their string. *)
Definition RtoFixed1 (x : R) : R :=
  if Rlt_dec x 0 then - (IZR (Zfloor (- x * 10 + / 2)) / 10)
  else IZR (Zfloor (x * 10 + / 2)) / 10.

Definition toFixed1 (a : number) : number :=
  match a with
  | Fin x => Fin (RtoFixed1 x)
  | other => other
  end.

Definition ofZ (z : Z) : number := Fin (IZR z).
Definition ofNat (n : nat) : number := Fin (INR n).

End JSNumber.

Export JSNumber.

Declare Scope js_scope.
Delimit Scope js_scope with js.
Bind Scope js_scope with number.
Infix "+" := add : js_scope.
Infix "-" := sub : js_scope.
Infix "*" := mul : js_scope.
Infix "/" := div : js_scope.
Infix "<?" := ltb : js_scope.
Infix ">?" := gtb : js_scope.
Infix "<=?" := leb : js_scope.
Infix ">=?" := geb : js_scope.
Infix "===" := strict_eq (at level 70) : js_scope.

(** A finite literal. *)
Notation "# x" := (Fin x%R) (at level 5, x at level 1, format "# x") : js_scope.

(** ** JavaScript strings *)

Module JSString.

Local Open Scope N_scope.

(** A string is its sequence of UTF-16 code units. *)
Definition jsstring : Type := list N.

(** The code units of an ASCII literal. *)
Definition lit (s : string) : jsstring :=
  map N_of_ascii (list_ascii_of_string s).

(** WhiteSpace and LineTerminator of ECMAScript, as [String.prototype.trim]
    strips them. *)
Definition isWhiteSpace (c : N) : bool :=
  existsb (N.eqb c)
    [9; 10; 11; 12; 13; 32; 160; 5760; 8232; 8233; 8239; 8287; 12288; 65279]
  || ((8192 <=? c) && (c <=? 8202)).

Fixpoint trimStart (s : jsstring) : jsstring :=
  match s with
  | c :: rest => if isWhiteSpace c then trimStart rest else s
  | [] => []
  end.

Definition trimEnd (s : jsstring) : jsstring := rev (trimStart (rev s)).

Definition trim (s : jsstring) : jsstring := trimEnd (trimStart s).

(** Puts a code unit in front of the first piece of a split. *)
Definition consHead (c : N) (pieces : list jsstring) : list jsstring :=
  match pieces with
  | piece :: others => (c :: piece) :: others
  | [] => [[c]]
  end.

Definition startsWithLF (s : jsstring) : bool :=
  match s with
  | c :: _ => c =? 10
  | [] => false
  end.

(** [s.split(/\r?\n/)]: a line feed separates, and a carriage return right
    before it belongs to the separator. *)
Fixpoint splitLines (s : jsstring) : list jsstring :=
  match s with
  | [] => [[]]
  | c :: rest =>
      if c =? 10 then [] :: splitLines rest
      else if (c =? 13) && startsWithLF rest then splitLines rest
      else consHead c (splitLines rest)
  end.

(** [s.startsWith(prefix)]. *)
Fixpoint startsWith (s prefix : jsstring) : bool :=
  match prefix, s with
  | [], _ => true
  | p :: prefix', c :: s' => (c =? p) && startsWith s' prefix'
  | _ :: _, [] => false
  end.

(** [s.slice(from, to)] for indices that are not negative. *)
Definition slice (s : jsstring) (from to : nat) : jsstring :=
  firstn (to - from) (skipn from s).

(** Truthiness of a string, as [filter(Boolean)] reads it. *)
Definition nonEmpty (s : jsstring) : bool :=
  match s with [] => false | _ :: _ => true end.

Definition digitValue (c : N) : option Z :=
  if (48 <=? c) && (c <=? 57) then Some (Z.of_N c - 48)%Z else None.

(** The value of the longest prefix of decimal digits; [acc] is [None] until
    a digit was read. *)
Fixpoint parseDigits (s : jsstring) (acc : option Z) : option Z :=
  match s with
  | c :: rest =>
      match digitValue c with
      | Some d =>
          parseDigits rest
            (Some (10 * match acc with Some v => v | None => 0 end + d)%Z)
      | None => acc
      end
  | [] => acc
  end.

(** [Number.parseInt(s, 10)]. *)
Definition parseInt10 (s : jsstring) : number :=
  let s1 := trimStart s in
  let '(sign, s2) :=
    match s1 with
    | 45 :: rest => ((-1)%Z, rest)
    | 43 :: rest => (1%Z, rest)
    | _ => (1%Z, s1)
    end in
  match parseDigits s2 None with
  | Some v => ofZ (sign * v)
  | None => NaN
  end.

(** Decimal digits of a natural number, most significant first; [fuel]
    bounds the number of digits. *)
Fixpoint digitsOf (fuel : nat) (n : N) (acc : jsstring) : jsstring :=
  match fuel with
  | O => acc
  | S fuel' =>
      let acc' := (48 + n mod 10) :: acc in
      if n / 10 =? 0 then acc' else digitsOf fuel' (n / 10) acc'
  end.

(** The text of an integer in a template literal. *)
Definition showZ (z : Z) : jsstring :=
  match z with
  | Z0 => [48]
  | Zpos p => digitsOf (S (N.to_nat (N.log2 (Npos p)))) (Npos p) []
  | Zneg p => 45 :: digitsOf (S (N.to_nat (N.log2 (Npos p)))) (Npos p) []
  end.

End JSString.

Export JSString.

(** ** The location route: geodesy *)

Module Geo.

Local Open Scope js_scope.

Definition EARTH_MEAN_RADIUS_KM : number := #6371.0088.

Definition toRadians (value : number) : number := (value * #PI) / #180.

Definition haversineDistance (lat1 lon1 lat2 lon2 : number) : number :=
  let dLat := toRadians (lat2 - lat1) in
  let dLon := toRadians (lon2 - lon1) in
  let a :=
    square (sin (dLat / #2)) +
    cos (toRadians lat1) * cos (toRadians lat2) * square (sin (dLon / #2)) in
  let c := #2 * atan2 (sqrt a) (sqrt (#1 - a)) in
  EARTH_MEAN_RADIUS_KM * c.

End Geo.

Export Geo.

(** ** The location route: the TLE parser *)

Module Tle.

Record TleSet : Type := mkTle {
  name : jsstring;
  line1 : jsstring;
  line2 : jsstring
}.

Definition SATELLITE_SAMPLE_COUNT : nat := 6.

(** The lines of the feed: split, trimmed, the empty ones dropped. *)
Definition tleLines (tleText : jsstring) : list jsstring :=
  filter nonEmpty (map trim (splitLines tleText)).

Definition acceptsWindow (l1 l2 : jsstring) : bool :=
  startsWith l1 (lit "1 ") && startsWith l2 (lit "2 ").

(** The loop of [parseTleSets].  [lines] is what is left from [index] on, so
    [index < lines.length - 2] reads: three lines are left; [sets] is the
    array built so far.  The loop stops after the window that filled the
    array up to [SATELLITE_SAMPLE_COUNT]. *)
Fixpoint scanWindows (lines : list jsstring) (sets : list TleSet)
  : list TleSet :=
  match lines with
  | name :: l1 :: l2 :: rest =>
      let sets' :=
        if acceptsWindow l1 l2 then sets ++ [mkTle name l1 l2] else sets in
      if (SATELLITE_SAMPLE_COUNT <=? List.length sets')%nat then sets'
      else scanWindows rest sets'
  | _ => sets
  end.

Definition parseTleSets (tleText : jsstring) : list TleSet :=
  scanWindows (tleLines tleText) [].

End Tle.

Export Tle.

(** ** Arrays: [Array.prototype.sort] with a comparator *)

Module JSArray.

Section Sort.

Variable A : Type.

(** The comparator; a NaN result is read as 0 by the sort. *)
Variable compare : A -> A -> number.

(** [x] has to come after [y]: [compare x y > 0]. *)
Definition comesAfter (x y : A) : bool := (#0 <? compare x y)%js.

(** [x] stood before every element of [sorted] and keeps that place
    in front of the elements it does not have to come after. *)
Fixpoint insertSorted (x : A) (sorted : list A) : list A :=
  match sorted with
  | [] => [x]
  | y :: rest =>
      if comesAfter x y then y :: insertSorted x rest
      else x :: sorted
  end.

(** The stable sort: for a consistent comparator the result of
    [Array.prototype.sort] is the one ordered permutation that keeps equal
    elements in their order, which this insertion sort computes. *)
Definition sortBy (xs : list A) : list A := fold_right insertSorted [] xs.

End Sort.

End JSArray.

Export JSArray.

(** ** The location route: satellite passes *)

Module Orbit.

Local Open Scope js_scope.

Definition SATELLITE_STEP_SECONDS : Z := 60.
Definition SATELLITE_LOOKAHEAD_SECONDS : Z := 2 * 60 * 60.

Record SatellitePass : Type := mkPass {
  passName : jsstring;
  noradId : number;
  distanceKm : number;
  passTime : jsstring;
  altitudeKm : option number
}.

(** What [eciToGeodetic] returns. *)
Record Geodetic : Type := mkGeodetic {
  geoLatitude : number;
  geoLongitude : number;
  geoHeight : number
}.

(** The three variables the sampling loop updates. *)
Record Closest : Type := mkClosest {
  closestDistance : number;
  closestTime : option Z;
  closestAltitudeKm : option number
}.

(** What the body of the [try] does for one record: it throws (and the
    [catch] logs a warning), it ends without a pass, or it pushes one. *)
Inductive Outcome : Type :=
| Threw
| NoPass
| Pushed (pass : SatellitePass).

(** The values [step] takes in
    [for (step = 0; step <= LOOKAHEAD; step += STEP)]; [fuel] bounds the
    number of rounds. *)
Fixpoint stepsFrom (fuel : nat) (step : Z) : list Z :=
  match fuel with
  | O => []
  | S fuel' =>
      if (step <=? SATELLITE_LOOKAHEAD_SECONDS)%Z
      then step :: stepsFrom fuel' (step + SATELLITE_STEP_SECONDS)%Z
      else []
  end.

Definition sampleSteps : list Z :=
  stepsFrom (S (Z.to_nat SATELLITE_LOOKAHEAD_SECONDS)) 0%Z.

Section Passes.

(** satellite.js and the clock.  A time is a number of milliseconds since
    the epoch; [None] stands for a thrown exception, and for [propagate]
    for a result whose [position] is false. *)
Variable Satrec : Type.
Variable Position : Type.
Variable twoline2satrec : jsstring -> jsstring -> option Satrec.
Variable propagate : Satrec -> Z -> option Position.
Variable gstime : Z -> number.
Variable eciToGeodetic : Position -> number -> Geodetic.
Variable degreesLat : number -> option number.
Variable degreesLong : number -> option number.
Variable toISOString : Z -> jsstring.

(** [new Date()] at the start of [computeSatellitePasses]. *)
Variable now : Z.

Variables latitude longitude : number.

(** The subpoint of the satellite at [testTime] and its height: [None]
    when a conversion throws, [Some None] when there is no position. *)
Definition subpointAt (satrec : Satrec) (testTime : Z)
  : option (option (number * number * number)) :=
  match propagate satrec testTime with
  | None => Some None
  | Some position =>
      let gmstValue := gstime testTime in
      let geodetic := eciToGeodetic position gmstValue in
      match degreesLat (geoLatitude geodetic) with
      | None => None
      | Some subLat =>
          match degreesLong (geoLongitude geodetic) with
          | None => None
          | Some subLon => Some (Some (subLat, subLon, geoHeight geodetic))
          end
      end
  end.

(** One round of the sampling loop; [None] when it throws. *)
Definition sampleRound (satrec : Satrec) (best : Closest) (step : Z)
  : option Closest :=
  let testTime := (now + step * 1000)%Z in
  match subpointAt satrec testTime with
  | None => None
  | Some None => Some best
  | Some (Some (subLat, subLon, height)) =>
      let distance := haversineDistance latitude longitude subLat subLon in
      if distance <? closestDistance best then
        Some (mkClosest distance (Some testTime)
                (if truthy height then Some (height / #1000) else None))
      else Some best
  end.

(** The distance the round for [step] measures, when it measures one. *)
Definition sampledDistance (satrec : Satrec) (step : Z) : option number :=
  match subpointAt satrec (now + step * 1000)%Z with
  | Some (Some (subLat, subLon, _)) =>
      Some (haversineDistance latitude longitude subLat subLon)
  | _ => None
  end.

Fixpoint sampleLoop (satrec : Satrec) (best : Closest) (steps : list Z)
  : option Closest :=
  match steps with
  | [] => Some best
  | step :: later =>
      match sampleRound satrec best step with
      | None => None
      | Some best' => sampleLoop satrec best' later
      end
  end.

Definition roundedAltitude (altitude : option number) : option number :=
  match altitude with
  | Some a => if truthy a then Some (toFixed1 a) else None
  | None => None
  end.

(** The body of the [try] for one record. *)
Definition tryTle (tle : TleSet) : Outcome :=
  match twoline2satrec (line1 tle) (line2 tle) with
  | None => Threw
  | Some satrec =>
      match sampleLoop satrec (mkClosest PosInf None None) sampleSteps with
      | None => Threw
      | Some best =>
          match closestTime best with
          | Some time =>
              if closestDistance best <? #2500 then
                Pushed
                  (mkPass (trim (name tle))
                     (parseInt10 (slice (line1 tle) 2 7))
                     (toFixed1 (closestDistance best))
                     (toISOString time)
                     (roundedAltitude (closestAltitudeKm best)))
              else NoPass
          | None => NoPass
          end
      end
  end.

Definition pushed (o : Outcome) : list SatellitePass :=
  match o with
  | Pushed pass => [pass]
  | _ => []
  end.

(** [passes] after the loop over the records. *)
Definition collectPasses (tles : list TleSet) : list SatellitePass :=
  flat_map (fun tle => pushed (tryTle tle)) tles.

Definition byDistance (a b : SatellitePass) : number :=
  distanceKm a - distanceKm b.

Definition computeSatellitePasses (tles : list TleSet)
  : list SatellitePass :=
  firstn 5 (sortBy byDistance (collectPasses tles)).

End Passes.

End Orbit.

Export Orbit.

(** ** The location route: the name in the links *)

Module Links.

Local Open Scope N_scope.

(** [name.replace(/\s+/g, "_")]: every run of blanks becomes one
    underscore; [inRun] tells that the code unit before was a blank. *)
Fixpoint underscoreRuns (inRun : bool) (name : jsstring) : jsstring :=
  match name with
  | [] => []
  | c :: rest =>
      if isWhiteSpace c then
        if inRun then underscoreRuns true rest
        else 95 :: underscoreRuns true rest
      else c :: underscoreRuns false rest
  end.

(** [encodedName] in [buildLinks], before [encodeURIComponent]. *)
Definition encodedName (name : jsstring) : jsstring :=
  underscoreRuns false name.

Definition isHighSurrogate (c : N) : bool := (55296 <=? c) && (c <=? 56319).

Definition isLowSurrogate (c : N) : bool := (56320 <=? c) && (c <=? 57343).

(** A string [encodeURIComponent] encodes: every surrogate is half of a
    pair; on any other string it throws a URIError. *)
Fixpoint wellFormed (s : jsstring) : bool :=
  match s with
  | [] => true
  | c :: rest =>
      if isHighSurrogate c then
        match rest with
        | d :: rest' => isLowSurrogate d && wellFormed rest'
        | [] => false
        end
      else if isLowSurrogate c then false
      else wellFormed rest
  end.

End Links.

Export Links.

(** ** The location route: the request handler *)

Module Route.

Local Open Scope js_scope.

Definition ALERT_RADIUS_KM : number := #500.

(** The outcome of one [fetch]: the promise rejects, or it resolves to a
    response with its [ok] flag, its status and what reading the body
    ([json()] or [text()]) resolves to, [None] when that read rejects. *)
Inductive Fetched (A : Type) : Type :=
| Rejected
| Replied (ok : bool) (status : Z) (body : option A).

Arguments Rejected {A}.

Record ReverseResult : Type := mkReverseResult {
  rrName : option jsstring;
  rrCountry : option jsstring;
  rrAdmin1 : option jsstring;
  rrTimezone : option jsstring;
  rrPopulation : option number;
  rrElevation : option number
}.

Record ReversePayload : Type := mkReversePayload {
  reverseResults : option (list ReverseResult)
}.

Record CurrentWeather : Type := mkCurrentWeather {
  cwTemperature : option number;
  cwWindspeed : option number;
  cwWeathercode : option number
}.

Record Hourly : Type := mkHourly {
  hourlyPrecipitation : option (list number)
}.

Record WeatherPayload : Type := mkWeatherPayload {
  current_weather : option CurrentWeather;
  hourly : option Hourly
}.

Record TopoPayload : Type := mkTopoPayload {
  topoResults : option (list (option number))
}.

Record Feature : Type := mkFeature {
  featureId : jsstring;
  featureMag : option number;
  featureTitle : option jsstring;
  featurePlace : option jsstring;
  featureTime : option number;
  (** [geometry.coordinates]: longitude, latitude, depth. *)
  featureCoordinates : number * number * number
}.

Record UsgsPayload : Type := mkUsgsPayload {
  features : option (list Feature)
}.

Record AlertInfo : Type := mkAlert {
  alertId : jsstring;
  alertTitle : jsstring;
  alertSource : jsstring;
  alertSeverity : option jsstring;
  alertMagnitude : option number;
  alertDistanceKm : number;
  happenedAt : jsstring
}.

Record WeatherSnapshot : Type := mkSnapshot {
  snapTemperature : option number;
  snapWindspeed : option number;
  snapPrecipitation : option number;
  snapDescription : option jsstring
}.

Record ResponseBody (Links : Type) : Type := mkBody {
  country : option jsstring;
  region : option jsstring;
  timezone : option jsstring;
  population : option number;
  elevation : option number;
  imageryUrl : jsstring;
  fallbackImagery : jsstring;
  weather : WeatherSnapshot;
  alerts : list AlertInfo;
  satellites : list SatellitePass;
  links : Links
}.

(** What the handler answers: [NextResponse.json(body)] with status 200, or
    [NextResponse.json({ error }, { status })]. *)
Inductive Response (Links : Type) : Type :=
| JsonOk (body : ResponseBody Links)
| JsonError (status : Z) (error : jsstring).

Arguments JsonError {Links}.

Definition weatherCodes : list (Z * string) :=
  [ (0, "Clear sky"); (1, "Mainly clear"); (2, "Partly cloudy");
    (3, "Overcast"); (45, "Fog"); (48, "Depositing rime fog");
    (51, "Light drizzle"); (53, "Moderate drizzle"); (55, "Dense drizzle");
    (56, "Freezing drizzle"); (57, "Freezing drizzle"); (61, "Slight rain");
    (63, "Moderate rain"); (65, "Heavy rain"); (66, "Freezing rain");
    (67, "Freezing rain"); (71, "Slight snow"); (73, "Moderate snow");
    (75, "Heavy snow"); (77, "Snow grains"); (80, "Rain showers");
    (81, "Moderate rain showers"); (82, "Violent rain showers");
    (85, "Snow showers"); (86, "Heavy snow showers"); (95, "Thunderstorm");
    (96, "Thunderstorm with hail"); (99, "Severe thunderstorm with hail")
  ]%Z%string.

Definition hasCode (code : number) (entry : Z * string) : bool :=
  code === ofZ (fst entry).

Definition mapWeatherCode (code : option number) : option jsstring :=
  match code with
  | None => None
  | Some c =>
      match find (hasCode c) weatherCodes with
      | Some entry => Some (lit (snd entry))
      | None => Some (lit "Weather data unavailable")
      end
  end.

(** [a ?? b]. *)
Definition orElse {A : Type} (a b : option A) : option A :=
  match a with Some _ => a | None => b end.

(** [o?.field] for a field that may itself be missing. *)
Definition andThen {A B : Type} (o : option A) (field : A -> option B)
  : option B :=
  match o with Some a => field a | None => None end.

(** [!param] for a query parameter. *)
Definition missing (param : option jsstring) : bool :=
  match param with
  | None => true
  | Some s => negb (nonEmpty s)
  end.

Definition sumNumbers (xs : list number) : number :=
  fold_left add xs #0.

Definition averagePrecipitationOf (precipitation : list number)
  : option number :=
  if (0 <? List.length precipitation)%nat then
    Some (sumNumbers (firstn 6 precipitation) /
          min2 #6 (ofNat (List.length precipitation)))
  else None.

Definition severityOfMagnitude (mag : option number) : option jsstring :=
  match mag with
  | Some m =>
      Some (if m >=? #6 then lit "High"
            else if m >=? #5 then lit "Moderate"
            else lit "Low")
  | None => None
  end.

Section Handler.

(** satellite.js and the clock, as for [computeSatellitePasses]. *)
Variable Satrec : Type.
Variable Position : Type.
Variable twoline2satrec : jsstring -> jsstring -> option Satrec.
Variable propagate : Satrec -> Z -> option Position.
Variable gstime : Z -> number.
Variable eciToGeodetic : Position -> number -> Geodetic.
Variable degreesLat : number -> option number.
Variable degreesLong : number -> option number.
Variable toISOString : Z -> jsstring.
Variable now : Z.

(** [Number.parseFloat], [new Date(t).toISOString()] for a time [t] it
    formats, and the builders of the links and imagery addresses, which
    only format text; [buildLinks] stands for the object built once
    [encodeURIComponent] has encoded the name. *)
Variable parseFloat : jsstring -> number.
Variable dateISO : number -> jsstring.
Variable Links : Type.
Variable buildNasaTileUrl : number -> number -> jsstring.
Variable buildFallbackImagery : number -> number -> jsstring.
Variable buildLinks : jsstring -> number -> number -> Links.

(** A time [new Date(time).toISOString()] formats: a finite number of at
    most 8.64e15 milliseconds in absolute value; on any other time it
    throws a RangeError. *)
Definition validTime (time : number) : bool :=
  match time with
  | Fin t => if Rlt_dec 8640000000000000 (Rabs t) then false else true
  | _ => false
  end.

(** [happenedAt] of an alert; [None] when formatting the time throws. *)
Definition happenedAtOf (feature : Feature) : option jsstring :=
  match featureTime feature with
  | Some time =>
      if truthy time then
        if validTime time then Some (dateISO time) else None
      else Some (toISOString now)
  | None => Some (toISOString now)
  end.

(** The callback of the map over the seismic feed: [None] when it throws,
    [Some None] for a feature farther than the alert radius. *)
Definition alertOf (latitude longitude : number) (feature : Feature)
  : option (option AlertInfo) :=
  let '(eventLon, eventLat, _) := featureCoordinates feature in
  let distance := haversineDistance latitude longitude eventLat eventLon in
  if distance >? ALERT_RADIUS_KM then Some None
  else
    match happenedAtOf feature with
    | Some happened =>
        Some (Some (mkAlert (featureId feature)
                      (match featureTitle feature with
                       | Some title => title
                       | None => lit "Seismic activity detected"
                       end)
                      (lit "USGS Earthquake Feed")
                      (severityOfMagnitude (featureMag feature))
                      (featureMag feature)
                      (toFixed1 distance)
                      happened))
    | None => None
    end.

(** [list.map(f)] for a callback that can throw: [None] when a call
    throws. *)
Fixpoint mapThrowing {A B : Type} (f : A -> option B) (xs : list A)
  : option (list B) :=
  match xs with
  | [] => Some []
  | x :: rest =>
      match f x with
      | Some y =>
          match mapThrowing f rest with
          | Some ys => Some (y :: ys)
          | None => None
          end
      | None => None
      end
  end.

(** [list.map(f).filter(Boolean)]. *)
Fixpoint keepSome {A B : Type} (f : A -> option B) (xs : list A) : list B :=
  match xs with
  | [] => []
  | x :: rest =>
      match f x with
      | Some y => y :: keepSome f rest
      | None => keepSome f rest
      end
  end.

(** [features.map(...).filter(Boolean)]; [None] when the callback
    throws. *)
Definition alertsOf (latitude longitude : number) (fs : list Feature)
  : option (list AlertInfo) :=
  match mapThrowing (alertOf latitude longitude) fs with
  | Some results => Some (keepSome (fun result => result) results)
  | None => None
  end.

(** [alerts], for the payload of the seismic feed if there is one. *)
Definition alertsOfFeed (latitude longitude : number)
    (usgsPayload : option UsgsPayload) : option (list AlertInfo) :=
  match andThen usgsPayload features with
  | Some fs => alertsOf latitude longitude fs
  | None => Some []
  end.

(** [nameParam ?? result?.name ?? "Location"]. *)
Definition linkNameOf (nameParam : option jsstring)
    (result : option ReverseResult) : jsstring :=
  match orElse nameParam (andThen result rrName) with
  | Some n => n
  | None => lit "Location"
  end.

(** [buildLinks(name, latitude, longitude)]; [None] when
    [encodeURIComponent] throws. *)
Definition linksOf (name : jsstring) (latitude longitude : number)
  : option Links :=
  if wellFormed (encodedName name) then
    Some (buildLinks name latitude longitude)
  else None.

(** The body of a response the handler goes on with only when it is [ok]:
    [Some None] for a response that is not ok, [None] when reading the body
    rejects. *)
Definition bodyIfOk {A : Type} (ok : bool) (body : option A)
  : option (option A) :=
  if ok then
    match body with
    | Some payload => Some (Some payload)
    | None => None
    end
  else Some None.

(** The [try] block of [GET]; [None] when it throws. *)
Definition tryLoad (latParam lonParam : jsstring) (nameParam : option jsstring)
    (latitude longitude : number)
    (reverseRes : Fetched ReversePayload)
    (weatherRes : Fetched WeatherPayload)
    (topoRes : Fetched TopoPayload)
    (usgsRes : Fetched UsgsPayload)
    (tleRes : Fetched jsstring)
  : option (ResponseBody Links) :=
  match reverseRes, weatherRes, topoRes, usgsRes, tleRes with
  | Replied reverseOk _ reverseBody, Replied weatherOk _ weatherBody,
    Replied topoOk _ topoBody, Replied usgsOk _ usgsBody,
    Replied tleOk _ tleBody =>
      if negb reverseOk then None
      else if negb weatherOk then None
      else
        match reverseBody, weatherBody with
        | Some reversePayload, Some weatherPayload =>
            match bodyIfOk topoOk topoBody, bodyIfOk usgsOk usgsBody,
                  bodyIfOk tleOk tleBody with
            | Some topoPayload, Some usgsPayload, Some tleBody' =>
                let tleText :=
                  match tleBody' with Some text => text | None => [] end in
                let tleSets := parseTleSets tleText in
                let result :=
                  andThen (reverseResults reversePayload) (@hd_error _) in
                let currentWeather :=
                  match current_weather weatherPayload with
                  | Some cw => cw
                  | None => mkCurrentWeather None None None
                  end in
                let precipitation :=
                  match andThen (hourly weatherPayload) hourlyPrecipitation with
                  | Some values => values
                  | None => []
                  end in
                let averagePrecipitation :=
                  averagePrecipitationOf precipitation in
                match alertsOfFeed latitude longitude usgsPayload with
                | Some alerts =>
                    let satellites :=
                      computeSatellitePasses twoline2satrec propagate gstime
                        eciToGeodetic degreesLat degreesLong toISOString now
                        latitude longitude tleSets in
                    let imageryUrl := buildNasaTileUrl latitude longitude in
                    match linksOf (linkNameOf nameParam result)
                            latitude longitude with
                    | Some links =>
                        Some
                          (mkBody
                             (andThen result rrCountry)
                             (andThen result rrAdmin1)
                             (andThen result rrTimezone)
                             (andThen result rrPopulation)
                             (orElse (andThen result rrElevation)
                                (andThen (andThen
                                            (andThen topoPayload topoResults)
                                            (@hd_error _))
                                   (fun e => e)))
                             imageryUrl
                             (buildFallbackImagery latitude longitude)
                             (mkSnapshot
                                (cwTemperature currentWeather)
                                (cwWindspeed currentWeather)
                                averagePrecipitation
                                (mapWeatherCode
                                   (cwWeathercode currentWeather)))
                             alerts satellites links)
                    | None => None
                    end
                | None => None
                end
            | _, _, _ => None
            end
        | _, _ => None
        end
  | _, _, _, _, _ => None
  end.

Definition GET (latParam lonParam nameParam : option jsstring)
    (reverseRes : Fetched ReversePayload)
    (weatherRes : Fetched WeatherPayload)
    (topoRes : Fetched TopoPayload)
    (usgsRes : Fetched UsgsPayload)
    (tleRes : Fetched jsstring)
  : Response Links :=
  if missing latParam || missing lonParam then
    JsonError 400 (lit "latitude and longitude are required")
  else
    match latParam, lonParam with
    | Some lat, Some lon =>
        let latitude := parseFloat lat in
        let longitude := parseFloat lon in
        if negb (isFinite latitude) || negb (isFinite longitude) then
          JsonError 400 (lit "Invalid latitude or longitude")
        else
          match tryLoad lat lon nameParam latitude longitude
                  reverseRes weatherRes topoRes usgsRes tleRes with
          | Some responseBody => JsonOk responseBody
          | None => JsonError 502 (lit "Failed to load location intelligence")
          end
    | _, _ => JsonError 400 (lit "latitude and longitude are required")
    end.

End Handler.

End Route.

Export Route.

(** ** The globe data loaders *)

Module GlobeData.

Local Open Scope js_scope.

Inductive WeatherStatus : Type := clear | storm | cloudy | rain | wind.

Record WeatherObservation : Type := mkObservation {
  obsId : jsstring;
  obsName : jsstring;
  obsLatitude : number;
  obsLongitude : number;
  temperature : number;
  precipitation : number;
  cloudcover : number;
  windspeed : number
}.

Record HeatmapPoint : Type := mkHeatmapPoint {
  hpId : jsstring;
  hpName : jsstring;
  hpLatitude : number;
  hpLongitude : number;
  intensity : number;
  hpMultipliers : option (list number)
}.

Record Endpoint : Type := mkEndpoint {
  epName : jsstring;
  epLatitude : number;
  epLongitude : number
}.

Record RouteArc : Type := mkRouteArc {
  arcId : jsstring;
  from : Endpoint;
  to : Endpoint;
  magnitude : number;
  arcMultipliers : option (list number)
}.

Record WeatherCell : Type := mkWeatherCell {
  cellId : jsstring;
  cellLatitude : number;
  cellLongitude : number;
  status : WeatherStatus;
  severity : number;
  cellMultipliers : option (list number)
}.

Record OverlayMultipliers : Type := mkOverlay {
  heatmap : number;
  weather : number;
  routes : number
}.

Record TimelineEvent : Type := mkEvent {
  eventId : jsstring;
  label : jsstring;
  description : jsstring;
  timestamp : jsstring;
  overlayMultipliers : OverlayMultipliers
}.

(** [WEATHER_STATUS_THRESHOLDS]. *)
Definition storm_precipitation : number := #8.
Definition storm_wind : number := #12.
Definition rain_precipitation : number := #2.
Definition wind_wind : number := #12.
Definition cloudy_cloudcover : number := #45.

Definition classifyWeather (precipitation windspeed cloudcover : number)
  : WeatherStatus :=
  if (precipitation >=? storm_precipitation) && (windspeed >=? storm_wind)
  then storm
  else if precipitation >=? rain_precipitation then rain
  else if windspeed >=? wind_wind then wind
  else if cloudcover >=? cloudy_cloudcover then cloudy
  else clear.

Definition normalize (value min max : number) : number :=
  if negb (isFinite value) || (min === max) then #0
  else (value - min) / (max - min).

Definition heatmapPointOf (min max : number) (cell : WeatherObservation)
  : HeatmapPoint :=
  mkHeatmapPoint (obsId cell) (obsName cell)
    (obsLatitude cell) (obsLongitude cell)
    (normalize (temperature cell) min max)
    (Some [normalize (precipitation cell) #0 #10;
           normalize (windspeed cell) #0 #20]).

(** [loadHeatmapData], on the samples it works with: the observations passed
    in or, without them, what [fetchWeatherSamples] resolved to. *)
Definition loadHeatmapData (samples : list WeatherObservation)
  : list HeatmapPoint :=
  match samples with
  | [] => []
  | _ :: _ =>
      let temperatures := map temperature samples in
      let min := minOf temperatures in
      let max := maxOf temperatures in
      map (heatmapPointOf min max) samples
  end.

Definition severityBase (status : WeatherStatus) (cell : WeatherObservation)
  : number :=
  match status with
  | storm => precipitation cell + windspeed cell * #0.4
  | rain => precipitation cell
  | wind => windspeed cell
  | cloudy => cloudcover cell
  | clear => #5
  end.

Definition weatherCellOf (cell : WeatherObservation) : WeatherCell :=
  let status :=
    classifyWeather (precipitation cell) (windspeed cell) (cloudcover cell) in
  mkWeatherCell (obsId cell) (obsLatitude cell) (obsLongitude cell)
    status
    (min2 #1 (severityBase status cell / #20))
    (Some [normalize (precipitation cell) #0 #12;
           normalize (windspeed cell) #0 #30]).

Definition loadWeatherCells (samples : list WeatherObservation)
  : list WeatherCell :=
  map weatherCellOf samples.

(** [xs.map((x, index) => f(x, index))], [index] counting from [start]. *)
Fixpoint mapIndexed {A B : Type} (f : A -> nat -> B) (start : nat)
    (xs : list A) : list B :=
  match xs with
  | [] => []
  | x :: rest => f x start :: mapIndexed f (S start) rest
  end.

Definition hours : list Z := [-6; -3; 0; 3; 6; 9]%Z.

(** [cells.reduce((acc, cell) => acc + cell.severity, 0) /
    Math.max(cells.length, 1)]. *)
Definition meanSeverity (cells : list WeatherCell) : number :=
  fold_left (fun acc cell => acc + severity cell) cells #0 /
  max2 (ofNat (List.length cells)) #1.

Section Timeline.

(** [new Date()] in milliseconds, and [Date.prototype.toISOString]. *)
Variable now : Z.
Variable toISOString : Z -> jsstring.

Definition timelineEventOf (cells : list WeatherCell) (offset : Z)
    (index : nat) : TimelineEvent :=
  let timestamp := (now + offset * 60 * 60 * 1000)%Z in
  let severity := meanSeverity cells in
  mkEvent
    (lit "event-" ++ showZ (Z.of_nat index))
    (if (offset =? 0)%Z then lit "Now"
     else if (0 <? offset)%Z then lit "+" ++ showZ offset ++ lit "h"
     else showZ offset ++ lit "h")
    (if (offset =? 0)%Z then lit "Live conditions across monitored sites."
     else if (0 <? offset)%Z then lit "Projected weather pattern shift."
     else lit "Historical snapshot from earlier today.")
    (toISOString timestamp)
    (mkOverlay
       (min2 #1 (severity + ofNat index * #0.05))
       (min2 #1 (severity + ofNat index * #0.08))
       (max2 #0.4 (#1 - abs (ofZ offset) * #0.05))).

Definition loadTimeline (cells : list WeatherCell) : list TimelineEvent :=
  mapIndexed (timelineEventOf cells) 0 hours.

End Timeline.

Definition endpointOf (p : HeatmapPoint) : Endpoint :=
  mkEndpoint (hpName p) (hpLatitude p) (hpLongitude p).

Definition byIntensityDescending (a b : HeatmapPoint) : number :=
  intensity b - intensity a.

Definition arcBetween (source target : HeatmapPoint) : RouteArc :=
  mkRouteArc (hpId source ++ lit "-" ++ hpId target)
    (endpointOf source) (endpointOf target)
    ((intensity source + intensity target) / #2)
    (hpMultipliers source).

(** The round of the loop of [buildRouteArcs] for [index]; both reads of
    [sorted] are inside the array for the indices the loop takes. *)
Definition arcAt (sorted : list HeatmapPoint) (index : nat) : list RouteArc :=
  match nth_error sorted index,
        nth_error sorted ((index + 2) mod List.length sorted) with
  | Some source, Some target => [arcBetween source target]
  | _, _ => []
  end.

Definition buildRouteArcs (points : list HeatmapPoint) : list RouteArc :=
  if (List.length points <? 2)%nat then []
  else
    let sorted := firstn 6 (sortBy byIntensityDescending points) in
    flat_map (arcAt sorted) (seq 0 (List.length sorted - 1)).

End GlobeData.

Export GlobeData.

(** ** The globe store *)

Module Store.

Local Open Scope js_scope.

Inductive OverlayKey : Type := KeyHeatmap | KeyRoutes | KeyWeather.

Definition sameKey (a b : OverlayKey) : bool :=
  match a, b with
  | KeyHeatmap, KeyHeatmap | KeyRoutes, KeyRoutes | KeyWeather, KeyWeather =>
      true
  | _, _ => false
  end.

(** [{ ...record, [key]: value }]. *)
Definition withKey {V : Type} (record : OverlayKey -> V) (key : OverlayKey)
    (value : V) : OverlayKey -> V :=
  fun k => if sameKey k key then value else record k.

Definition defaultOverlays (key : OverlayKey) : bool :=
  match key with
  | KeyHeatmap => true
  | KeyRoutes => true
  | KeyWeather => false
  end.

Definition defaultOverlayIntensity (_ : OverlayKey) : number := #1.

(** [a === b] on strings. *)
Fixpoint sameString (a b : jsstring) : bool :=
  match a, b with
  | [], [] => true
  | x :: a', y :: b' => (x =? y)%N && sameString a' b'
  | _, _ => false
  end.

(** [xs.slice(-count)]. *)
Definition lastN {A : Type} (count : nat) (xs : list A) : list A :=
  skipn (List.length xs - count) xs.

Section GlobeStore.

(** The records the store only moves around, with what the setters read
    of them: the [id] of a search result and of a saved target, and the
    two object spreads [{ ...item, ...patch }] and
    [{ ...entry, ...target }]. *)
Variable SearchResult : Type.
Variable SearchPatch : Type.
Variable SavedTarget : Type.
Variable QueryTrail : Type.
Variable resultId : SearchResult -> jsstring.
Variable targetId : SavedTarget -> jsstring.
Variable patched : SearchResult -> SearchPatch -> SearchResult.
Variable merged : SavedTarget -> SavedTarget -> SavedTarget.

Record GlobeState : Type := mkState {
  overlays : OverlayKey -> bool;
  overlayIntensity : OverlayKey -> number;
  heatmapPoints : list HeatmapPoint;
  routeArcs : list RouteArc;
  weatherCells : list WeatherCell;
  timeline : list TimelineEvent;
  timelineIndex : number;
  isPlayingTimeline : bool;
  searchQuery : jsstring;
  searchResults : list SearchResult;
  searchLoading : bool;
  searchError : option jsstring;
  savedTargets : list SavedTarget;
  recentQueries : list SearchResult;
  queryTrails : list QueryTrail;
  useNasaTexture : bool;
  activeGeofence : option (number * number * number * number)
}.

Definition initialState : GlobeState :=
  mkState defaultOverlays defaultOverlayIntensity [] [] [] [] #0 false
    [] [] false None [] [] [] false None.

(** A value or an updater of the current value. *)
Inductive OrUpdater (V : Type) : Type :=
| Plain (value : V)
| Updater (update : V -> V).

Definition resolve {V : Type} (given : OrUpdater V) (current : V) : V :=
  match given with
  | Plain value => value
  | Updater update => update current
  end.

(** [Math.max(events.length - 1, 0)]. *)
Definition lastIndex (events : list TimelineEvent) : number :=
  max2 (ofNat (List.length events) - #1) #0.

Definition setUseNasaTexture (enabled : bool) (s : GlobeState) :=
  mkState (overlays s) (overlayIntensity s) (heatmapPoints s) (routeArcs s)
    (weatherCells s) (timeline s) (timelineIndex s) (isPlayingTimeline s)
    (searchQuery s) (searchResults s) (searchLoading s) (searchError s)
    (savedTargets s) (recentQueries s) (queryTrails s) enabled
    (activeGeofence s).

Definition setSavedTargets (targets : list SavedTarget) (s : GlobeState) :=
  mkState (overlays s) (overlayIntensity s) (heatmapPoints s) (routeArcs s)
    (weatherCells s) (timeline s) (timelineIndex s) (isPlayingTimeline s)
    (searchQuery s) (searchResults s) (searchLoading s) (searchError s)
    targets (recentQueries s) (queryTrails s) (useNasaTexture s)
    (activeGeofence s).

Definition setRecentQueries (results : list SearchResult) (s : GlobeState) :=
  mkState (overlays s) (overlayIntensity s) (heatmapPoints s) (routeArcs s)
    (weatherCells s) (timeline s) (timelineIndex s) (isPlayingTimeline s)
    (searchQuery s) (searchResults s) (searchLoading s) (searchError s)
    (savedTargets s) results (queryTrails s) (useNasaTexture s)
    (activeGeofence s).

Definition setActiveGeofence
    (box : option (number * number * number * number)) (s : GlobeState) :=
  mkState (overlays s) (overlayIntensity s) (heatmapPoints s) (routeArcs s)
    (weatherCells s) (timeline s) (timelineIndex s) (isPlayingTimeline s)
    (searchQuery s) (searchResults s) (searchLoading s) (searchError s)
    (savedTargets s) (recentQueries s) (queryTrails s) (useNasaTexture s)
    box.

Definition setOverlayEnabled (key : OverlayKey) (enabled : bool)
    (s : GlobeState) :=
  mkState (withKey (overlays s) key enabled) (overlayIntensity s)
    (heatmapPoints s) (routeArcs s)
    (weatherCells s) (timeline s) (timelineIndex s) (isPlayingTimeline s)
    (searchQuery s) (searchResults s) (searchLoading s) (searchError s)
    (savedTargets s) (recentQueries s) (queryTrails s) (useNasaTexture s)
    (activeGeofence s).

Definition setOverlayIntensity (key : OverlayKey) (value : number)
    (s : GlobeState) :=
  mkState (overlays s) (withKey (overlayIntensity s) key value)
    (heatmapPoints s) (routeArcs s)
    (weatherCells s) (timeline s) (timelineIndex s) (isPlayingTimeline s)
    (searchQuery s) (searchResults s) (searchLoading s) (searchError s)
    (savedTargets s) (recentQueries s) (queryTrails s) (useNasaTexture s)
    (activeGeofence s).

Definition setTimelineIndex (indexOrUpdater : OrUpdater number)
    (s : GlobeState) :=
  let nextIndex := resolve indexOrUpdater (timelineIndex s) in
  let clamped := max2 #0 (min2 nextIndex (lastIndex (timeline s))) in
  mkState (overlays s) (overlayIntensity s) (heatmapPoints s) (routeArcs s)
    (weatherCells s) (timeline s) clamped (isPlayingTimeline s)
    (searchQuery s) (searchResults s) (searchLoading s) (searchError s)
    (savedTargets s) (recentQueries s) (queryTrails s) (useNasaTexture s)
    (activeGeofence s).

Definition setIsPlayingTimeline (playingOrUpdater : OrUpdater bool)
    (s : GlobeState) :=
  mkState (overlays s) (overlayIntensity s) (heatmapPoints s) (routeArcs s)
    (weatherCells s) (timeline s) (timelineIndex s)
    (resolve playingOrUpdater (isPlayingTimeline s))
    (searchQuery s) (searchResults s) (searchLoading s) (searchError s)
    (savedTargets s) (recentQueries s) (queryTrails s) (useNasaTexture s)
    (activeGeofence s).

Definition setHeatmapPoints (points : list HeatmapPoint) (s : GlobeState) :=
  mkState (overlays s) (overlayIntensity s) points (routeArcs s)
    (weatherCells s) (timeline s) (timelineIndex s) (isPlayingTimeline s)
    (searchQuery s) (searchResults s) (searchLoading s) (searchError s)
    (savedTargets s) (recentQueries s) (queryTrails s) (useNasaTexture s)
    (activeGeofence s).

Definition setRouteArcs (arcs : list RouteArc) (s : GlobeState) :=
  mkState (overlays s) (overlayIntensity s) (heatmapPoints s) arcs
    (weatherCells s) (timeline s) (timelineIndex s) (isPlayingTimeline s)
    (searchQuery s) (searchResults s) (searchLoading s) (searchError s)
    (savedTargets s) (recentQueries s) (queryTrails s) (useNasaTexture s)
    (activeGeofence s).

Definition setWeatherCells (cells : list WeatherCell) (s : GlobeState) :=
  mkState (overlays s) (overlayIntensity s) (heatmapPoints s) (routeArcs s)
    cells (timeline s) (timelineIndex s) (isPlayingTimeline s)
    (searchQuery s) (searchResults s) (searchLoading s) (searchError s)
    (savedTargets s) (recentQueries s) (queryTrails s) (useNasaTexture s)
    (activeGeofence s).

Definition setTimeline (events : list TimelineEvent) (s : GlobeState) :=
  mkState (overlays s) (overlayIntensity s) (heatmapPoints s) (routeArcs s)
    (weatherCells s) events
    (min2 (timelineIndex s) (lastIndex events))
    (isPlayingTimeline s)
    (searchQuery s) (searchResults s) (searchLoading s) (searchError s)
    (savedTargets s) (recentQueries s) (queryTrails s) (useNasaTexture s)
    (activeGeofence s).

Definition setSearchQuery (query : jsstring) (s : GlobeState) :=
  mkState (overlays s) (overlayIntensity s) (heatmapPoints s) (routeArcs s)
    (weatherCells s) (timeline s) (timelineIndex s) (isPlayingTimeline s)
    query (searchResults s) (searchLoading s) (searchError s)
    (savedTargets s) (recentQueries s) (queryTrails s) (useNasaTexture s)
    (activeGeofence s).

Definition setSearchResults (results : list SearchResult) (s : GlobeState) :=
  mkState (overlays s) (overlayIntensity s) (heatmapPoints s) (routeArcs s)
    (weatherCells s) (timeline s) (timelineIndex s) (isPlayingTimeline s)
    (searchQuery s) results (searchLoading s) (searchError s)
    (savedTargets s) (recentQueries s) (queryTrails s) (useNasaTexture s)
    (activeGeofence s).

Definition updateSearchResult (id : jsstring) (patch : SearchPatch)
    (s : GlobeState) :=
  setSearchResults
    (map (fun item =>
            if sameString (resultId item) id then patched item patch
            else item)
       (searchResults s))
    s.

Definition setSearchLoading (loading : bool) (s : GlobeState) :=
  mkState (overlays s) (overlayIntensity s) (heatmapPoints s) (routeArcs s)
    (weatherCells s) (timeline s) (timelineIndex s) (isPlayingTimeline s)
    (searchQuery s) (searchResults s) loading (searchError s)
    (savedTargets s) (recentQueries s) (queryTrails s) (useNasaTexture s)
    (activeGeofence s).

Definition setSearchError (error : option jsstring) (s : GlobeState) :=
  mkState (overlays s) (overlayIntensity s) (heatmapPoints s) (routeArcs s)
    (weatherCells s) (timeline s) (timelineIndex s) (isPlayingTimeline s)
    (searchQuery s) (searchResults s) (searchLoading s) error
    (savedTargets s) (recentQueries s) (queryTrails s) (useNasaTexture s)
    (activeGeofence s).

Definition addSavedTarget (target : SavedTarget) (s : GlobeState) :=
  let exists_ :=
    existsb (fun entry => sameString (targetId entry) (targetId target))
      (savedTargets s) in
  setSavedTargets
    (if exists_ then
       map (fun entry =>
              if sameString (targetId entry) (targetId target)
              then merged entry target else entry)
         (savedTargets s)
     else savedTargets s ++ [target])
    s.

Definition removeSavedTarget (id : jsstring) (s : GlobeState) :=
  setSavedTargets
    (filter (fun entry => negb (sameString (targetId entry) id))
       (savedTargets s))
    s.

Definition recordQueryTrail (trail : QueryTrail) (s : GlobeState) :=
  mkState (overlays s) (overlayIntensity s) (heatmapPoints s) (routeArcs s)
    (weatherCells s) (timeline s) (timelineIndex s) (isPlayingTimeline s)
    (searchQuery s) (searchResults s) (searchLoading s) (searchError s)
    (savedTargets s) (recentQueries s)
    (lastN 19 (queryTrails s) ++ [trail])
    (useNasaTexture s) (activeGeofence s).

Definition pushRecentQuery (result : SearchResult) (s : GlobeState) :=
  let filtered :=
    filter (fun item => negb (sameString (resultId item) (resultId result)))
      (recentQueries s) in
  setRecentQueries (firstn 15 (result :: filtered)) s.

(** One call of a setter of the store. *)
Inductive Call : Type :=
| CallSetUseNasaTexture (enabled : bool)
| CallSetSavedTargets (targets : list SavedTarget)
| CallSetRecentQueries (results : list SearchResult)
| CallSetActiveGeofence (box : option (number * number * number * number))
| CallSetOverlayEnabled (key : OverlayKey) (enabled : bool)
| CallSetOverlayIntensity (key : OverlayKey) (value : number)
| CallSetTimelineIndex (indexOrUpdater : OrUpdater number)
| CallSetIsPlayingTimeline (playingOrUpdater : OrUpdater bool)
| CallSetHeatmapPoints (points : list HeatmapPoint)
| CallSetRouteArcs (arcs : list RouteArc)
| CallSetWeatherCells (cells : list WeatherCell)
| CallSetTimeline (events : list TimelineEvent)
| CallSetSearchQuery (query : jsstring)
| CallSetSearchResults (results : list SearchResult)
| CallUpdateSearchResult (id : jsstring) (patch : SearchPatch)
| CallSetSearchLoading (loading : bool)
| CallSetSearchError (error : option jsstring)
| CallAddSavedTarget (target : SavedTarget)
| CallRemoveSavedTarget (id : jsstring)
| CallRecordQueryTrail (trail : QueryTrail)
| CallPushRecentQuery (result : SearchResult).

Definition perform (call : Call) (s : GlobeState) : GlobeState :=
  match call with
  | CallSetUseNasaTexture enabled => setUseNasaTexture enabled s
  | CallSetSavedTargets targets => setSavedTargets targets s
  | CallSetRecentQueries results => setRecentQueries results s
  | CallSetActiveGeofence box => setActiveGeofence box s
  | CallSetOverlayEnabled key enabled => setOverlayEnabled key enabled s
  | CallSetOverlayIntensity key value => setOverlayIntensity key value s
  | CallSetTimelineIndex indexOrUpdater => setTimelineIndex indexOrUpdater s
  | CallSetIsPlayingTimeline playingOrUpdater =>
      setIsPlayingTimeline playingOrUpdater s
  | CallSetHeatmapPoints points => setHeatmapPoints points s
  | CallSetRouteArcs arcs => setRouteArcs arcs s
  | CallSetWeatherCells cells => setWeatherCells cells s
  | CallSetTimeline events => setTimeline events s
  | CallSetSearchQuery query => setSearchQuery query s
  | CallSetSearchResults results => setSearchResults results s
  | CallUpdateSearchResult id patch => updateSearchResult id patch s
  | CallSetSearchLoading loading => setSearchLoading loading s
  | CallSetSearchError error => setSearchError error s
  | CallAddSavedTarget target => addSavedTarget target s
  | CallRemoveSavedTarget id => removeSavedTarget id s
  | CallRecordQueryTrail trail => recordQueryTrail trail s
  | CallPushRecentQuery result => pushRecentQuery result s
  end.

(** The state after a sequence of calls. *)
Definition run (calls : list Call) (s : GlobeState) : GlobeState :=
  fold_left (fun state call => perform call state) calls s.

(** [0 <= timelineIndex <= Math.max(timeline.length - 1, 0)]. *)
Definition indexInRange (s : GlobeState) : Prop :=
  (#0 <=? timelineIndex s) = true /\
  (timelineIndex s <=? lastIndex (timeline s)) = true.

(** The index a call of [setTimelineIndex] asks for is a number other
    than NaN. *)
Definition asksNumber (call : Call) (s : GlobeState) : Prop :=
  match call with
  | CallSetTimelineIndex indexOrUpdater =>
      resolve indexOrUpdater (timelineIndex s) <> NaN
  | _ => True
  end.

(** No call of [setTimelineIndex] in the sequence asks for NaN, each call
    being read in the state it is made in. *)
Fixpoint askNumbers (calls : list Call) (s : GlobeState) : Prop :=
  match calls with
  | [] => True
  | call :: later => asksNumber call s /\ askNumbers later (perform call s)
  end.

End GlobeStore.

End Store.

Export Store.

(** ** Vocabulary of the properties *)

Module Vocabulary.

(** A finite number between 0 and 1. *)
Definition unitInterval (a : number) : Prop :=
  exists r : R, a = Fin r /\ (0 <= r <= 1)%R.

(** The multiplier of one channel over the timeline. *)
Definition channel (pick : OverlayMultipliers -> number)
    (events : list TimelineEvent) : list number :=
  map (fun event => pick (overlayMultipliers event)) events.

(** A value clamped to [0, 1]. *)
Definition clamp01 (a : number) : number := min2 (Fin 1) (max2 (Fin 0) a).

(** A finite number of magnitude at most 1e300: sums and differences of
    two of them stay far from the largest double. *)
Definition safeMagnitude (a : number) : Prop :=
  exists x : R, a = Fin x /\ (Rabs x <= 1e300)%R.

End Vocabulary.

Export Vocabulary.

(** ** Example data *)

Module Examples.

Local Open Scope js_scope.

Definition calmCell : WeatherCell :=
  mkWeatherCell (lit "osl") #59.9139 #10.7522 clear #0.25 None.

Definition stormCell : WeatherCell :=
  mkWeatherCell (lit "syd") #(-33.8688) #151.2093 storm #1 None.

End Examples.

Export Examples.

(** ** Example data: heatmap points *)

Module RouteExamples.

Local Open Scope js_scope.

Definition pointOf (id : string) (level : number) : HeatmapPoint :=
  mkHeatmapPoint (lit id) (lit id) #0 #0 level None.

(** Six points with the intensities .9, .5, .7, .3, .6, .2. *)
Definition sixPoints : list HeatmapPoint :=
  [ pointOf "a" #0.9; pointOf "b" #0.5; pointOf "c" #0.7;
    pointOf "d" #0.3; pointOf "e" #0.6; pointOf "f" #0.2 ].

Definition threePoints : list HeatmapPoint :=
  [ pointOf "x" #0.8; pointOf "y" #0.4; pointOf "z" #0.1 ].

(** Descending order of intensity, as [<=] of JavaScript reads it. *)
Definition descending (a b : HeatmapPoint) : Prop :=
  (intensity b <=? intensity a) = true.

End RouteExamples.

Export RouteExamples.

(** ** Vocabulary of the properties: windows of the TLE feed *)

Module TleWindows.

(** Three consecutive lines of the feed: a triplet a record is read from,
    or three lines that are no triplet. *)
Inductive Window : Type :=
| Triplet (record : TleSet)
| Garbage (g1 g2 g3 : jsstring).

Definition windowLines (w : Window) : list jsstring :=
  match w with
  | Triplet record => [name record; line1 record; line2 record]
  | Garbage g1 g2 g3 => [g1; g2; g3]
  end.

(** A triplet has its second line start with "1 " and its third with "2 ";
    a garbage window has not. *)
Definition wellFormedWindow (w : Window) : bool :=
  match w with
  | Triplet record => acceptsWindow (line1 record) (line2 record)
  | Garbage _ g2 g3 => negb (acceptsWindow g2 g3)
  end.

Fixpoint tripletsOf (windows : list Window) : list TleSet :=
  match windows with
  | [] => []
  | Triplet record :: rest => record :: tripletsOf rest
  | Garbage _ _ _ :: rest => tripletsOf rest
  end.

(** The lines of a text, one line feed after each. *)
Definition textOf (lines : list string) : jsstring :=
  flat_map (fun line => lit line ++ [10%N]) lines.

Definition issRecord : TleSet :=
  mkTle (lit "ISS (ZARYA)")
    (lit "1 25544U 98067A   24001.50000000  .00016717  00000-0  10270-3 0  9005")
    (lit "2 25544  51.6400 208.9163 0006703  69.9862  25.2906 15.50000000    10").

Definition issLines : list string :=
  [ "ISS (ZARYA)";
    "1 25544U 98067A   24001.50000000  .00016717  00000-0  10270-3 0  9005";
    "2 25544  51.6400 208.9163 0006703  69.9862  25.2906 15.50000000    10"
  ]%string.

End TleWindows.

Export TleWindows.

(** ** Vocabulary of the properties: the haversine on the reals *)

Module HaversineReal.

Local Open Scope R_scope.

(** The haversine of the central angle between two points given in
    degrees. *)
Definition Rhaversine (lat1 lon1 lat2 lon2 : R) : R :=
  Rtrigo_def.sin ((lat2 + - lat1) * PI / 180 / 2) *
  Rtrigo_def.sin ((lat2 + - lat1) * PI / 180 / 2) +
  Rtrigo_def.cos (lat1 * PI / 180) * Rtrigo_def.cos (lat2 * PI / 180) *
  (Rtrigo_def.sin ((lon2 + - lon1) * PI / 180 / 2) *
   Rtrigo_def.sin ((lon2 + - lon1) * PI / 180 / 2)).

End HaversineReal.

Export HaversineReal.

(** ** Example data: satellites that hang over one point *)

Module OrbitExamples.

Local Open Scope js_scope.

(** A stand-in for satellite.js in the examples: every record parses, and
    its satellite stays over the equator at the longitude [lonRadians]. *)
Definition hoverTwoline (_ _ : jsstring) : option unit := Some tt.
Definition hoverPropagate (_ : unit) (_ : Z) : option unit := Some tt.
Definition hoverGstime (_ : Z) : number := #0.
Definition hoverGeodetic (lonRadians : number) (_ : unit) (_ : number)
  : Geodetic :=
  mkGeodetic #0 lonRadians #0.
Definition radiansToDegrees (radians : number) : option number :=
  Some (radians * #180 / #PI).

(** [computeSatellitePasses] and the body of its [try] for a ground point
    at (0, 0), satellites [lonRadians] to the east, and the clock at 0. *)
Definition hoverTry (lonRadians : number) : TleSet -> Outcome :=
  tryTle hoverTwoline hoverPropagate hoverGstime (hoverGeodetic lonRadians)
    radiansToDegrees radiansToDegrees showZ 0 #0 #0.

Definition hoverPasses (lonRadians : number)
  : list TleSet -> list SatellitePass :=
  computeSatellitePasses hoverTwoline hoverPropagate hoverGstime
    (hoverGeodetic lonRadians) radiansToDegrees radiansToDegrees showZ 0
    #0 #0.

Definition tleA : TleSet :=
  mkTle (lit "ALPHA") (lit "1 00001U") (lit "2 00001").



End OrbitExamples.

Export OrbitExamples.

(** ** Vocabulary of the properties: upstream replies *)

Module Upstream.

Local Open Scope js_scope.

(** A reply the handler can go on with: a response that is not ok, or an
    ok response whose body reads. *)
Definition usable {A : Type} (reply : Fetched A) : Prop :=
  match reply with
  | Rejected => False
  | Replied true _ None => False
  | Replied _ _ _ => True
  end.

(** The payload of an ok response. *)
Definition payloadOf {A : Type} (reply : Fetched A) : option A :=
  match reply with
  | Replied true _ (Some payload) => Some payload
  | _ => None
  end.

(** The coordinates the handler accepts: both parameters are given and
    parse to finite numbers. *)
Definition acceptedCoordinates (parseFloat : jsstring -> number)
    (lat lon : jsstring) : Prop :=
  nonEmpty lat = true /\ nonEmpty lon = true /\
  isFinite (parseFloat lat) = true /\ isFinite (parseFloat lon) = true.

Definition failedMessage : jsstring :=
  lit "Failed to load location intelligence".

(** The handler of the examples: satellites hanging over (0, 0), every
    coordinate parameter read as 35, texts left empty. *)
Definition exampleGET
  : option jsstring -> option jsstring -> option jsstring ->
    Fetched ReversePayload -> Fetched WeatherPayload ->
    Fetched TopoPayload -> Fetched UsgsPayload -> Fetched jsstring ->
    Response unit :=
  GET hoverTwoline hoverPropagate hoverGstime (hoverGeodetic #0)
    radiansToDegrees radiansToDegrees showZ 0
    (fun _ => #35) (fun _ => []) (fun _ _ => []) (fun _ _ => [])
    (fun _ _ _ => tt).

Definition tokyo : ReverseResult :=
  mkReverseResult (Some (lit "Tokyo")) (Some (lit "Japan"))
    (Some (lit "Tokyo")) (Some (lit "Asia/Tokyo")) (Some #8336599)
    (Some #44).

Definition reverseOk : Fetched ReversePayload :=
  Replied true 200 (Some (mkReversePayload (Some [tokyo]))).

Definition weatherOk : Fetched WeatherPayload :=
  Replied true 200
    (Some (mkWeatherPayload
             (Some (mkCurrentWeather (Some #21) (Some #3) (Some #2)))
             (Some (mkHourly (Some [#1; #3]))))).

Definition topoOk : Fetched TopoPayload :=
  Replied true 200 (Some (mkTopoPayload (Some [Some #40]))).

Definition usgsOk : Fetched UsgsPayload :=
  Replied true 200 (Some (mkUsgsPayload (Some []))).

Definition tleOk : Fetched jsstring :=
  Replied true 200 (Some []).

End Upstream.

Export Upstream.

(** ** Proof automation *)

(** Decides one comparison of reals in the goal or a hypothesis, closing
    the branch that contradicts the context. *)
Ltac decide_real_step :=
  match goal with
  | |- context [Rlt_dec ?a ?b] => destruct (Rlt_dec a b); try (exfalso; lra)
  | |- context [Req_dec_T ?a ?b] =>
      destruct (Req_dec_T a b); try (exfalso; lra)
  | H : context [Rlt_dec ?a ?b] |- _ =>
      destruct (Rlt_dec a b); try (exfalso; lra)
  | H : context [Req_dec_T ?a ?b] |- _ =>
      destruct (Req_dec_T a b); try (exfalso; lra)
  end.

Ltac decide_reals := repeat decide_real_step.

Ltac js_unfold :=
  unfold geb, gtb, leb, min2, max2, sub, add, neg, mul, div, abs,
    strict_eq, ltb, scale_inf, signed_inf, truthy, isFinite, ofNat, ofZ in *.

(** Unfolds the operations on numbers and decides the comparisons of
    reals that are left. *)
Ltac js_crush :=
  js_unfold; simpl in *; decide_reals; simpl in *;
  try congruence; try lra; auto.

(** Evaluates a sort of points whose intensities are given. *)
Ltac sort_eval :=
  repeat (first [ progress (unfold comesAfter; simpl) | decide_real_step ]).

(** ** Vocabulary of the properties: feeds written line by line *)

Module Feeds.

(** The text made of the given lines, a line feed after each. *)
Definition feedOf (lines : list jsstring) : jsstring :=
  flat_map (fun line => line ++ [10%N]) lines.

(** A line as the parser keeps it: not empty, no blank at either end, no
    line feed inside. *)
Definition cleanLine (line : jsstring) : Prop :=
  line <> [] /\
  isWhiteSpace (hd 0%N line) = false /\
  isWhiteSpace (last line 0%N) = false /\
  ~ In 10%N line.

End Feeds.

Export Feeds.

(** ** Vocabulary of the properties: the answer of the location route *)

Module Answers.

Local Open Scope js_scope.

(** The HTTP status of an answer; [NextResponse.json(body)] answers 200. *)
Definition statusOf {Links : Type} (response : Response Links) : Z :=
  match response with
  | JsonOk _ => 200
  | JsonError status _ => status
  end.

(** Both coordinates are given, not empty, and parse to finite numbers. *)
Definition validRequest (parseFloat : jsstring -> number)
    (latParam lonParam : option jsstring) : bool :=
  match latParam, lonParam with
  | Some lat, Some lon =>
      nonEmpty lat && nonEmpty lon &&
      isFinite (parseFloat lat) && isFinite (parseFloat lon)
  | _, _ => false
  end.

(** An ok response whose body reads. *)
Definition readable {A : Type} (reply : Fetched A) : bool :=
  match reply with
  | Replied true _ (Some _) => true
  | _ => false
  end.

(** A response that is not ok, or an ok response whose body reads. *)
Definition degradable {A : Type} (reply : Fetched A) : bool :=
  match reply with
  | Rejected => false
  | Replied true _ None => false
  | Replied _ _ _ => true
  end.

(** The distance from the request point to the epicentre of a feature. *)
Definition featureDistance (latitude longitude : number) (feature : Feature)
  : number :=
  let '(eventLon, eventLat, _) := featureCoordinates feature in
  haversineDistance latitude longitude eventLat eventLon.

(** A feature whose time is truthy and is not one the date formats. *)
Definition timeFails (feature : Feature) : bool :=
  match featureTime feature with
  | Some time => truthy time && negb (validTime time)
  | None => false
  end.

(** A feature the map over the seismic feed throws on: it is not farther
    than the alert radius, and its time fails. *)
Definition timeThrows (latitude longitude : number) (feature : Feature)
  : bool :=
  negb (featureDistance latitude longitude feature >? ALERT_RADIUS_KM) &&
  timeFails feature.

(** No feature of the seismic feed makes the map over it throw. *)
Definition alertsFormat (latitude longitude : number)
    (usgsRes : Fetched UsgsPayload) : bool :=
  match andThen (payloadOf usgsRes) features with
  | Some fs => negb (existsb (timeThrows latitude longitude) fs)
  | None => true
  end.

(** The name of the links is one [encodeURIComponent] encodes. *)
Definition nameEncodes (nameParam : option jsstring)
    (reverseRes : Fetched ReversePayload) : bool :=
  wellFormed
    (encodedName
       (linkNameOf nameParam
          (andThen (andThen (payloadOf reverseRes) reverseResults)
             (@hd_error _)))).

End Answers.

Export Answers.

(** ** The globe data loaders: fetching the samples *)

Module Loaders.

Local Open Scope js_scope.

Record WeatherSample : Type := mkSample {
  sampleId : jsstring;
  sampleName : jsstring;
  sampleLatitude : number;
  sampleLongitude : number
}.

Definition WEATHER_SAMPLE_LOCATIONS : list WeatherSample :=
  [ mkSample (lit "nyc") (lit "New York") #40.7128 #(-74.006);
    mkSample (lit "lon") (lit "London") #51.5072 #(-0.1276);
    mkSample (lit "dub") (lit "Dubai") #25.276987 #55.296249;
    mkSample (lit "tok") (lit "Tokyo") #35.6762 #139.6503;
    mkSample (lit "syd") (lit "Sydney") #(-33.8688) #151.2093;
    mkSample (lit "nbo") (lit "Nairobi") #(-1.2864) #36.8172;
    mkSample (lit "osl") (lit "Oslo") #59.9139 #10.7522;
    mkSample (lit "scl") (lit "Santiago") #(-33.4489) #(-70.6693) ].

(** What [/api/weather] answers, as [fetchWeatherSample] reads it. *)
Record CurrentReadings : Type := mkCurrentReadings {
  crTemperature : option number;
  crWindspeed : option number;
  crWeathercode : option number
}.

Record HourlyReadings : Type := mkHourlyReadings {
  hrTemperature : option (list number);
  hrPrecipitation : option (list number);
  hrCloudcover : option (list number);
  hrWindspeed : option (list number)
}.

Record SamplePayload : Type := mkSamplePayload {
  spCurrent : option CurrentReadings;
  spHourly : option HourlyReadings
}.

(** [payload.hourly?.temperature?.length ? length - 1 : 0]. *)
Definition latestIndex (payload : SamplePayload) : nat :=
  match andThen (spHourly payload) hrTemperature with
  | Some temperatures =>
      if (0 <? List.length temperatures)%nat
      then (List.length temperatures - 1)%nat
      else 0%nat
  | None => 0%nat
  end.

(** [payload.hourly?.field?.[index]]. *)
Definition hourlyAt (payload : SamplePayload)
    (field : HourlyReadings -> option (list number)) (index : nat)
  : option number :=
  andThen (andThen (spHourly payload) field)
    (fun values => nth_error values index).

(** [reading ?? fallback]. *)
Definition valueOr (reading : option number) (fallback : number) : number :=
  match reading with
  | Some value => value
  | None => fallback
  end.

(** The object [fetchWeatherSample] returns for a payload. *)
Definition observationOf (sample : WeatherSample) (payload : SamplePayload)
  : WeatherObservation :=
  let latest := latestIndex payload in
  mkObservation (sampleId sample) (sampleName sample)
    (sampleLatitude sample) (sampleLongitude sample)
    (valueOr
       (orElse (andThen (spCurrent payload) crTemperature)
          (hourlyAt payload hrTemperature latest))
       #0)
    (valueOr (hourlyAt payload hrPrecipitation latest) #0)
    (valueOr (hourlyAt payload hrCloudcover latest) #0)
    (valueOr
       (orElse (hourlyAt payload hrWindspeed latest)
          (andThen (spCurrent payload) crWindspeed))
       #0).

(** [fetchWeatherSample]; [None] when its promise rejects: the fetch
    rejects, the response is not ok, or reading the body rejects. *)
Definition fetchWeatherSample (sample : WeatherSample)
    (reply : Fetched SamplePayload) : option WeatherObservation :=
  match reply with
  | Rejected => None
  | Replied ok _ body =>
      if negb ok then None
      else
        match body with
        | Some payload => Some (observationOf sample payload)
        | None => None
        end
  end.

(** The values of the settled promises that are fulfilled. *)
Definition fulfilledValues {A : Type} (results : list (option A)) : list A :=
  flat_map (fun result =>
              match result with
              | Some value => [value]
              | None => []
              end)
    results.

(** [fetchWeatherSamples], [replyTo] giving the outcome of the fetch made
    for each location. *)
Definition fetchWeatherSamples
    (replyTo : WeatherSample -> Fetched SamplePayload)
  : list WeatherObservation :=
  fulfilledValues
    (map (fun sample => fetchWeatherSample sample (replyTo sample))
       WEATHER_SAMPLE_LOCATIONS).

Record GlobeData : Type := mkGlobeData {
  gdHeatmapPoints : list HeatmapPoint;
  gdWeatherCells : list WeatherCell;
  gdRouteArcs : list RouteArc;
  gdTimeline : list TimelineEvent
}.

Section LoadGlobeData.

Variable now : Z.
Variable toISOString : Z -> jsstring.

Definition loadGlobeData (replyTo : WeatherSample -> Fetched SamplePayload)
  : GlobeData :=
  let observations := fetchWeatherSamples replyTo in
  let heatmapPoints := loadHeatmapData observations in
  let weatherCells := loadWeatherCells observations in
  let timeline := loadTimeline now toISOString weatherCells in
  let routeArcs := buildRouteArcs heatmapPoints in
  mkGlobeData heatmapPoints weatherCells routeArcs timeline.

End LoadGlobeData.

End Loaders.

Export Loaders.

(** ** The provider of the globe data *)

Module Provider.

Local Open Scope js_scope.

(** The updater the playback timer hands to [setTimelineIndex], for a
    timeline of [timelineLength] events. *)
Definition nextFrame (timelineLength : nat) (currentIndex : number)
  : number :=
  let nextIndex := currentIndex + #1 in
  if nextIndex >=? ofNat timelineLength then #0 else nextIndex.

Section GlobeDataProvider.

Variable SearchResult : Type.
Variable SavedTarget : Type.
Variable QueryTrail : Type.

(** What [hydrate] does to the store with the data it loaded. *)
Definition hydrate (data : GlobeData)
    (s : GlobeState SearchResult SavedTarget QueryTrail)
  : GlobeState SearchResult SavedTarget QueryTrail :=
  setTimelineIndex (Plain #0)
    (setTimeline (gdTimeline data)
       (setRouteArcs (gdRouteArcs data)
          (setWeatherCells (gdWeatherCells data)
             (setHeatmapPoints (gdHeatmapPoints data) s)))).

End GlobeDataProvider.

End Provider.

Export Provider.

(** ** More of [Math] and the operators *)

Module JSMath.

Local Open Scope R_scope.

(** [Math.floor]. *)
Definition floor (a : number) : number :=
  match a with
  | Fin x => Fin (IZR (Zfloor x))
  | other => other
  end.

(** The integer part of a real, towards zero. *)
Definition Rtrunc (x : R) : Z :=
  if Rlt_dec x 0 then (- Zfloor (- x))%Z else Zfloor x.

(** [a % b]: the remainder has the sign of the dividend. *)
Definition rem (a b : number) : number :=
  match a, b with
  | NaN, _ | _, NaN => NaN
  | (PosInf | NegInf), _ => NaN
  | Fin x, (PosInf | NegInf) => Fin x
  | Fin x, Fin y =>
      if Req_dec_T y 0 then NaN else Fin (x - y * IZR (Rtrunc (x / y)))
  end.

(** [2 ** n] for a natural number [n]. *)
Definition pow2 (n : nat) : number := Fin (2 ^ n).

End JSMath.

Export JSMath.

(** ** The control panel: the trail of a selection *)

Module ControlPanel.

Local Open Scope js_scope.

(** [distanceKm] in [handleResultSelect], from the current target to the
    result selected. *)
Definition trailDistance (targetLatitude targetLongitude latitude longitude
    : number) : number :=
  let dLat := toRadians (latitude - targetLatitude) in
  let dLon := toRadians (longitude - targetLongitude) in
  let a :=
    square (sin (dLat / #2)) +
    cos (toRadians targetLatitude) * cos (toRadians latitude) *
    square (sin (dLon / #2)) in
  let c := #2 * atan2 (sqrt a) (sqrt (#1 - a)) in
  #6371.0088 * c.

(** [bearing] in [handleResultSelect]. *)
Definition trailBearing (targetLatitude targetLongitude latitude longitude
    : number) : number :=
  let dLon := toRadians (longitude - targetLongitude) in
  let y := sin dLon * cos (toRadians latitude) in
  let x :=
    cos (toRadians targetLatitude) * sin (toRadians latitude) -
    sin (toRadians targetLatitude) * cos (toRadians latitude) * cos dLon in
  rem ((atan2 y x * #180) / #PI + #360) #360.

End ControlPanel.

Export ControlPanel.

(** ** The scene: points on the globe *)

Module Scene.

Local Open Scope js_scope.

Record Vector3 : Type := mkVector3 {
  vx : number;
  vy : number;
  vz : number
}.

(** [latLonToVector3] as the scene of [components/GlobeScene.tsx] defines
    it. *)
Definition latLonToVector3 (lat lon radius : number) : Vector3 :=
  let phi := (#90 - lat) * (#PI / #180) in
  let theta := (lon + #180) * (#PI / #180) in
  let x := neg (radius * sin phi * cos theta) in
  let z := radius * sin phi * sin theta in
  let y := radius * cos phi in
  mkVector3 x y z.

End Scene.

Export Scene.

(** ** The location route: the column of the imagery tile *)

Module Tiles.

Local Open Scope js_scope.

(** [x] in [buildNasaTileUrl], for a whole [zoom]. *)
Definition tileColumn (longitude : number) (zoom : nat) : number :=
  let tileCount := pow2 zoom in
  floor (((longitude + #180) / #360) * tileCount).

End Tiles.

Export Tiles.

(** ** The satellites route *)

Module Satellites.

Local Open Scope js_scope.

(** What a proxy route answers: [NextResponse.json(body)], or
    [NextResponse.json({ error }, { status })]. *)
Inductive Answer (A : Type) : Type :=
| Answered (body : A)
| Refused (status : Z) (error : jsstring).

Arguments Refused {A}.

(** [xs.slice(0, to)]. *)
Definition sliceTo {A : Type} (xs : list A) (to : number) : list A :=
  match to with
  | NaN => []
  | NegInf => []
  | PosInf => xs
  | Fin x =>
      let k := Rtrunc x in
      if (k <? 0)%Z then firstn (List.length xs - Z.to_nat (- k)) xs
      else firstn (Z.to_nat k) xs
  end.

(** A status [NextResponse.json] takes with a body: one from 200 to 599
    that is none of those that carry no body; with any other status the
    construction of the response throws. *)
Definition jsonStatus (status : Z) : bool :=
  (200 <=? status)%Z && (status <=? 599)%Z &&
  negb (existsb (Z.eqb status) [204; 205; 304]%Z).

(** [limit] in the handler. *)
Definition limitOf (limit : option jsstring) : number :=
  let limitParam :=
    match limit with
    | Some text => text
    | None => lit "25"
    end in
  let parsed := parseInt10 limitParam in
  max2 #1 (min2 (if truthy parsed then parsed else #25) #100).

(** The handler, for the outcome of its fetch of the catalogue; an answer
    that throws lands in the [catch], as a fetch that rejects does. *)
Definition satellitesGET {Sat : Type} (limit : option jsstring)
    (upstream : Fetched (list Sat)) : Answer (list Sat) :=
  match upstream with
  | Rejected =>
      Refused 502 (lit "Unable to reach satellite service right now.")
  | Replied ok status body =>
      if negb ok then
        if jsonStatus status then
          Refused status
            (lit "Satellite lookup failed (" ++ showZ status ++ lit ").")
        else
          Refused 502 (lit "Unable to reach satellite service right now.")
      else
        match body with
        | Some payload => Answered (sliceTo payload (limitOf limit))
        | None =>
            Refused 502 (lit "Unable to reach satellite service right now.")
        end
  end.

End Satellites.

Export Satellites.

(** ** The scene: the overlays *)

Module Overlays.

Local Open Scope js_scope.

(** [xs[index]] for a number [index]: an element only at a whole index
    inside the array. *)
Definition elementAt {A : Type} (xs : list A) (index : number) : option A :=
  match index with
  | Fin x =>
      let k := Zfloor x in
      if Req_dec_T x (IZR k) then
        if (k <? 0)%Z then None else nth_error xs (Z.to_nat k)
      else None
  | _ => None
  end.

(** [!xs.length]. *)
Definition isEmpty {A : Type} (xs : list A) : bool :=
  match xs with [] => true | _ :: _ => false end.

(** What the overlays hand to a mesh, its colour aside. *)
Record Mesh : Type := mkMesh {
  meshKey : jsstring;
  meshPosition : Vector3;
  meshSize : number;
  meshOpacity : number
}.

(** [segments] in [GeoFenceOverlay]. *)
Definition segments : nat := 48.

(** The values [i] takes in [for (i = 0; i <= segments; i += 1)]. *)
Definition segmentIndices : list nat := seq 0 (S segments).

Section Rendering.

Variable SearchResult : Type.
Variable SavedTarget : Type.
Variable QueryTrail : Type.

(** The overlays import [latLonToVector3] from [@/lib/globeMath], a module
    that is not among the sources: they are embedded for any function in
    its place. *)
Variable latLonToVector3 : number -> number -> number -> Vector3.

Variable radius : number.

(** [state.timeline[state.timelineIndex]?.overlayMultipliers.channel ?? 1]. *)
Definition timelineMultiplier (pick : OverlayMultipliers -> number)
    (s : GlobeState SearchResult SavedTarget QueryTrail) : number :=
  match elementAt (timeline s) (timelineIndex s) with
  | Some event => pick (overlayMultipliers event)
  | None => #1
  end.

(** [effectiveOpacity] of the overlay of [key]; the record of intensities
    holds a number for every key, so its [?? 1] never applies. *)
Definition effectiveOpacity (key : OverlayKey)
    (pick : OverlayMultipliers -> number)
    (s : GlobeState SearchResult SavedTarget QueryTrail) : number :=
  if overlays s key then overlayIntensity s key * timelineMultiplier pick s
  else #0.

(** The meshes of [HeatmapOverlay]. *)
Definition heatmapMeshes
    (s : GlobeState SearchResult SavedTarget QueryTrail) : list Mesh :=
  let points := heatmapPoints s in
  let opacity := effectiveOpacity KeyHeatmap heatmap s in
  if isEmpty points || (opacity <=? #0.01) then []
  else
    map (fun point =>
           let position :=
             latLonToVector3 (hpLatitude point) (hpLongitude point)
               (radius * #1.015) in
           let intensity := max2 #0.1 (min2 (intensity point) #1.5) in
           mkMesh (lit "heat-" ++ hpId point) position
             (#0.06 * intensity * opacity) (#0.6 * opacity))
      points.

(** The meshes of [WeatherOverlay]; the size is the scale along x and
    y. *)
Definition weatherMeshes
    (s : GlobeState SearchResult SavedTarget QueryTrail) : list Mesh :=
  let cells := weatherCells s in
  let opacity := effectiveOpacity KeyWeather GlobeData.weather s in
  if isEmpty cells || (opacity <=? #0.01) then []
  else
    map (fun cell =>
           let position :=
             latLonToVector3 (cellLatitude cell) (cellLongitude cell)
               (radius * #1.025) in
           let severity := max2 #0.2 (min2 (severity cell + #0.2) #1.8) in
           mkMesh (lit "weather-" ++ cellId cell) position
             (#0.25 * severity) (#0.22 * opacity))
      cells.

(** [latLine] and [lonLine] in [GeoFenceOverlay]. *)
Definition latLine (lat startLon endLon : number) : list Vector3 :=
  map (fun i =>
         let t := ofNat i / ofNat segments in
         let lon := startLon + (endLon - startLon) * t in
         latLonToVector3 lat lon (radius * #1.008))
    segmentIndices.

Definition lonLine (lon startLat endLat : number) : list Vector3 :=
  map (fun i =>
         let t := ofNat i / ofNat segments in
         let lat := startLat + (endLat - startLat) * t in
         latLonToVector3 lat lon (radius * #1.008))
    segmentIndices.

(** The edges [GeoFenceOverlay] draws for [south, north, west, east]. *)
Definition geofenceEdges (geofence : number * number * number * number)
  : list (list Vector3) :=
  let '(south, north, west, east) := geofence in
  [ latLine north west east;
    latLine south west east;
    lonLine west south north;
    lonLine east south north ].

End Rendering.

End Overlays.

Export Overlays.

(** ** The geocode route *)

Module Geocode.

Local Open Scope js_scope.

(** An item of the answer of the geocoder. *)
Record Place : Type := mkPlace {
  place_id : jsstring;
  display_name : jsstring;
  placeLat : jsstring;
  placeLon : jsstring;
  placeType : option jsstring;
  boundingbox : option (list jsstring);
  addressCountry : option jsstring;
  addressState : option jsstring;
  addressRegion : option jsstring
}.

Record SearchHit : Type := mkHit {
  hitId : jsstring;
  hitName : jsstring;
  hitDisplayName : jsstring;
  hitLatitude : number;
  hitLongitude : number;
  hitType : option jsstring;
  hitBoundingBox : option (list number);
  hitCountry : option jsstring;
  hitRegion : option jsstring
}.

(** [s.split(",")[0]]: what stands before the first comma. *)
Fixpoint beforeComma (s : jsstring) : jsstring :=
  match s with
  | [] => []
  | c :: rest => if (c =? 44)%N then [] else c :: beforeComma rest
  end.

(** [!query || query.trim().length < 3]. *)
Definition tooShort (query : option jsstring) : bool :=
  missing query ||
  match query with
  | Some text => (List.length (trim text) <? 3)%nat
  | None => true
  end.

Section Handler.

Variable parseFloat : jsstring -> number.

Definition hitOf (item : Place) : SearchHit :=
  mkHit (place_id item)
    (beforeComma (display_name item))
    (display_name item)
    (parseFloat (placeLat item))
    (parseFloat (placeLon item))
    (placeType item)
    (match boundingbox item with
     | Some box => Some (map parseFloat box)
     | None => None
     end)
    (addressCountry item)
    (orElse (addressState item) (addressRegion item)).

(** The handler, for the outcome of its fetch of the geocoder; an answer
    that throws lands in the [catch], as a fetch that rejects does. *)
Definition geocodeGET (query : option jsstring)
    (upstream : Fetched (list Place)) : Answer (list SearchHit) :=
  if tooShort query then
    Refused 400 (lit "Query must be at least 3 characters long.")
  else
    match upstream with
    | Rejected =>
        Refused 502 (lit "Unable to reach geocoding service right now.")
    | Replied ok status body =>
        if negb ok then
          if jsonStatus status then
            Refused status
              (lit "Geocode request failed (" ++ showZ status ++ lit ").")
          else
            Refused 502
              (lit "Unable to reach geocoding service right now.")
        else
          match body with
          | Some payload => Answered (map hitOf payload)
          | None =>
              Refused 502
                (lit "Unable to reach geocoding service right now.")
          end
    end.

End Handler.

End Geocode.

Export Geocode.

(* ================================================================== *)
(** * Part II: properties                                               *)
(* ================================================================== *)

(** ** Facts about numbers *)

Section NumberFacts.

Local Open Scope R_scope.

Lemma ltb_Fin (x y : R) : (#x <? #y)%js = true <-> x < y.
Proof. js_crush; split; intros; try lra; congruence. Qed.

Lemma leb_Fin (x y : R) : (#x <=? #y)%js = true <-> x <= y.
Proof. js_crush; split; intros; try lra; congruence. Qed.

Lemma geb_Fin (x y : R) : (#x >=? #y)%js = true <-> x >= y.
Proof. js_crush; split; intros; try lra; congruence. Qed.

Lemma geb_Fin_false (x y : R) : (#x >=? #y)%js = false <-> x < y.
Proof. js_crush; split; intros; try lra; congruence. Qed.

Lemma min2_Fin (x y : R) : min2 (Fin x) (Fin y) = Fin (Rmin x y).
Proof.
  unfold Rmin; destruct (Rle_dec x y); js_crush; f_equal; lra.
Qed.

Lemma max2_Fin (x y : R) : max2 (Fin x) (Fin y) = Fin (Rmax x y).
Proof.
  unfold Rmax; destruct (Rle_dec x y); js_crush; f_equal; lra.
Qed.

Lemma div_Fin (x y : R) : y <> 0 -> div (Fin x) (Fin y) = Fin (x / y).
Proof. intros Hy. unfold div. now destruct (Req_dec_T y 0). Qed.

(** On numbers other than NaN, [<=] is the negation of [>]. *)
Lemma leb_not_ltb (a b : number) :
  a <> NaN -> b <> NaN -> (a <=? b)%js = negb (b <? a)%js.
Proof. destruct a, b; intros; js_crush. Qed.

Lemma leb_refl (a : number) : a <> NaN -> (a <=? a)%js = true.
Proof. destruct a; intros; js_crush. Qed.

Lemma leb_trans (a b c : number) :
  (a <=? b)%js = true -> (b <=? c)%js = true -> (a <=? c)%js = true.
Proof. destruct a, b, c; intros; js_crush. Qed.


Lemma leb_not_NaN (a b : number) :
  (a <=? b)%js = true -> a <> NaN /\ b <> NaN.
Proof. destruct a, b; intros; js_crush; split; congruence. Qed.

Lemma ltb_not_NaN (a b : number) :
  (a <? b)%js = true -> a <> NaN /\ b <> NaN.
Proof. destruct a, b; intros; js_crush; split; congruence. Qed.

(** The sign of a difference, for the comparators of the sorts. *)
Lemma positive_difference (a b : number) :
  a <> NaN -> b <> NaN -> (#0 <? a - b)%js = (b <? a)%js.
Proof. destruct a, b; intros; js_crush. Qed.

End NumberFacts.

(** ** The weather classifier *)

Section Classifier.

Local Open Scope js_scope.

Lemma classifyWeather_cases (p w c : number) :
  (classifyWeather p w c = storm <->
     (p >=? #8) = true /\ (w >=? #12) = true) /\
  (classifyWeather p w c = rain <->
     ~ ((p >=? #8) = true /\ (w >=? #12) = true) /\ (p >=? #2) = true) /\
  (classifyWeather p w c = wind <->
     (p >=? #2) = false /\ (w >=? #12) = true) /\
  (classifyWeather p w c = cloudy <->
     (p >=? #2) = false /\ (w >=? #12) = false /\ (c >=? #45) = true) /\
  (classifyWeather p w c = clear <->
     (p >=? #2) = false /\ (w >=? #12) = false /\ (c >=? #45) = false).
Proof.
  assert (Hweaker : (p >=? #8) = true -> (p >=? #2) = true).
  { destruct p; intros; js_crush. }
  unfold classifyWeather, storm_precipitation, storm_wind,
    rain_precipitation, wind_wind, cloudy_cloudcover.
  destruct (p >=? #8) eqn:Hp8; destruct (w >=? #12) eqn:Hw;
    destruct (p >=? #2) eqn:Hp2; destruct (c >=? #45) eqn:Hc; simpl;
    try (specialize (Hweaker eq_refl); discriminate);
    repeat split; intros; try discriminate; try tauto;
    repeat match goal with H : _ /\ _ |- _ => destruct H end;
    try discriminate; try tauto;
    try (intros [? ?]; discriminate).
Qed.

Lemma clear_severity : min2 #1 (#5 / #20) = #0.25.
Proof. js_crush; f_equal; lra. Qed.

(** On finite samples the thresholds read as inequalities of reals. *)
Lemma classifyWeather_finite (p w c : R) :
  (classifyWeather #p #w #c = storm <-> (p >= 8 /\ w >= 12)%R) /\
  (classifyWeather #p #w #c = rain <-> (~ (p >= 8 /\ w >= 12) /\ p >= 2)%R) /\
  (classifyWeather #p #w #c = wind <-> (p < 2 /\ w >= 12)%R) /\
  (classifyWeather #p #w #c = cloudy <-> (p < 2 /\ w < 12 /\ c >= 45)%R) /\
  (classifyWeather #p #w #c = clear <-> (p < 2 /\ w < 12 /\ c < 45)%R).
Proof.
  pose proof (classifyWeather_cases #p #w #c) as H.
  rewrite !geb_Fin, !geb_Fin_false in H. exact H.
Qed.

(** On finite samples the severity is a minimum of reals. *)
Lemma severity_finite (id name : jsstring) (lat lon temp : number)
    (p w c : R) :
  severity (weatherCellOf (mkObservation id name lat lon temp #p #c #w)) =
  Fin match classifyWeather #p #w #c with
      | storm => Rmin 1 ((p + w * 0.4) / 20)
      | rain => Rmin 1 (p / 20)
      | wind => Rmin 1 (w / 20)
      | cloudy => Rmin 1 (c / 20)
      | clear => 0.25
      end.
Proof.
  unfold weatherCellOf.
  cbn [severity precipitation windspeed cloudcover].
  destruct (classifyWeather #p #w #c); cbn [severityBase precipitation
    windspeed cloudcover mul add];
    rewrite ?div_Fin by lra; rewrite ?min2_Fin; try reflexivity.
  f_equal. unfold Rmin. destruct (Rle_dec 1 (5 / 20)); lra.
Qed.

(** C5: the status follows the priority order storm, rain, wind, cloudy,
    clear with inclusive thresholds 8/12, 2, 12 and 45, and the severity is
    min(1, base/20) with the base of the status, 0.25 for clear; stated
    with the comparisons of JavaScript for every sample, and with the
    inequalities and the minimum of the reals for finite samples. *)
Theorem classifyWeather_priority_and_severity :
  forall cell : WeatherObservation,
    let p := precipitation cell in
    let w := windspeed cell in
    let c := cloudcover cell in
    let st := classifyWeather p w c in
    status (weatherCellOf cell) = st /\
    (st = storm <-> (p >=? #8) = true /\ (w >=? #12) = true) /\
    (st = rain <->
       ~ ((p >=? #8) = true /\ (w >=? #12) = true) /\ (p >=? #2) = true) /\
    (st = wind <-> (p >=? #2) = false /\ (w >=? #12) = true) /\
    (st = cloudy <->
       (p >=? #2) = false /\ (w >=? #12) = false /\ (c >=? #45) = true) /\
    (st = clear <->
       (p >=? #2) = false /\ (w >=? #12) = false /\ (c >=? #45) = false) /\
    severity (weatherCellOf cell) =
      match st with
      | storm => min2 #1 ((p + w * #0.4) / #20)
      | rain => min2 #1 (p / #20)
      | wind => min2 #1 (w / #20)
      | cloudy => min2 #1 (c / #20)
      | clear => #0.25
      end /\
    (forall cloud, classifyWeather #8 #12 cloud = storm) /\
    classifyWeather #10 #15 #0 = storm /\
    classifyWeather #0 #0 #0 = clear /\
    (forall x y z : R,
        (classifyWeather #x #y #z = storm <-> (x >= 8 /\ y >= 12)%R) /\
        (classifyWeather #x #y #z = rain <->
           (~ (x >= 8 /\ y >= 12) /\ x >= 2)%R) /\
        (classifyWeather #x #y #z = wind <-> (x < 2 /\ y >= 12)%R) /\
        (classifyWeather #x #y #z = cloudy <->
           (x < 2 /\ y < 12 /\ z >= 45)%R) /\
        (classifyWeather #x #y #z = clear <->
           (x < 2 /\ y < 12 /\ z < 45)%R) /\
        forall (id name : jsstring) (lat lon temp : number),
          severity
            (weatherCellOf (mkObservation id name lat lon temp #x #z #y)) =
          Fin match classifyWeather #x #y #z with
              | storm => Rmin 1 ((x + y * 0.4) / 20)
              | rain => Rmin 1 (x / 20)
              | wind => Rmin 1 (y / 20)
              | cloudy => Rmin 1 (z / 20)
              | clear => 0.25
              end).
Proof.
  intros cell p w c st.
  split; [reflexivity|].
  pose proof (classifyWeather_cases p w c) as (Hs & Hr & Hw & Hc & Hcl).
  repeat (split; [assumption|]).
  split.
  - unfold weatherCellOf; simpl. fold p w c st.
    destruct st; simpl; try reflexivity. apply clear_severity.
  - split; [|split; [|split]].
    + intros; unfold classifyWeather, storm_precipitation,
        storm_wind, rain_precipitation, wind_wind, cloudy_cloudcover;
        js_crush.
    + unfold classifyWeather, storm_precipitation,
        storm_wind, rain_precipitation, wind_wind, cloudy_cloudcover;
        js_crush.
    + unfold classifyWeather, storm_precipitation,
        storm_wind, rain_precipitation, wind_wind, cloudy_cloudcover;
        js_crush.
    + intros x y z.
      destruct (classifyWeather_finite x y z) as (H1 & H2 & H3 & H4 & H5).
      repeat (split; [assumption|]).
      intros. apply severity_finite.
Qed.

End Classifier.

(** ** Normalisation and the heatmap *)

Section Heatmap.

Local Open Scope js_scope.


(** Between finite bounds the result is a finite number: the division is
    never one by zero. *)
Lemma normalize_finite (value : number) (lo hi : R) :
  exists r : R, normalize value #lo #hi = #r.
Proof.
  unfold normalize.
  destruct value as [| |v|]; simpl; try (now exists 0%R).
  unfold strict_eq. destruct (Req_dec_T lo hi); simpl.
  - now exists 0%R.
  - exists ((v + - lo) / (hi + - lo))%R. js_crush.
Qed.




Lemma minOf_from_finite (xs : list number) :
  forall a : R,
    Forall (fun t => isFinite t = true) xs ->
    exists m : R,
      fold_left min2 xs (Fin a) = Fin m /\ (m <= a)%R /\
      (forall x : R, In (Fin x) xs -> (m <= x)%R).
Proof.
  induction xs as [|t rest IH]; intros a Hall.
  - exists a. simpl. repeat split; [lra|contradiction].
  - inversion Hall as [|? ? Ht Hrest]; subst.
    destruct t as [| |x|]; try discriminate.
    cbn [fold_left]. rewrite min2_Fin.
    destruct (IH (Rmin a x) Hrest) as (m & Hm & Hle & Hin).
    pose proof (Rmin_l a x). pose proof (Rmin_r a x).
    exists m. split; [exact Hm|]. split; [lra|].
    intros y [Hy|Hy]; [injection Hy as <-; lra|now apply Hin].
Qed.

Lemma maxOf_from_finite (xs : list number) :
  forall a : R,
    Forall (fun t => isFinite t = true) xs ->
    exists m : R,
      fold_left max2 xs (Fin a) = Fin m /\ (a <= m)%R /\
      (forall x : R, In (Fin x) xs -> (x <= m)%R).
Proof.
  induction xs as [|t rest IH]; intros a Hall.
  - exists a. simpl. repeat split; [lra|contradiction].
  - inversion Hall as [|? ? Ht Hrest]; subst.
    destruct t as [| |x|]; try discriminate.
    cbn [fold_left]. rewrite max2_Fin.
    destruct (IH (Rmax a x) Hrest) as (m & Hm & Hle & Hin).
    pose proof (Rmax_l a x). pose proof (Rmax_r a x).
    exists m. split; [exact Hm|]. split; [lra|].
    intros y [Hy|Hy]; [injection Hy as <-; lra|now apply Hin].
Qed.

(** The bounds of a batch of finite temperatures are finite and enclose
    every temperature of the batch. *)
Lemma batch_bounds (xs : list number) :
  xs <> [] ->
  Forall (fun t => isFinite t = true) xs ->
  exists lo hi : R,
    minOf xs = Fin lo /\ maxOf xs = Fin hi /\
    (forall x : R, In (Fin x) xs -> (lo <= x <= hi)%R).
Proof.
  destruct xs as [|t rest]; [congruence|]. intros _ Hall.
  inversion Hall as [|? ? Ht Hrest]; subst.
  destruct t as [| |x0|]; try discriminate.
  unfold minOf, maxOf. cbn [fold_left].
  assert (Hmin0 : min2 PosInf (Fin x0) = Fin x0) by js_crush.
  assert (Hmax0 : max2 NegInf (Fin x0) = Fin x0) by js_crush.
  rewrite Hmin0, Hmax0.
  destruct (minOf_from_finite x0 Hrest) as (lo & Hlo & Hlo0 & Hlo_in).
  destruct (maxOf_from_finite x0 Hrest) as (hi & Hhi & Hhi0 & Hhi_in).
  exists lo, hi. split; [exact Hlo|]. split; [exact Hhi|].
  intros x [Hx|Hx].
  - injection Hx as <-. lra.
  - split; [now apply Hlo_in|now apply Hhi_in].
Qed.




Lemma safeMagnitude_finite (a : number) :
  safeMagnitude a -> isFinite a = true.
Proof. now intros (x & -> & _). Qed.





End Heatmap.

(** ** The globe store: the timeline index *)

Section StoreInvariant.

Local Open Scope js_scope.

Variable SearchResult : Type.
Variable SearchPatch : Type.
Variable SavedTarget : Type.
Variable QueryTrail : Type.
Variable resultId : SearchResult -> jsstring.
Variable targetId : SavedTarget -> jsstring.
Variable patched : SearchResult -> SearchPatch -> SearchResult.
Variable merged : SavedTarget -> SavedTarget -> SavedTarget.

Local Abbreviation State := (GlobeState SearchResult SavedTarget QueryTrail).
Local Abbreviation Call :=
  (Store.Call SearchResult SearchPatch SavedTarget QueryTrail).
Local Abbreviation perform := (Store.perform resultId targetId patched merged).
Local Abbreviation run := (Store.run resultId targetId patched merged).

Lemma lastIndex_finite (events : list TimelineEvent) :
  exists r : R, lastIndex events = Fin r /\ (0 <= r)%R.
Proof.
  unfold lastIndex. set (n := INR (List.length events)).
  exists (Rmax (n + - 1) 0). split.
  - unfold ofNat, sub, neg, add. fold n. apply max2_Fin.
  - apply Rmax_r.
Qed.

Lemma clamp_in_range (next : number) (r : R) :
  next <> NaN -> (0 <= r)%R ->
  (#0 <=? max2 #0 (min2 next (Fin r))) = true /\
  (max2 #0 (min2 next (Fin r)) <=? Fin r) = true.
Proof. intros Hn Hr. destruct next; try congruence; js_crush. Qed.

Lemma reclamp_in_range (index : number) (r : R) :
  (#0 <=? index) = true -> (0 <= r)%R ->
  (#0 <=? min2 index (Fin r)) = true /\
  (min2 index (Fin r) <=? Fin r) = true.
Proof. intros Hi Hr. destruct index; js_crush. Qed.

Lemma setTimelineIndex_in_range (given : OrUpdater number) (s : State) :
  resolve given (timelineIndex s) <> NaN ->
  indexInRange (setTimelineIndex given s).
Proof.
  intros Hn. unfold indexInRange, setTimelineIndex; simpl.
  destruct (lastIndex_finite (timeline s)) as (r & -> & Hr).
  now apply clamp_in_range.
Qed.

Lemma setTimeline_in_range (events : list TimelineEvent) (s : State) :
  indexInRange s -> indexInRange (setTimeline events s).
Proof.
  intros [Hlow _]. unfold indexInRange, setTimeline; simpl.
  destruct (lastIndex_finite events) as (r & -> & Hr).
  now apply reclamp_in_range.
Qed.

Lemma perform_in_range (call : Call) (s : State) :
  indexInRange s -> asksNumber call s -> indexInRange (perform call s).
Proof.
  intros Hs Hask.
  destruct call; simpl;
    try exact Hs;
    try (now apply setTimelineIndex_in_range);
    try (now apply setTimeline_in_range).
Qed.

Lemma run_in_range (calls : list Call) :
  forall s : State,
    indexInRange s ->
    askNumbers resultId targetId patched merged calls s ->
    indexInRange (run calls s).
Proof.
  induction calls as [|call later IH]; intros s Hs Hask; [exact Hs|].
  destruct Hask as [Hcall Hlater]. unfold Store.run. cbn [fold_left].
  apply IH; [now apply perform_in_range|exact Hlater].
Qed.

(** C10, amended: the index is within [0, max(length - 1, 0)] at the
    start, and every call keeps it there as long as no call of
    [setTimelineIndex] asks for NaN, so it holds after every such sequence
    of calls: [setTimelineIndex] clamps every other
    number (also one an updater returns) into the range, [setTimeline]
    clamps the index to its new timeline. *)
Theorem timelineIndex_stays_in_range :
  indexInRange (initialState SearchResult SavedTarget QueryTrail) /\
  (forall (call : Call) (s : State),
      indexInRange s -> asksNumber call s -> indexInRange (perform call s)) /\
  (forall calls : list Call,
      askNumbers resultId targetId patched merged calls
        (initialState SearchResult SavedTarget QueryTrail) ->
      indexInRange
        (run calls (initialState SearchResult SavedTarget QueryTrail))) /\
  (forall (given : OrUpdater number) (s : State),
      resolve given (timelineIndex s) <> NaN ->
      indexInRange (setTimelineIndex given s)) /\
  (forall (events : list TimelineEvent) (s : State),
      indexInRange s ->
      indexInRange (setTimeline events s) /\
      timelineIndex (setTimeline events s) =
        min2 (timelineIndex s) (lastIndex events)).
Proof.
  assert (Hinit : indexInRange
                    (initialState SearchResult SavedTarget QueryTrail))
    by (unfold indexInRange, initialState, lastIndex; simpl; js_crush).
  split; [exact Hinit|]. split; [|split; [|split]].
  - exact perform_in_range.
  - intros calls. apply run_in_range. exact Hinit.
  - exact setTimelineIndex_in_range.
  - intros events s Hs. split; [now apply setTimeline_in_range|reflexivity].
Qed.

End StoreInvariant.

Section StoreExamples.

Local Open Scope js_scope.

(** The theorem at work on the store right after the timeline of
  [loadTimeline] was installed. *)
Lemma timelineIndex_stays_in_range_witness :
let start := initialState unit unit unit in
let loaded :=
  setTimeline
    (loadTimeline 0 (fun _ => []) []) start in
indexInRange loaded /\
indexInRange (setTimelineIndex (Plain #9) loaded) /\
indexInRange
  (Store.perform (fun _ : unit => []) (fun _ : unit => [])
     (fun (r : unit) (_ : unit) => r) (fun (a _ : unit) => a)
     (CallSetTimelineIndex unit unit unit unit
        (Updater (fun current => current + #1)))
     loaded).
Proof.
intros start loaded.
pose proof (@timelineIndex_stays_in_range unit unit unit unit
              (fun _ => []) (fun _ => []) (fun r _ => r) (fun a _ => a))
  as (Hinit & Hcall & _ & Hset & Htl).
assert (Hloaded : indexInRange loaded) by (apply Htl; exact Hinit).
split; [exact Hloaded|]. split.
- apply Hset. discriminate.
- apply Hcall; [exact Hloaded|]. unfold loaded, start. simpl.
  unfold lastIndex. simpl. js_crush.
Defined.

(** The claim as stated fails on NaN: [Math.min] and [Math.max] hand it
  through, so [setTimelineIndex(NaN)] stores NaN, which is in no range. *)
Lemma setTimelineIndex_stores_NaN :
let start := initialState unit unit unit in
indexInRange start /\
timelineIndex (setTimelineIndex (Plain NaN) start) = NaN /\
timelineIndex
  (setTimelineIndex (Updater (fun current => current / #0 * #0)) start)
  = NaN /\
~ indexInRange (setTimelineIndex (Plain NaN) start).
Proof.
intros start. split; [|split; [|split]].
- unfold indexInRange, start, initialState, lastIndex; simpl. js_crush.
- reflexivity.
- unfold start, initialState, setTimelineIndex, lastIndex; simpl. js_crush.
- intros [H _]. unfold start in H. simpl in H. discriminate.
Qed.

End StoreExamples.

(** ** The timeline *)

Section TimelineFacts.

Local Open Scope js_scope.

Variable now : Z.
Variable toISOString : Z -> jsstring.

Lemma sum_severity_bounds (cells : list WeatherCell) (acc : R) :
  Forall (fun cell => unitInterval (severity cell)) cells ->
  exists s : R,
    fold_left (fun a cell => a + severity cell) cells (Fin acc) = Fin s /\
    (acc <= s <= acc + INR (List.length cells))%R.
Proof.
  intros Hall. revert acc.
  induction Hall as [|cell rest (r & Hr & Hbounds) _ IH]; intros acc.
  - exists acc. simpl. split; [reflexivity|lra].
  - simpl fold_left. rewrite Hr. simpl add.
    destruct (IH (acc + r)%R) as (s & Hs & Hsb).
    exists s. split; [exact Hs|].
    change (List.length (cell :: rest)) with (S (List.length rest)).
    rewrite S_INR. lra.
Qed.

Lemma meanSeverity_unit (cells : list WeatherCell) :
  Forall (fun cell => unitInterval (severity cell)) cells ->
  unitInterval (meanSeverity cells).
Proof.
  intros Hall. unfold meanSeverity.
  destruct (sum_severity_bounds 0 Hall) as (s & -> & Hs).
  unfold ofNat. rewrite max2_Fin.
  set (n := INR (List.length cells)) in *.
  assert (Hn : (0 <= n)%R) by apply pos_INR.
  assert (Hd : (1 <= Rmax n 1)%R) by apply Rmax_r.
  assert (Hd' : (n <= Rmax n 1)%R) by apply Rmax_l.
  unfold div. destruct (Req_dec_T (Rmax n 1) 0) as [Hz|_]; [lra|].
  exists (s / Rmax n 1)%R. split; [reflexivity|].
  split.
  - apply Rmult_le_pos; [lra|]. left. apply Rinv_0_lt_compat. lra.
  - apply Rmult_le_reg_r with (r := Rmax n 1); [lra|].
    unfold Rdiv. rewrite Rmult_assoc, Rinv_l by lra. lra.
Qed.

Lemma ramp_unit (m c : R) (index : nat) :
  (0 <= m <= 1)%R -> (0 <= c)%R ->
  unitInterval (min2 #1 (Fin m + ofNat index * Fin c)).
Proof.
  intros Hm Hc. unfold ofNat. simpl mul. simpl add. rewrite min2_Fin.
  exists (Rmin 1 (m + INR index * c)). split; [reflexivity|].
  assert (0 <= INR index * c)%R
    by (apply Rmult_le_pos; [apply pos_INR|lra]).
  unfold Rmin. destruct (Rle_dec 1 (m + INR index * c)); lra.
Qed.

Lemma routes_unit (offset : Z) :
  unitInterval (max2 #0.4 (#1 - abs (ofZ offset) * #0.05)).
Proof.
  unfold ofZ. simpl abs. simpl mul. simpl sub. rewrite max2_Fin.
  exists (Rmax 0.4 (1 + - (Rabs (IZR offset) * 0.05))). split; [reflexivity|].
  pose proof (Rabs_pos (IZR offset)).
  unfold Rmax. destruct (Rle_dec 0.4 (1 + - (Rabs (IZR offset) * 0.05))); lra.
Qed.

Lemma loadTimeline_channels (cells : list WeatherCell) :
  let events := loadTimeline now toISOString cells in
  let mean := meanSeverity cells in
  map timestamp events =
    map (fun offset => toISOString (now + offset * 60 * 60 * 1000)%Z)
      [-6; -3; 0; 3; 6; 9]%Z /\
  channel heatmap events =
    map (fun index => min2 #1 (mean + ofNat index * #0.05)) (seq 0 6) /\
  channel weather events =
    map (fun index => min2 #1 (mean + ofNat index * #0.08)) (seq 0 6) /\
  channel routes events =
    map (fun offset => max2 #0.4 (#1 - abs (ofZ offset) * #0.05))
      [-6; -3; 0; 3; 6; 9]%Z.
Proof. repeat split. Qed.

(** C9, amended: six events at -6, -3, 0, 3, 6 and 9 hours from now; the
    heatmap and weather multipliers are min(1, mean severity + index *
    0.05) and min(1, mean severity + index * 0.08), the routes multiplier
    is max(0.4, 1 - |offset| * 0.05) whatever the severities; for
    severities in [0, 1] all of them lie in [0, 1], and equal severities
    give equal multipliers. *)
Theorem loadTimeline_six_events :
  forall cells : list WeatherCell,
    Forall (fun cell => unitInterval (severity cell)) cells ->
    let events := loadTimeline now toISOString cells in
    let mean := meanSeverity cells in
    List.length events = 6%nat /\
    map timestamp events =
      map (fun offset => toISOString (now + offset * 60 * 60 * 1000)%Z)
        [-6; -3; 0; 3; 6; 9]%Z /\
    channel heatmap events =
      map (fun index => min2 #1 (mean + ofNat index * #0.05)) (seq 0 6) /\
    channel weather events =
      map (fun index => min2 #1 (mean + ofNat index * #0.08)) (seq 0 6) /\
    channel routes events =
      map (fun offset => max2 #0.4 (#1 - abs (ofZ offset) * #0.05))
        [-6; -3; 0; 3; 6; 9]%Z /\
    Forall unitInterval (channel heatmap events) /\
    Forall unitInterval (channel weather events) /\
    Forall unitInterval (channel routes events) /\
    (forall cells' : list WeatherCell,
        map severity cells' = map severity cells ->
        map overlayMultipliers (loadTimeline now toISOString cells') =
        map overlayMultipliers events).
Proof.
  intros cells Hall events mean.
  destruct (loadTimeline_channels cells) as (Ht & Hh & Hw & Hr).
  fold events mean in Ht, Hh, Hw, Hr.
  split; [reflexivity|].
  repeat (split; [assumption|]).
  destruct (meanSeverity_unit Hall) as (m & Hm & Hmb). fold mean in Hm.
  split; [|split; [|split]].
  - rewrite Hh, Hm. apply Forall_forall. intros x Hx.
    apply in_map_iff in Hx as (index & <- & _). apply ramp_unit; lra.
  - rewrite Hw, Hm. apply Forall_forall. intros x Hx.
    apply in_map_iff in Hx as (index & <- & _). apply ramp_unit; lra.
  - rewrite Hr. apply Forall_forall. intros x Hx.
    apply in_map_iff in Hx as (offset & <- & _). apply routes_unit.
  - intros cells' Hsame.
    assert (Hmean : meanSeverity cells' = meanSeverity cells).
    { unfold meanSeverity.
      assert (Hlen : List.length cells' = List.length cells).
      { rewrite <- (length_map severity cells'), Hsame. apply length_map. }
      rewrite Hlen. f_equal.
      assert (Hfold : forall (l : list WeatherCell) acc,
                 fold_left (fun a cell => a + severity cell) l acc =
                 fold_left add (map severity l) acc).
      { induction l as [|c l IH]; intros acc; simpl; [reflexivity|apply IH]. }
      now rewrite !Hfold, Hsame. }
    unfold events, loadTimeline, hours. simpl.
    unfold timelineEventOf. simpl. rewrite Hmean. reflexivity.
Qed.

End TimelineFacts.
Section TimelineExamples.

Local Open Scope js_scope.

(** The theorem at work on one calm and one stormy cell. *)
Lemma loadTimeline_six_events_witness :
  List.length (loadTimeline 0 showZ [calmCell; stormCell]) = 6%nat /\
  Forall unitInterval
    (channel routes (loadTimeline 0 showZ [calmCell; stormCell])).
Proof.
  assert (Hall : Forall (fun cell => unitInterval (severity cell))
                   [calmCell; stormCell]).
  { repeat constructor.
    - exists 0.25%R. split; [reflexivity|lra].
    - exists 1%R. split; [reflexivity|lra]. }
  pose proof (@loadTimeline_six_events 0%Z showZ _ Hall) as H.
  cbv zeta in H.
  destruct H as (Hlen & _ & _ & _ & _ & _ & _ & Hroutes & _).
  split; [exact Hlen|exact Hroutes].
Defined.

(** The claim as stated fails for the routes channel: its multiplier is
    the same with no cell (mean severity 0) and with a single cell of
    severity 1, and at index 0 it is 0.7 where the mean severity plus an
    index-scaled ramp, clamped to [0, 1], is the mean itself. *)
Lemma routes_channel_ignores_severity :
  channel routes (loadTimeline 0 showZ []) =
    [#0.7; #0.85; #1; #0.85; #0.7; #0.55] /\
  channel routes (loadTimeline 0 showZ [stormCell]) =
    [#0.7; #0.85; #1; #0.85; #0.7; #0.55] /\
  meanSeverity [] = #0 /\
  meanSeverity [stormCell] = #1 /\
  (forall ramp : number,
      nth_error (channel routes (loadTimeline 0 showZ [])) 0 <>
      Some (clamp01 (meanSeverity [] + ofNat 0 * ramp))).
Proof.
  assert (Hroutes : forall cells,
             channel routes (loadTimeline 0 showZ cells) =
             [#0.7; #0.85; #1; #0.85; #0.7; #0.55]).
  { intros cells. unfold channel, loadTimeline, hours. simpl.
    unfold ofZ. simpl abs.
    rewrite !Rabs_left by lra. rewrite !Rabs_right by lra.
    simpl mul. simpl sub. simpl.
    decide_reals; try lra; repeat (f_equal; try lra). }
  assert (Hm0 : meanSeverity [] = #0).
  { unfold meanSeverity. simpl. js_crush; try (f_equal; lra). }
  assert (Hm1 : meanSeverity [stormCell] = #1).
  { unfold meanSeverity. simpl. js_crush; try (f_equal; lra). }
  split; [apply Hroutes|]. split; [apply Hroutes|].
  split; [exact Hm0|]. split; [exact Hm1|].
  intros ramp. rewrite Hroutes, Hm0. simpl nth_error.
  intros Heq. injection Heq as Heq. revert Heq.
  unfold clamp01. destruct ramp; js_crush; intros Heq;
    try discriminate; injection Heq; lra.
Qed.

End TimelineExamples.

(** ** The sort *)

Section SortFacts.

Variable A : Type.
Variable compare : A -> A -> number.

Lemma insertSorted_perm (x : A) (l : list A) :
  Permutation (insertSorted compare x l) (x :: l).
Proof.
  induction l as [|y rest IH]; simpl; [reflexivity|].
  destruct (comesAfter compare x y); [|reflexivity].
  rewrite IH. apply perm_swap.
Qed.

Lemma sortBy_perm (l : list A) : Permutation (sortBy compare l) l.
Proof.
  induction l as [|x rest IH]; simpl; [reflexivity|].
  rewrite insertSorted_perm. now constructor.
Qed.

Lemma sortBy_length (l : list A) :
  List.length (sortBy compare l) = List.length l.
Proof. apply Permutation_length, sortBy_perm. Qed.

(** An order the comparator decides on the elements that satisfy [P]. *)
Variable P : A -> Prop.
Variable le : A -> A -> Prop.
Hypothesis le_when_not_after :
  forall x y, P x -> P y -> comesAfter compare x y = false -> le x y.
Hypothesis le_when_after :
  forall x y, P x -> P y -> comesAfter compare x y = true -> le y x.
Hypothesis le_trans :
  forall x y z, P x -> P y -> P z -> le x y -> le y z -> le x z.

Lemma insertSorted_sorted (x : A) (l : list A) :
  P x -> Forall P l -> StronglySorted le l ->
  StronglySorted le (insertSorted compare x l).
Proof.
  intros Hx HP Hs. induction Hs as [|y rest Hs IH Hy]; simpl.
  - repeat constructor.
  - inversion HP as [|? ? HPy HPrest]; subst.
    destruct (comesAfter compare x y) eqn:Hcmp.
    + constructor; [now apply IH|].
      apply Forall_forall. intros z Hz.
      apply (Permutation_in _ (insertSorted_perm x rest)) in Hz.
      destruct Hz as [<-|Hz]; [now apply le_when_after|].
      rewrite Forall_forall in Hy. now apply Hy.
    + constructor; [now constructor|].
      assert (Hxy : le x y) by now apply le_when_not_after.
      constructor; [exact Hxy|].
      rewrite Forall_forall in Hy, HPrest. apply Forall_forall.
      intros z Hz. apply le_trans with (y := y); auto.
Qed.

Lemma sortBy_sorted (l : list A) :
  Forall P l -> StronglySorted le (sortBy compare l).
Proof.
  induction 1 as [|x rest Hx Hrest IH]; simpl; [constructor|].
  apply insertSorted_sorted; auto.
  apply Forall_forall. intros z Hz.
  apply (Permutation_in _ (sortBy_perm rest)) in Hz.
  rewrite Forall_forall in Hrest. now apply Hrest.
Qed.

End SortFacts.

Section SortedNumbers.

Local Open Scope js_scope.



End SortedNumbers.

(** ** Route arcs *)

Section RouteArcs.

Local Open Scope js_scope.

Lemma flat_map_singletons {X Y : Type} (f : X -> list Y) (g : X -> Y)
    (l : list X) :
  (forall x, In x l -> f x = [g x]) -> flat_map f l = map g l.
Proof.
  induction l as [|x rest IH]; intros H; simpl; [reflexivity|].
  rewrite (H x) by now left. simpl. f_equal.
  apply IH. intros y Hy. apply H. now right.
Qed.

Lemma byIntensity_sorted (points : list HeatmapPoint) :
  Forall (fun p => intensity p <> NaN) points ->
  StronglySorted descending (sortBy byIntensityDescending points).
Proof.
  apply sortBy_sorted; unfold comesAfter, byIntensityDescending, descending.
  - intros x y Hx Hy Hcmp. rewrite positive_difference in Hcmp by auto.
    rewrite leb_not_ltb by auto. now rewrite Hcmp.
  - intros x y Hx Hy Hcmp. rewrite positive_difference in Hcmp by auto.
    unfold leb. now rewrite Hcmp.
  - intros x y z _ _ _ Hxy Hyz. eapply leb_trans; eauto.
Qed.

Lemma arcAt_in_range (sorted : list HeatmapPoint) (d : HeatmapPoint)
    (index : nat) :
  (index < List.length sorted)%nat ->
  arcAt sorted index =
    [arcBetween (nth index sorted d)
       (nth ((index + 2) mod List.length sorted) sorted d)].
Proof.
  intros Hi. unfold arcAt.
  assert (Hj : ((index + 2) mod List.length sorted < List.length sorted)%nat)
    by (apply Nat.mod_upper_bound; lia).
  rewrite (nth_error_nth' sorted d Hi), (nth_error_nth' sorted d Hj).
  reflexivity.
Qed.

(** C2, amended: with at least two points, the points are sorted by
    descending intensity, the first six are kept, and there is one arc for
    each index but the last of the [n] kept points, from point [i] to point
    [(i + 2) mod n], of magnitude the mean of the two intensities. *)
Theorem buildRouteArcs_pairs :
  forall points : list HeatmapPoint,
    (2 <= List.length points)%nat ->
    let ordered := sortBy byIntensityDescending points in
    let sorted := firstn 6 ordered in
    let n := List.length sorted in
    Permutation ordered points /\
    (Forall (fun p => intensity p <> NaN) points ->
     StronglySorted descending ordered) /\
    n = Nat.min 6 (List.length points) /\
    List.length (buildRouteArcs points) = (n - 1)%nat /\
    (forall index : nat,
        (index < n - 1)%nat ->
        exists source target : HeatmapPoint,
          nth_error sorted index = Some source /\
          nth_error sorted ((index + 2) mod n) = Some target /\
          nth_error (buildRouteArcs points) index =
            Some (arcBetween source target) /\
          magnitude (arcBetween source target) =
            (intensity source + intensity target) / #2).
Proof.
  intros points Hlen ordered sorted n.
  assert (Hn : n = Nat.min 6 (List.length points)).
  { unfold n, sorted, ordered. rewrite length_firstn, sortBy_length.
    reflexivity. }
  assert (Hn2 : (2 <= n)%nat) by lia.
  assert (Hbuild : forall d,
             buildRouteArcs points =
             map (fun index =>
                    arcBetween (nth index sorted d)
                      (nth ((index + 2) mod n) sorted d))
               (seq 0 (n - 1))).
  { intros d. unfold buildRouteArcs.
    destruct (List.length points <? 2)%nat eqn:Hlt;
      [apply Nat.ltb_lt in Hlt; lia|].
    fold ordered. fold sorted. fold n.
    apply flat_map_singletons. intros index Hin.
    apply in_seq in Hin. apply arcAt_in_range. fold n. lia. }
  split; [apply sortBy_perm|].
  split; [apply byIntensity_sorted|].
  split; [exact Hn|].
  pose (d := mkHeatmapPoint [] [] NaN NaN NaN None).
  split.
  - rewrite (Hbuild d), length_map, length_seq. reflexivity.
  - intros index Hi.
    exists (nth index sorted d), (nth ((index + 2) mod n) sorted d).
    assert (Hj : ((index + 2) mod n < n)%nat)
      by (apply Nat.mod_upper_bound; lia).
    repeat split.
    + apply nth_error_nth'. fold n. lia.
    + apply nth_error_nth'. exact Hj.
    + rewrite (Hbuild d).
      rewrite (nth_error_map _ index (seq 0 (n - 1))).
      rewrite nth_error_seq.
      destruct (index <? n - 1)%nat eqn:Hlt;
        [reflexivity|apply Nat.ltb_ge in Hlt; lia].
Qed.

End RouteArcs.

Section RouteArcExamples.

Local Open Scope js_scope.

(** The theorem at work on the six points: five arcs. *)
Lemma buildRouteArcs_pairs_witness :
  Permutation (sortBy byIntensityDescending sixPoints) sixPoints /\
  List.length (buildRouteArcs sixPoints) = 5%nat.
Proof.
  assert (Hlen : (2 <= List.length sixPoints)%nat) by (simpl; lia).
  pose proof (buildRouteArcs_pairs sixPoints Hlen) as H. cbv zeta in H.
  destruct H as (Hperm & _ & Hn & Harcs & _).
  split; [exact Hperm|].
  rewrite Harcs, Hn. reflexivity.
Defined.

(** The six points in their sorted order are a, c, e, b, d, f, and the
    arcs pair the indices 0-2, 1-3, 2-4, 3-5 and 4-0: the last index, 5,
    starts no arc, so there is no arc from f to c.  With three points the
    second index wraps around 3, not 6. *)
Lemma buildRouteArcs_leaves_last_index_out :
  map hpId (firstn 6 (sortBy byIntensityDescending sixPoints)) =
    map lit ["a"; "c"; "e"; "b"; "d"; "f"]%string /\
  map arcId (buildRouteArcs sixPoints) =
    map lit ["a-e"; "c-b"; "e-d"; "b-f"; "d-a"]%string /\
  List.length (buildRouteArcs sixPoints) = 5%nat /\
  ~ In (lit "f-c") (map arcId (buildRouteArcs sixPoints)) /\
  map arcId (buildRouteArcs threePoints) = map lit ["x-z"; "y-x"]%string.
Proof.
  assert (Hsix : map arcId (buildRouteArcs sixPoints) =
                 map lit ["a-e"; "c-b"; "e-d"; "b-f"; "d-a"]%string).
  { unfold buildRouteArcs, sixPoints, sortBy. simpl. sort_eval.
    reflexivity. }
  split; [|split; [exact Hsix|split; [|split]]].
  - unfold sixPoints, sortBy. simpl. sort_eval. reflexivity.
  - rewrite <- (length_map arcId), Hsix. reflexivity.
  - rewrite Hsix. simpl. intros H.
    repeat (destruct H as [H|H]; [discriminate H|]). exact H.
  - unfold buildRouteArcs, threePoints, sortBy. simpl. sort_eval.
    reflexivity.
Qed.

End RouteArcExamples.

(** ** The TLE parser *)

Section TleParser.

Lemma scanWindows_aligned (windows : list Window) :
  forall (sets : list TleSet) (trailing : list jsstring),
    forallb wellFormedWindow windows = true ->
    (List.length trailing < 3)%nat ->
    (List.length sets < SATELLITE_SAMPLE_COUNT)%nat ->
    scanWindows (flat_map windowLines windows ++ trailing) sets =
    firstn SATELLITE_SAMPLE_COUNT (sets ++ tripletsOf windows).
Proof.
  assert (Hcount : SATELLITE_SAMPLE_COUNT = 6%nat) by reflexivity.
  induction windows as [|w rest IH]; intros sets trailing Hwf Htr Hsets.
  - cbn [flat_map tripletsOf app]. rewrite app_nil_r, firstn_all2 by lia.
    destruct trailing as [|a [|b [|c t]]]; simpl in Htr; try reflexivity; lia.
  - cbn [forallb] in Hwf. apply andb_true_iff in Hwf as [Hw Hrest].
    destruct w as [[nm l1 l2]|g1 g2 g3];
      cbn [wellFormedWindow name line1 line2] in Hw;
      cbn [flat_map windowLines tripletsOf app scanWindows name line1 line2].
    + rewrite Hw. set (record := mkTle nm l1 l2).
      destruct (SATELLITE_SAMPLE_COUNT <=? List.length (sets ++ [record]))%nat
        eqn:Hfull.
      * apply Nat.leb_le in Hfull. rewrite length_app in Hfull.
        cbn [List.length] in Hfull.
        replace (sets ++ record :: tripletsOf rest)
          with ((sets ++ [record]) ++ tripletsOf rest)
          by (symmetry; apply (app_assoc sets [record])).
        rewrite firstn_app.
        replace (SATELLITE_SAMPLE_COUNT - List.length (sets ++ [record]))%nat
          with 0%nat by (rewrite length_app; cbn [List.length]; lia).
        rewrite firstn_all2 by (rewrite length_app; cbn [List.length]; lia).
        cbn [firstn]. now rewrite app_nil_r.
      * apply Nat.leb_gt in Hfull.
        rewrite (IH (sets ++ [record]) trailing Hrest Htr Hfull).
        f_equal. symmetry. apply (app_assoc sets [record]).
    + apply negb_true_iff in Hw. rewrite Hw.
      destruct (SATELLITE_SAMPLE_COUNT <=? List.length sets)%nat eqn:Hfull;
        [apply Nat.leb_le in Hfull; lia|].
      now apply IH.
Qed.

Lemma parseTleSets_windows (tleText : jsstring) (windows : list Window)
    (trailing : list jsstring) :
  tleLines tleText = flat_map windowLines windows ++ trailing ->
  forallb wellFormedWindow windows = true ->
  (List.length trailing < 3)%nat ->
  parseTleSets tleText = firstn SATELLITE_SAMPLE_COUNT (tripletsOf windows).
Proof.
  intros Hlines Hwf Htr. unfold parseTleSets. rewrite Hlines.
  rewrite scanWindows_aligned; auto.
  unfold SATELLITE_SAMPLE_COUNT. cbn [List.length]. lia.
Qed.

(** C3, amended: when the trimmed, non-empty lines of the text are
    consecutive windows of three lines, each one a well-formed triplet or
    three lines that are no triplet, followed by at most two more lines,
    the parser returns the first six of the triplets in their order, each
    with its name, line 1 and line 2 as trimmed: exactly N records for
    N <= 6 triplets, and 6 beyond. *)
Theorem parseTleSets_aligned_windows :
  forall (tleText : jsstring) (windows : list Window)
         (trailing : list jsstring),
    tleLines tleText = flat_map windowLines windows ++ trailing ->
    forallb wellFormedWindow windows = true ->
    (List.length trailing < 3)%nat ->
    parseTleSets tleText =
      firstn SATELLITE_SAMPLE_COUNT (tripletsOf windows) /\
    List.length (parseTleSets tleText) =
      Nat.min 6 (List.length (tripletsOf windows)) /\
    ((List.length (tripletsOf windows) <= 6)%nat ->
     parseTleSets tleText = tripletsOf windows).
Proof.
  intros tleText windows trailing Hlines Hwf Htr.
  pose proof (parseTleSets_windows _ _ _ Hlines Hwf Htr) as Hparse.
  split; [exact Hparse|]. split.
  - rewrite Hparse. apply length_firstn.
  - intros Hfew. rewrite Hparse. now apply firstn_all2.
Qed.

(** The theorem at work: a feed with a blank line, a header window of
    three lines and one triplet, in CRLF, with blanks around the lines. *)
Lemma parseTleSets_aligned_windows_witness :
  parseTleSets
    (textOf ([ ""; "# visual"; "# objects"; "# 2024 "]%string) ++
     lit "  ISS (ZARYA)  " ++ [13; 10]%N ++
     textOf (tl issLines)) =
  [issRecord].
Proof.
  refine (proj1 (@parseTleSets_aligned_windows _
            [Garbage (lit "# visual") (lit "# objects") (lit "# 2024");
             Triplet issRecord] [] _ _ _)).
  - vm_compute. reflexivity.
  - vm_compute. reflexivity.
  - simpl. lia.
Defined.

(** The claim as stated fails: one garbage line ahead of a triplet shifts
    the windows, and the triplet is lost; seven triplets give six
    records. *)
Lemma parseTleSets_loses_shifted_triplet :
  parseTleSets (textOf ("visual objects"%string :: issLines)) = [] /\
  parseTleSets
    (textOf (issLines ++ issLines ++ issLines ++ issLines ++
             issLines ++ issLines ++ issLines)) =
    [issRecord; issRecord; issRecord; issRecord; issRecord; issRecord].
Proof. split; vm_compute; reflexivity. Qed.

End TleParser.

(** ** The TLE parser on a feed written line by line *)

Section TleFeeds.

Lemma trimStart_clean (line : jsstring) :
  isWhiteSpace (hd 0%N line) = false -> trimStart line = line.
Proof. destruct line as [|c rest]; simpl; [reflexivity|]. now intros ->. Qed.

Lemma hd_rev_last (line : jsstring) : hd 0%N (rev line) = last line 0%N.
Proof.
  induction line as [|c rest IH] using rev_ind; [reflexivity|].
  now rewrite rev_app_distr, last_last.
Qed.

Lemma trim_clean (line : jsstring) : cleanLine line -> trim line = line.
Proof.
  intros (_ & Hhead & Hlast & _). unfold trim, trimEnd.
  rewrite (trimStart_clean _ Hhead).
  rewrite trimStart_clean by (now rewrite hd_rev_last).
  apply rev_involutive.
Qed.

(** A line without line feed that does not end in a carriage return is
    split off whole at the line feed that follows it. *)
Lemma splitLines_line (line rest : jsstring) :
  ~ In 10%N line -> last line 0%N <> 13%N ->
  splitLines (line ++ 10%N :: rest) = line :: splitLines rest.
Proof.
  induction line as [|c line' IH]; intros Hlf Hcr.
  - simpl. reflexivity.
  - assert (Hc : (c =? 10)%N = false).
    { apply N.eqb_neq. intros ->. apply Hlf. now left. }
    assert (Hlf' : ~ In 10%N line') by (intros H; apply Hlf; now right).
    cbn [app splitLines]. rewrite Hc.
    destruct line' as [|c' line''].
    + simpl in Hcr. apply N.eqb_neq in Hcr.
      cbn [app startsWithLF]. rewrite Hcr. cbn [andb].
      cbn [splitLines]. rewrite N.eqb_refl. reflexivity.
    + assert (Hc' : (c' =? 10)%N = false).
      { apply N.eqb_neq. intros ->. apply Hlf'. now left. }
      cbn [app startsWithLF]. rewrite Hc', andb_false_r.
      change (c' :: line'' ++ 10%N :: rest)
        with ((c' :: line'') ++ 10%N :: rest).
      rewrite IH; [reflexivity|exact Hlf'|exact Hcr].
Qed.

Lemma splitLines_feedOf (lines : list jsstring) :
  Forall cleanLine lines -> splitLines (feedOf lines) = lines ++ [[]].
Proof.
  induction 1 as [|line rest (_ & _ & Hlast & Hlf) _ IH]; [reflexivity|].
  change (feedOf (line :: rest)) with ((line ++ [10%N]) ++ feedOf rest).
  rewrite <- app_assoc. cbn [app].
  rewrite splitLines_line; [now rewrite IH|exact Hlf|].
  intros Hcr. rewrite Hcr in Hlast. discriminate.
Qed.

Lemma tleLines_feedOf (lines : list jsstring) :
  Forall cleanLine lines -> tleLines (feedOf lines) = lines.
Proof.
  intros Hclean. unfold tleLines. rewrite (splitLines_feedOf Hclean).
  rewrite map_app, filter_app. cbn. rewrite app_nil_r.
  induction Hclean as [|line rest Hline _ IH]; [reflexivity|].
  cbn [map filter]. rewrite (trim_clean Hline).
  destruct Hline as (Hne & _). destruct line; [congruence|].
  cbn [nonEmpty]. now rewrite IH.
Qed.

(** The amended C3 on a feed that is written out: windows of clean lines,
    a line feed after each line. *)
Lemma parseTleSets_of_feed (windows : list Window) (trailing : list jsstring) :
  Forall cleanLine (flat_map windowLines windows ++ trailing) ->
  forallb wellFormedWindow windows = true ->
  (List.length trailing < 3)%nat ->
  parseTleSets (feedOf (flat_map windowLines windows ++ trailing)) =
  firstn SATELLITE_SAMPLE_COUNT (tripletsOf windows).
Proof.
  intros Hclean Hwf Htrailing.
  apply (parseTleSets_windows _ windows trailing); auto.
  now apply tleLines_feedOf.
Qed.

End TleFeeds.

(** ** The haversine distance *)

Section Haversine.

Local Open Scope js_scope.

Lemma haversineDistance_finite (lat1 lon1 lat2 lon2 : R) :
  let a := Rhaversine lat1 lon1 lat2 lon2 in
  (0 <= a <= 1)%R ->
  haversineDistance #lat1 #lon1 #lat2 #lon2 =
  Fin (6371.0088 * (2 * Ratan2 (R_sqrt.sqrt a) (R_sqrt.sqrt (1 + - a)))).
Proof.
  intros a Ha. unfold haversineDistance, toRadians, EARTH_MEAN_RADIUS_KM.
  unfold square.
  repeat (cbn [sub neg add mul JSNumber.sin JSNumber.cos];
          rewrite ?div_Fin by lra).
  fold (Rhaversine lat1 lon1 lat2 lon2). fold a.
  unfold JSNumber.sqrt.
  destruct (Rlt_dec a 0) as [Hneg|_]; [lra|].
  destruct (Rlt_dec (1 + - a) 0) as [Hneg|_]; [lra|].
  reflexivity.
Qed.

Lemma mul_comm (a b : number) : a * b = b * a.
Proof. destruct a, b; simpl; try reflexivity. f_equal. lra. Qed.

Lemma half_angle_square (a b : number) :
  square (sin (toRadians (a - b) / #2)) =
  square (sin (toRadians (b - a) / #2)).
Proof.
  pose proof PI_RGT_0 as Hpi.
  destruct a as [| |x|], b as [| |y|];
    unfold toRadians, square; cbn [sub neg add mul];
    try reflexivity;
    unfold div, scale_inf;
    repeat match goal with
      | |- context [Req_dec_T ?u ?v] =>
          destruct (Req_dec_T u v); try (exfalso; lra)
      | |- context [Rlt_dec ?u ?v] =>
          destruct (Rlt_dec u v); try (exfalso; lra)
      end;
    cbn; try reflexivity.
  f_equal.
  replace ((y + - x) * PI / 180 / 2)%R
    with (- ((x + - y) * PI / 180 / 2))%R by lra.
  rewrite sin_neg. lra.
Qed.

Lemma haversineDistance_sym (lat1 lon1 lat2 lon2 : number) :
  haversineDistance lat1 lon1 lat2 lon2 =
  haversineDistance lat2 lon2 lat1 lon1.
Proof.
  unfold haversineDistance.
  rewrite (half_angle_square lat2 lat1), (half_angle_square lon2 lon1).
  rewrite (mul_comm (cos (toRadians lat1)) (cos (toRadians lat2))).
  reflexivity.
Qed.

Lemma haversineDistance_same (lat lon : R) :
  haversineDistance #lat #lon #lat #lon = #0.
Proof.
  assert (Ha : Rhaversine lat lon lat lon = 0%R).
  { unfold Rhaversine.
    replace ((lat + - lat) * PI / 180 / 2)%R with 0%R by lra.
    replace ((lon + - lon) * PI / 180 / 2)%R with 0%R by lra.
    rewrite sin_0. lra. }
  rewrite haversineDistance_finite by (rewrite Ha; lra).
  rewrite Ha. f_equal.
  replace (1 + - 0)%R with 1%R by lra. rewrite sqrt_0, sqrt_1.
  unfold Ratan2. destruct (Rlt_dec 0 1) as [_|H]; [|lra].
  replace (0 / 1)%R with 0%R by lra. rewrite atan_0. lra.
Qed.

(** Along the equator, from longitude 0 to [degrees] short of the
    antipode, the distance is the radius times the angle in radians. *)
Lemma haversineDistance_equator (degrees : R) :
  (0 <= degrees < 180)%R ->
  haversineDistance #0 #0 #0 #degrees =
  Fin (6371.0088 * (degrees * PI / 180)).
Proof.
  intros Hd. pose proof PI_RGT_0 as Hpi.
  set (half := (degrees * PI / 180 / 2)%R).
  assert (Hhalf : (0 <= half < PI / 2)%R).
  { unfold half. split.
    - apply Rmult_le_pos; [|lra].
      apply Rmult_le_pos; [|lra]. apply Rmult_le_pos; lra.
    - replace (PI / 2)%R with (180 * PI / 180 / 2)%R by lra.
      apply Rmult_lt_compat_r; [lra|].
      apply Rmult_lt_compat_r; [lra|].
      apply Rmult_lt_compat_r; lra. }
  assert (Hcos : (0 < Rtrigo_def.cos half)%R)
    by (apply cos_gt_0; lra).
  assert (Hsin : (0 <= Rtrigo_def.sin half)%R)
    by (apply sin_ge_0; lra).
  assert (Ha : Rhaversine 0 0 0 degrees =
               (Rtrigo_def.sin half * Rtrigo_def.sin half)%R).
  { unfold Rhaversine.
    replace ((0 + - 0) * PI / 180 / 2)%R with 0%R by lra.
    replace (0 * PI / 180)%R with 0%R by lra.
    replace ((degrees + - 0) * PI / 180 / 2)%R with half
      by (unfold half; lra).
    rewrite sin_0, cos_0. lra. }
  pose proof (sin2_cos2 half) as Hone. unfold Rsqr in Hone.
  rewrite haversineDistance_finite by (rewrite Ha; nra).
  rewrite Ha. f_equal.
  replace (1 + - (Rtrigo_def.sin half * Rtrigo_def.sin half))%R
    with (Rtrigo_def.cos half * Rtrigo_def.cos half)%R by lra.
  rewrite !sqrt_square by lra.
  unfold Ratan2. destruct (Rlt_dec 0 (Rtrigo_def.cos half)) as [_|H]; [|lra].
  change (Rtrigo_def.sin half / Rtrigo_def.cos half)%R with (tan half).
  rewrite atan_tan by lra. unfold half. lra.
Qed.

Lemma haversineDistance_half_turn :
  haversineDistance #0 #0 #0 #180 = Fin (PI * 6371.0088).
Proof.
  assert (Ha : Rhaversine 0 0 0 180 = 1%R).
  { unfold Rhaversine.
    replace ((0 + - 0) * PI / 180 / 2)%R with 0%R by lra.
    replace (0 * PI / 180)%R with 0%R by lra.
    replace ((180 + - 0) * PI / 180 / 2)%R with (PI / 2)%R by lra.
    rewrite sin_0, cos_0, sin_PI2. lra. }
  rewrite haversineDistance_finite by (rewrite Ha; lra).
  rewrite Ha. apply (f_equal Fin).
  replace (1 + - (1))%R with 0%R by lra. rewrite sqrt_0, sqrt_1.
  unfold Ratan2.
  destruct (Rlt_dec 0 0) as [H|_]; [lra|].
  destruct (Rlt_dec 0 1) as [_|H]; [|lra]. lra.
Qed.

(** C8: the haversine distance is symmetric, it is 0 from a point (of
    finite coordinates) to itself, and from (0, 0) to (0, 180) it is pi
    times 6371.0088 km, within 1 km. *)
Theorem haversineDistance_symmetric_zero_half_turn :
  (forall lat1 lon1 lat2 lon2 : number,
      haversineDistance lat1 lon1 lat2 lon2 =
      haversineDistance lat2 lon2 lat1 lon1) /\
  (forall lat lon : R, haversineDistance #lat #lon #lat #lon = #0) /\
  (exists d : R,
      haversineDistance #0 #0 #0 #180 = Fin d /\
      d = (PI * 6371.0088)%R /\
      (Rabs (d - PI * 6371.0088) <= 1)%R).
Proof.
  split; [exact haversineDistance_sym|].
  split; [exact haversineDistance_same|].
  exists (PI * 6371.0088)%R.
  split; [exact haversineDistance_half_turn|].
  split; [reflexivity|].
  replace (PI * 6371.0088 - PI * 6371.0088)%R with 0%R by lra.
  rewrite Rabs_R0. lra.
Qed.

End Haversine.

(** ** Satellite passes: the sampling loop *)

Section OrbitFacts.

Local Open Scope js_scope.

Variable Satrec : Type.
Variable Position : Type.
Variable twoline2satrec : jsstring -> jsstring -> option Satrec.
Variable propagate : Satrec -> Z -> option Position.
Variable gstime : Z -> number.
Variable eciToGeodetic : Position -> number -> Geodetic.
Variable degreesLat : number -> option number.
Variable degreesLong : number -> option number.
Variable toISOString : Z -> jsstring.
Variable now : Z.
Variables latitude longitude : number.

Local Abbreviation sampleRound' :=
  (sampleRound propagate gstime eciToGeodetic degreesLat degreesLong now
     latitude longitude).
Local Abbreviation sampleLoop' :=
  (sampleLoop propagate gstime eciToGeodetic degreesLat degreesLong now
     latitude longitude).
Local Abbreviation sampledDistance' :=
  (sampledDistance propagate gstime eciToGeodetic degreesLat degreesLong now
     latitude longitude).
Local Abbreviation tryTle' :=
  (tryTle twoline2satrec propagate gstime eciToGeodetic degreesLat
     degreesLong toISOString now latitude longitude).
Local Abbreviation collectPasses' :=
  (collectPasses twoline2satrec propagate gstime eciToGeodetic degreesLat
     degreesLong toISOString now latitude longitude).
Local Abbreviation computeSatellitePasses' :=
  (computeSatellitePasses twoline2satrec propagate gstime eciToGeodetic
     degreesLat degreesLong toISOString now latitude longitude).

Lemma sampleSteps_minutes :
  sampleSteps = map (fun k => (Z.of_nat k * 60)%Z) (seq 0 121).
Proof. vm_compute. reflexivity. Qed.

(** The loop samples every full minute of the two hours ahead. *)
Lemma sampleSteps_spec (step : Z) :
  In step sampleSteps <->
  (0 <= step <= 7200 /\ step mod 60 = 0)%Z.
Proof.
  rewrite sampleSteps_minutes, in_map_iff. split.
  - intros (k & <- & Hk). apply in_seq in Hk. split; [lia|].
    apply Z.mod_mul. lia.
  - intros [Hrange Hmod]. exists (Z.to_nat (step / 60)). split.
    + rewrite Z2Nat.id by (apply Z.div_pos; lia).
      pose proof (Z.div_mod step 60). lia.
    + apply in_seq.
      assert (step / 60 <= 120)%Z by (apply Z.div_le_upper_bound; lia).
      assert (0 <= step / 60)%Z by (apply Z.div_pos; lia). lia.
Qed.

(** X1: the sampling loop takes exactly the steps 0, 60, ..., 7200
    seconds, 121 of them. *)
Theorem sampling_every_minute_for_two_hours :
  List.length sampleSteps = 121%nat /\
  (forall step : Z,
      In step sampleSteps <-> (0 <= step <= 7200 /\ step mod 60 = 0)%Z).
Proof.
  split; [vm_compute; reflexivity|exact sampleSteps_spec].
Qed.

Lemma ltb_false_trans (a b c : number) :
  b <> NaN -> (a <? b) = false -> (b <? c) = false -> (a <? c) = false.
Proof. destruct a, b, c; intros; js_crush. Qed.

Lemma ltb_asym (a b : number) : (a <? b) = true -> (b <? a) = false.
Proof. destruct a, b; intros; js_crush. Qed.

Lemma ltb_irrefl (a : number) : (a <? a) = false.
Proof. destruct a; js_crush. Qed.

(** One round either leaves the three variables alone, the sample (if
    any) being no closer, or records a strictly closer sample. *)
Lemma sampleRound_cases (satrec : Satrec) (best best1 : Closest) (step : Z) :
  sampleRound' satrec best step = Some best1 ->
  (best1 = best /\
   forall d, sampledDistance' satrec step = Some d ->
             (d <? closestDistance best) = false) \/
  (sampledDistance' satrec step = Some (closestDistance best1) /\
   (closestDistance best1 <? closestDistance best) = true /\
   closestTime best1 = Some (now + step * 1000)%Z).
Proof.
  unfold sampleRound, sampledDistance.
  destruct (subpointAt propagate gstime eciToGeodetic degreesLat
              degreesLong satrec (now + step * 1000))
    as [[[[subLat subLon] height]|]|]; try discriminate.
  - destruct (haversineDistance latitude longitude subLat subLon
              <? closestDistance best) eqn:Hcloser;
      intros Heq; injection Heq as <-.
    + right. simpl. auto.
    + left. split; [reflexivity|]. intros d Hd. injection Hd as <-.
      exact Hcloser.
  - intros Heq; injection Heq as <-. left. split; [reflexivity|].
    intros d Hd. discriminate.
Qed.

Lemma sampleLoop_spec (satrec : Satrec) (steps : list Z) :
  forall best best' : Closest,
    sampleLoop' satrec best steps = Some best' ->
    closestDistance best <> NaN ->
    (closestTime best = None -> closestDistance best = PosInf) ->
    closestDistance best' <> NaN /\
    (closestTime best' = None -> closestDistance best' = PosInf) /\
    (closestDistance best <? closestDistance best') = false /\
    (best' = best \/
     exists step,
       In step steps /\
       sampledDistance' satrec step = Some (closestDistance best') /\
       closestTime best' = Some (now + step * 1000)%Z) /\
    (forall step d,
        In step steps -> sampledDistance' satrec step = Some d ->
        (d <? closestDistance best') = false).
Proof.
  induction steps as [|step later IH]; intros best best' Hloop Hnan Hnone.
  - simpl in Hloop. injection Hloop as <-.
    repeat split; auto using ltb_irrefl. intros step d [].
  - simpl in Hloop.
    destruct (sampleRound' satrec best step) as [best1|] eqn:Hround;
      [|discriminate].
    apply sampleRound_cases in Hround.
    assert (H1 : closestDistance best1 <> NaN /\
                 (closestTime best1 = None ->
                  closestDistance best1 = PosInf) /\
                 (closestDistance best <? closestDistance best1) = false).
    { destruct Hround as [[-> _]|(_ & Hlt & Htime)].
      - auto using ltb_irrefl.
      - split; [apply (ltb_not_NaN _ _ Hlt)|].
        split; [rewrite Htime; discriminate|now apply ltb_asym]. }
    destruct H1 as (Hnan1 & Hnone1 & Hmono1).
    destruct (IH best1 best' Hloop Hnan1 Hnone1)
      as (Hnan' & Hnone' & Hmono' & Hfrom & Hmin).
    split; [exact Hnan'|]. split; [exact Hnone'|].
    split; [now apply ltb_false_trans with (b := closestDistance best1)|].
    split.
    + destruct Hfrom as [->|(step' & Hin & Hd & Ht)].
      * destruct Hround as [[-> _]|(Hd & _ & Ht)]; [now left|].
        right. exists step. simpl. auto.
      * right. exists step'. simpl. auto.
    + intros step' d [<-|Hin] Hd; [|now apply (Hmin step')].
      apply ltb_false_trans with (b := closestDistance best1); auto.
      destruct Hround as [[-> Hno]|(Hd1 & _ & _)]; [now apply Hno|].
      rewrite Hd1 in Hd. injection Hd as <-. apply ltb_irrefl.
Qed.

(** What a pushed pass records. *)
Lemma tryTle_pushed (tle : TleSet) (pass : SatellitePass) :
  tryTle' tle = Pushed pass ->
  exists satrec best time,
    twoline2satrec (line1 tle) (line2 tle) = Some satrec /\
    sampleLoop' satrec (mkClosest PosInf None None) sampleSteps
      = Some best /\
    closestTime best = Some time /\
    (closestDistance best <? #2500) = true /\
    pass = mkPass (trim (name tle)) (parseInt10 (slice (line1 tle) 2 7))
             (toFixed1 (closestDistance best)) (toISOString time)
             (roundedAltitude (closestAltitudeKm best)).
Proof.
  unfold tryTle.
  destruct (twoline2satrec (line1 tle) (line2 tle)) as [satrec|];
    [|discriminate].
  destruct (sampleLoop' satrec (mkClosest PosInf None None) sampleSteps)
    as [best|] eqn:Hloop; [|discriminate].
  destruct (closestTime best) as [time|] eqn:Htime; [|discriminate].
  destruct (closestDistance best <? #2500) eqn:Hnear; [|discriminate].
  intros Heq. injection Heq as <-.
  exists satrec, best, time. auto.
Qed.

Lemma ltb_le_trans (d c bound : number) :
  c <> NaN -> (d <? c) = false -> (d <? bound) = true ->
  (c <? bound) = true.
Proof. destruct d, c, bound; intros; js_crush. Qed.

(** C4, amended: for a record whose processing throws nothing, a pass is
    pushed if and only if some sample of the two hours ahead lies strictly
    closer than 2500 km; the pass then records the closest sampled
    distance, rounded to one decimal, and the time of that sample.  A
    record none of whose samples is closer than 2500 km (one at 3000 km,
    or at 2500 km exactly) contributes no pass and no error. *)
Theorem pass_iff_sample_within_2500 :
  forall tle : TleSet,
    tryTle' tle <> Threw ->
    exists satrec : Satrec,
      twoline2satrec (line1 tle) (line2 tle) = Some satrec /\
      ((exists pass, tryTle' tle = Pushed pass) <->
       (exists step d,
           In step sampleSteps /\
           sampledDistance' satrec step = Some d /\
           (d <? #2500) = true)) /\
      (forall pass,
          tryTle' tle = Pushed pass ->
          exists step d,
            In step sampleSteps /\
            sampledDistance' satrec step = Some d /\
            (d <? #2500) = true /\
            distanceKm pass = toFixed1 d /\
            passTime pass = toISOString (now + step * 1000)%Z /\
            (forall step' d',
                In step' sampleSteps ->
                sampledDistance' satrec step' = Some d' ->
                (d' <? d) = false)) /\
      ((forall step d,
           In step sampleSteps ->
           sampledDistance' satrec step = Some d ->
           (d <? #2500) = false) ->
       pushed (tryTle' tle) = []).
Proof.
  intros tle Hthrew.
  destruct (twoline2satrec (line1 tle) (line2 tle)) as [satrec|] eqn:Hrec;
    [|exfalso; apply Hthrew; unfold tryTle; now rewrite Hrec].
  destruct (sampleLoop' satrec (mkClosest PosInf None None) sampleSteps)
    as [best|] eqn:Hloop;
    [|exfalso; apply Hthrew; unfold tryTle; now rewrite Hrec, Hloop].
  exists satrec. split; [reflexivity|].
  destruct (sampleLoop_spec _ _ _ Hloop) as (Hnan & Hnone & _ & Hfrom & Hmin);
    [discriminate|reflexivity|].
  assert (Hpushed : forall pass,
             tryTle' tle = Pushed pass ->
             exists step d,
               In step sampleSteps /\
               sampledDistance' satrec step = Some d /\
               (d <? #2500) = true /\
               distanceKm pass = toFixed1 d /\
               passTime pass = toISOString (now + step * 1000)%Z /\
               (forall step' d',
                   In step' sampleSteps ->
                   sampledDistance' satrec step' = Some d' ->
                   (d' <? d) = false)).
  { intros pass Hpass.
    apply tryTle_pushed in Hpass
      as (satrec' & best' & time & Hrec' & Hloop' & Htime & Hnear & ->).
    rewrite Hrec in Hrec'. injection Hrec' as <-.
    rewrite Hloop in Hloop'. injection Hloop' as <-.
    destruct Hfrom as [->|(step & Hin & Hd & Ht)]; [discriminate|].
    exists step, (closestDistance best).
    rewrite Ht in Htime. injection Htime as <-.
    repeat split; auto. }
  split; [split|split].
  - intros [pass Hpass]. destruct (Hpushed pass Hpass) as (step & d & H).
    exists step, d. tauto.
  - intros (step & d & Hin & Hd & Hnear).
    assert (Hbest : (closestDistance best <? #2500) = true).
    { apply ltb_le_trans with (d := d); auto. now apply (Hmin step). }
    unfold tryTle. rewrite Hrec, Hloop.
    destruct (closestTime best) as [time|] eqn:Htime.
    + rewrite Hbest. eauto.
    + rewrite (Hnone eq_refl) in Hbest. discriminate.
  - exact Hpushed.
  - intros Hfar.
    destruct (tryTle' tle) as [| |pass] eqn:Hout; try reflexivity.
    destruct (Hpushed pass eq_refl) as (step & d & Hin & Hd & Hnear & _).
    rewrite (Hfar step d Hin Hd) in Hnear. discriminate.
Qed.

End OrbitFacts.

(** ** Satellite passes: satellites that hang over one point *)

Section HoverExamples.

Local Open Scope js_scope.

Local Abbreviation hoverDistance lonRadians :=
  (sampledDistance hoverPropagate hoverGstime (hoverGeodetic lonRadians)
     radiansToDegrees radiansToDegrees 0 #0 #0 tt).
Local Abbreviation hoverLoop lonRadians :=
  (sampleLoop hoverPropagate hoverGstime (hoverGeodetic lonRadians)
     radiansToDegrees radiansToDegrees 0 #0 #0 tt).

(** A satellite [theta] radians east of the ground point is measured at
    the radius times [theta], at every sample. *)
Lemma hover_sampled (theta : R) (step : Z) :
  (0 <= theta < 2)%R ->
  hoverDistance #theta step = Some (Fin (6371.0088 * theta)).
Proof.
  intros Htheta. pose proof PI_RGT_0 as Hpi. pose proof PI2_1 as Hpi2.
  unfold sampledDistance, subpointAt, hoverPropagate, hoverGeodetic,
    radiansToDegrees. cbn [geoLatitude geoLongitude geoHeight mul].
  rewrite !div_Fin by lra.
  replace (0 * 180 / PI)%R with 0%R by lra.
  rewrite haversineDistance_equator.
  - do 2 f_equal. field. lra.
  - split.
    + apply Rmult_le_pos; [lra|]. left. apply Rinv_0_lt_compat. lra.
    + apply Rmult_lt_reg_r with (r := PI); [lra|].
      unfold Rdiv. rewrite Rmult_assoc, Rinv_l by lra. nra.
Qed.

Lemma hover_loop_stable (theta : R) (steps : list Z) (best : Closest) :
  (0 <= theta < 2)%R ->
  closestDistance best = Fin (6371.0088 * theta) ->
  hoverLoop #theta best steps = Some best.
Proof.
  intros Htheta Hbest.
  induction steps as [|step later IH]; [reflexivity|].
  cbn [sampleLoop].
  assert (Hround : sampleRound hoverPropagate hoverGstime
                     (hoverGeodetic #theta) radiansToDegrees
                     radiansToDegrees 0 #0 #0 tt best step = Some best).
  { pose proof (hover_sampled step Htheta) as Hd.
    unfold sampledDistance in Hd. unfold sampleRound.
    destruct (subpointAt hoverPropagate hoverGstime (hoverGeodetic #theta)
                radiansToDegrees radiansToDegrees tt (0 + step * 1000))
      as [[[[subLat subLon] height]|]|]; try discriminate.
    injection Hd as ->. rewrite Hbest, ltb_irrefl. reflexivity. }
  rewrite Hround. exact IH.
Qed.

Lemma hover_first_round (theta : R) :
  (0 <= theta < 2)%R ->
  sampleRound hoverPropagate hoverGstime (hoverGeodetic #theta)
    radiansToDegrees radiansToDegrees 0 #0 #0 tt
    (mkClosest PosInf None None) 0 =
  Some (mkClosest (Fin (6371.0088 * theta)) (Some 0%Z) None).
Proof.
  intros Htheta. pose proof (hover_sampled 0 Htheta) as Hd.
  unfold sampledDistance in Hd. unfold sampleRound.
  destruct (subpointAt hoverPropagate hoverGstime (hoverGeodetic #theta)
              radiansToDegrees radiansToDegrees tt (0 + 0 * 1000))
    as [[[[subLat subLon] height]|]|] eqn:Hsub; try discriminate.
  injection Hd as ->. cbn [closestDistance ltb].
  unfold subpointAt, hoverPropagate, hoverGeodetic in Hsub.
  cbn [geoHeight geoLatitude geoLongitude] in Hsub.
  unfold radiansToDegrees in Hsub. injection Hsub as _ _ <-.
  unfold truthy. destruct (Req_dec_T 0 0) as [_|H]; [reflexivity|lra].
Qed.

(** The outcome for a hovering satellite: a pass when the distance is
    below 2500 km, nothing otherwise. *)
Lemma hover_outcome (theta : R) (tle : TleSet) :
  (0 <= theta < 2)%R ->
  hoverTry #theta tle =
  if Fin (6371.0088 * theta) <? #2500 then
    Pushed (mkPass (trim (name tle)) (parseInt10 (slice (line1 tle) 2 7))
              (toFixed1 (Fin (6371.0088 * theta))) (showZ 0) None)
  else NoPass.
Proof.
  intros Htheta. unfold hoverTry, tryTle, hoverTwoline.
  assert (Hsteps : sampleSteps = 0%Z :: tl sampleSteps)
    by (vm_compute; reflexivity).
  rewrite Hsteps. cbn [sampleLoop].
  rewrite (hover_first_round Htheta).
  rewrite (hover_loop_stable (tl sampleSteps) _ Htheta) by reflexivity.
  reflexivity.
Qed.


(** The theorem at work: a satellite right above the ground point gives a
    pass, by its sample at step 0. *)
Lemma pass_iff_sample_within_2500_witness :
  exists pass : SatellitePass, hoverTry #0 tleA = Pushed pass.
Proof.
  assert (Htheta : (0 <= 0 < 2)%R) by lra.
  assert (Hout : hoverTry #0 tleA <> Threw).
  { rewrite (hover_outcome tleA Htheta).
    destruct (Fin (6371.0088 * 0) <? #2500); discriminate. }
  destruct (@pass_iff_sample_within_2500 unit unit hoverTwoline
              hoverPropagate hoverGstime (hoverGeodetic #0)
              radiansToDegrees radiansToDegrees showZ 0%Z #0 #0 tleA Hout)
    as (satrec & _ & [_ Hback] & _).
  apply Hback. exists 0%Z, (Fin (6371.0088 * 0)).
  split; [apply sampleSteps_spec; split; [lia|reflexivity]|].
  split; [destruct satrec; apply (hover_sampled 0 Htheta)|].
  js_crush.
Defined.

(** A satellite whose every sample is at 3000 km gives no pass, and the
    list of passes is empty. *)
Lemma no_pass_at_3000_km :
  (forall step : Z, hoverDistance #(3000 / 6371.0088) step = Some #3000) /\
  hoverTry #(3000 / 6371.0088) tleA = NoPass /\
  hoverPasses #(3000 / 6371.0088) [tleA] = [].
Proof.
  assert (Htheta : (0 <= 3000 / 6371.0088 < 2)%R) by lra.
  assert (Hd : (6371.0088 * (3000 / 6371.0088))%R = 3000%R) by lra.
  assert (Hout : hoverTry #(3000 / 6371.0088) tleA = NoPass).
  { rewrite (hover_outcome tleA Htheta), Hd. js_crush. }
  split; [|split].
  - intros step. rewrite (hover_sampled step Htheta), Hd. reflexivity.
  - exact Hout.
  - unfold hoverPasses, computeSatellitePasses, collectPasses.
    cbn [flat_map]. fold (hoverTry #(3000 / 6371.0088) tleA).
    rewrite Hout. reflexivity.
Qed.

(** The claim as stated fails at the radius itself: a satellite whose
    closest sample is at 2500 km, which does not exceed 2500 km, gives no
    pass. *)
Lemma no_pass_at_2500_km :
  (forall step : Z, hoverDistance #(2500 / 6371.0088) step = Some #2500) /\
  (#2500 <=? #2500) = true /\
  hoverTry #(2500 / 6371.0088) tleA = NoPass /\
  hoverPasses #(2500 / 6371.0088) [tleA] = [].
Proof.
  assert (Htheta : (0 <= 2500 / 6371.0088 < 2)%R) by lra.
  assert (Hd : (6371.0088 * (2500 / 6371.0088))%R = 2500%R) by lra.
  assert (Hout : hoverTry #(2500 / 6371.0088) tleA = NoPass).
  { rewrite (hover_outcome tleA Htheta), Hd. js_crush. }
  split; [|split; [|split]].
  - intros step. rewrite (hover_sampled step Htheta), Hd. reflexivity.
  - js_crush.
  - exact Hout.
  - unfold hoverPasses, computeSatellitePasses, collectPasses.
    cbn [flat_map]. fold (hoverTry #(2500 / 6371.0088) tleA).
    rewrite Hout. reflexivity.
Qed.

End HoverExamples.

(** ** Satellite passes: order and truncation *)

Section PassOrder.

Local Open Scope js_scope.

Variable Satrec : Type.
Variable Position : Type.
Variable twoline2satrec : jsstring -> jsstring -> option Satrec.
Variable propagate : Satrec -> Z -> option Position.
Variable gstime : Z -> number.
Variable eciToGeodetic : Position -> number -> Geodetic.
Variable degreesLat : number -> option number.
Variable degreesLong : number -> option number.
Variable toISOString : Z -> jsstring.
Variable now : Z.
Variables latitude longitude : number.

Local Abbreviation tryTle' :=
  (tryTle twoline2satrec propagate gstime eciToGeodetic degreesLat
     degreesLong toISOString now latitude longitude).
Local Abbreviation collectPasses' :=
  (collectPasses twoline2satrec propagate gstime eciToGeodetic degreesLat
     degreesLong toISOString now latitude longitude).
Local Abbreviation computeSatellitePasses' :=
  (computeSatellitePasses twoline2satrec propagate gstime eciToGeodetic
     degreesLat degreesLong toISOString now latitude longitude).









End PassOrder.

Section PassOrderExamples.

Local Open Scope js_scope.





End PassOrderExamples.

(** ** The request handler *)

Section HandlerFacts.

Local Open Scope js_scope.

Variable Satrec : Type.
Variable Position : Type.
Variable twoline2satrec : jsstring -> jsstring -> option Satrec.
Variable propagate : Satrec -> Z -> option Position.
Variable gstime : Z -> number.
Variable eciToGeodetic : Position -> number -> Geodetic.
Variable degreesLat : number -> option number.
Variable degreesLong : number -> option number.
Variable toISOString : Z -> jsstring.
Variable now : Z.
Variable parseFloat : jsstring -> number.
Variable dateISO : number -> jsstring.
Variable Links : Type.
Variable buildNasaTileUrl : number -> number -> jsstring.
Variable buildFallbackImagery : number -> number -> jsstring.
Variable buildLinks : jsstring -> number -> number -> Links.

Local Abbreviation GET' :=
  (GET twoline2satrec propagate gstime eciToGeodetic degreesLat degreesLong
     toISOString now parseFloat dateISO buildNasaTileUrl
     buildFallbackImagery buildLinks).
Local Abbreviation tryLoad' :=
  (tryLoad twoline2satrec propagate gstime eciToGeodetic degreesLat
     degreesLong toISOString now dateISO buildNasaTileUrl
     buildFallbackImagery buildLinks).
Local Abbreviation passesOf lat lon :=
  (computeSatellitePasses twoline2satrec propagate gstime eciToGeodetic
     degreesLat degreesLong toISOString now lat lon).
Local Abbreviation alertsOfFeed' := (alertsOfFeed toISOString now dateISO).

Lemma GET_accepted (lat lon : jsstring) (nameParam : option jsstring)
    reverseRes weatherRes topoRes usgsRes tleRes :
  acceptedCoordinates parseFloat lat lon ->
  GET' (Some lat) (Some lon) nameParam
    reverseRes weatherRes topoRes usgsRes tleRes =
  match tryLoad' lat lon nameParam (parseFloat lat) (parseFloat lon)
          reverseRes weatherRes topoRes usgsRes tleRes with
  | Some responseBody => JsonOk responseBody
  | None => JsonError 502 failedMessage
  end.
Proof.
  intros (Hlat & Hlon & Hflat & Hflon). unfold GET, missing.
  rewrite Hlat, Hlon, Hflat, Hflon. reflexivity.
Qed.

Lemma tryLoad_reverse_not_ok lat lon nameParam latitude longitude
    status body weatherRes topoRes usgsRes tleRes :
  tryLoad' lat lon nameParam latitude longitude
    (Replied false status body) weatherRes topoRes usgsRes tleRes = None.
Proof.
  unfold tryLoad.
  destruct weatherRes, topoRes, usgsRes, tleRes; reflexivity.
Qed.

Lemma tryLoad_weather_not_ok lat lon nameParam latitude longitude
    status body reverseRes topoRes usgsRes tleRes :
  tryLoad' lat lon nameParam latitude longitude
    reverseRes (Replied false status body) topoRes usgsRes tleRes = None.
Proof.
  unfold tryLoad.
  destruct reverseRes as [|[] ? ?], topoRes, usgsRes, tleRes; reflexivity.
Qed.

Lemma bodyIfOk_usable {A : Type} (reply : Fetched A) :
  usable reply ->
  match reply with
  | Replied ok _ body => bodyIfOk ok body = Some (payloadOf reply)
  | Rejected => False
  end.
Proof. destruct reply as [|[] status [payload|]]; simpl; tauto. Qed.

(** A fetch that rejects, or an ok response whose body cannot be read,
    throws inside the [try], whichever feed it is. *)
Lemma tryLoad_unusable lat lon nameParam latitude longitude
    (reverseRes : Fetched ReversePayload) (weatherRes : Fetched WeatherPayload)
    (topoRes : Fetched TopoPayload) (usgsRes : Fetched UsgsPayload)
    (tleRes : Fetched jsstring) :
  ~ usable reverseRes \/ ~ usable weatherRes \/ ~ usable topoRes \/
  ~ usable usgsRes \/ ~ usable tleRes ->
  tryLoad' lat lon nameParam latitude longitude
    reverseRes weatherRes topoRes usgsRes tleRes = None.
Proof.
  intros Hbroken. unfold tryLoad.
  destruct reverseRes as [|[] sR [bR|]]; try reflexivity;
    destruct weatherRes as [|[] sW [bW|]]; try reflexivity;
    destruct topoRes as [|[] sT [bT|]]; try reflexivity;
    destruct usgsRes as [|[] sU [bU|]]; try reflexivity;
    destruct tleRes as [|[] sL [bL|]]; try reflexivity;
    exfalso; simpl in Hbroken; tauto.
Qed.

(** The map over the seismic feed throws, or the name cannot be encoded:
    the handler lands in its [catch]. *)
Lemma tryLoad_throws lat lon nameParam latitude longitude
    statusR statusW reversePayload weatherPayload
    (topoRes : Fetched TopoPayload) (usgsRes : Fetched UsgsPayload)
    (tleRes : Fetched jsstring) :
  alertsOfFeed' latitude longitude (payloadOf usgsRes) = None \/
  wellFormed
    (encodedName
       (linkNameOf nameParam
          (andThen (reverseResults reversePayload) (@hd_error _)))) = false ->
  tryLoad' lat lon nameParam latitude longitude
    (Replied true statusR (Some reversePayload))
    (Replied true statusW (Some weatherPayload))
    topoRes usgsRes tleRes = None.
Proof.
  intros Hthrows. unfold tryLoad. cbn [negb].
  destruct topoRes as [|[] sT [bT|]]; try reflexivity;
    destruct usgsRes as [|[] sU [bU|]]; try reflexivity;
    destruct tleRes as [|[] sL [bL|]]; try reflexivity;
    cbn [bodyIfOk payloadOf] in *; unfold linksOf;
    (destruct Hthrows as [Hthrows|Hthrows];
     [rewrite Hthrows; reflexivity
     |rewrite Hthrows;
      match goal with
      | |- context [alertsOfFeed ?a ?b ?c ?d ?e ?f] =>
          destruct (alertsOfFeed a b c d e f); reflexivity
      end]).
Qed.

(** C1, amended: for accepted coordinates, a reverse-geocoding or weather
    response that is not ok makes the handler answer 502 with an error,
    whatever the other feeds returned, and so does any fetch that rejects,
    any ok response whose body cannot be read, a seismic event near the
    point whose time the date cannot hold, and a name that cannot be
    encoded; when both are ok and nothing throws, an elevation, seismic or
    TLE response that is not ok leaves only its category at its default
    (no fallback elevation, no alerts, no satellites) in a 200 response
    that carries the other categories. *)
Theorem GET_fatal_and_degrading_feeds :
  forall (lat lon : jsstring) (nameParam : option jsstring),
    acceptedCoordinates parseFloat lat lon ->
    (forall status body weatherRes topoRes usgsRes tleRes,
        GET' (Some lat) (Some lon) nameParam
          (Replied false status body) weatherRes topoRes usgsRes tleRes =
        JsonError 502 failedMessage) /\
    (forall status body reverseRes topoRes usgsRes tleRes,
        GET' (Some lat) (Some lon) nameParam
          reverseRes (Replied false status body) topoRes usgsRes tleRes =
        JsonError 502 failedMessage) /\
    (forall reverseRes weatherRes topoRes usgsRes tleRes,
        ~ usable reverseRes \/ ~ usable weatherRes \/ ~ usable topoRes \/
        ~ usable usgsRes \/ ~ usable tleRes ->
        GET' (Some lat) (Some lon) nameParam
          reverseRes weatherRes topoRes usgsRes tleRes =
        JsonError 502 failedMessage) /\
    (forall statusR statusW reversePayload weatherPayload
            (topoRes : Fetched TopoPayload) (usgsRes : Fetched UsgsPayload)
            (tleRes : Fetched jsstring),
        alertsOfFeed' (parseFloat lat) (parseFloat lon) (payloadOf usgsRes) =
          None \/
        wellFormed
          (encodedName
             (linkNameOf nameParam
                (andThen (reverseResults reversePayload) (@hd_error _)))) =
          false ->
        GET' (Some lat) (Some lon) nameParam
          (Replied true statusR (Some reversePayload))
          (Replied true statusW (Some weatherPayload))
          topoRes usgsRes tleRes = JsonError 502 failedMessage) /\
    (forall statusR statusW reversePayload weatherPayload
            (topoRes : Fetched TopoPayload) (usgsRes : Fetched UsgsPayload)
            (tleRes : Fetched jsstring) (found : list AlertInfo),
        usable topoRes -> usable usgsRes -> usable tleRes ->
        let result := andThen (reverseResults reversePayload) (@hd_error _) in
        let currentWeather :=
          match current_weather weatherPayload with
          | Some cw => cw
          | None => mkCurrentWeather None None None
          end in
        alertsOfFeed' (parseFloat lat) (parseFloat lon) (payloadOf usgsRes) =
          Some found ->
        wellFormed (encodedName (linkNameOf nameParam result)) = true ->
        exists body : ResponseBody Links,
          GET' (Some lat) (Some lon) nameParam
            (Replied true statusR (Some reversePayload))
            (Replied true statusW (Some weatherPayload))
            topoRes usgsRes tleRes = JsonOk body /\
          country body = andThen result rrCountry /\
          region body = andThen result rrAdmin1 /\
          timezone body = andThen result rrTimezone /\
          population body = andThen result rrPopulation /\
          Route.weather body =
            mkSnapshot (cwTemperature currentWeather)
              (cwWindspeed currentWeather)
              (averagePrecipitationOf
                 match andThen (hourly weatherPayload) hourlyPrecipitation
                 with Some values => values | None => [] end)
              (mapWeatherCode (cwWeathercode currentWeather)) /\
          elevation body =
            orElse (andThen result rrElevation)
              (andThen (andThen (andThen (payloadOf topoRes) topoResults)
                          (@hd_error _)) (fun e => e)) /\
          alerts body = found /\
          satellites body =
            passesOf (parseFloat lat) (parseFloat lon)
              (parseTleSets
                 match payloadOf tleRes with
                 | Some text => text
                 | None => []
                 end) /\
          (payloadOf topoRes = None ->
           elevation body = andThen result rrElevation) /\
          (payloadOf usgsRes = None -> alerts body = []) /\
          (payloadOf tleRes = None -> satellites body = [])).
Proof.
  intros lat lon nameParam Hok. split; [|split; [|split; [|split]]].
  - intros. rewrite GET_accepted by assumption.
    now rewrite tryLoad_reverse_not_ok.
  - intros. rewrite GET_accepted by assumption.
    now rewrite tryLoad_weather_not_ok.
  - intros reverseRes weatherRes topoRes usgsRes tleRes Hbroken.
    rewrite GET_accepted by assumption.
    now rewrite tryLoad_unusable.
  - intros statusR statusW reversePayload weatherPayload
      topoRes usgsRes tleRes Hthrows.
    rewrite GET_accepted by assumption.
    now rewrite tryLoad_throws.
  - intros statusR statusW reversePayload weatherPayload
      topoRes usgsRes tleRes found Htopo Husgs Htle result currentWeather
      Halerts Hname.
    rewrite GET_accepted by assumption.
    pose proof (bodyIfOk_usable _ Htopo) as Et.
    pose proof (bodyIfOk_usable _ Husgs) as Eu.
    pose proof (bodyIfOk_usable _ Htle) as El.
    destruct topoRes as [|topoOk' statusT topoBody]; [contradiction|].
    destruct usgsRes as [|usgsOk' statusU usgsBody]; [contradiction|].
    destruct tleRes as [|tleOk' statusL tleBody]; [contradiction|].
    unfold tryLoad. cbn [negb]. rewrite Et, Eu, El.
    rewrite Halerts. unfold linksOf. fold result. rewrite Hname.
    eexists. split; [reflexivity|].
    cbn [country region timezone population Route.weather elevation alerts
         satellites].
    repeat (split; [reflexivity|]).
    split; [|split].
    + intros ->. unfold orElse, result.
      destruct (andThen (andThen (reverseResults reversePayload)
                           (@hd_error _)) rrElevation); reflexivity.
    + intros E. rewrite E in Halerts. cbn in Halerts. congruence.
    + intros ->. reflexivity.
Qed.

End HandlerFacts.

Section HandlerExamples.

Local Open Scope js_scope.

Lemma example_coordinates :
  acceptedCoordinates (fun _ => #35) (lit "35.0") (lit "139.0").
Proof. repeat split. Qed.

(** The theorem at work: the satellite feed answers 503, and the handler
    still answers 200, with no satellite and the rest in place. *)
Lemma GET_fatal_and_degrading_feeds_witness :
  exists body : ResponseBody unit,
    exampleGET (Some (lit "35.0")) (Some (lit "139.0")) None
      reverseOk weatherOk topoOk usgsOk (Replied false 503 None)
    = JsonOk body /\
    satellites body = [] /\
    country body = Some (lit "Japan") /\
    elevation body = Some #44.
Proof.
  destruct (@GET_fatal_and_degrading_feeds unit unit hoverTwoline
              hoverPropagate hoverGstime (hoverGeodetic #0)
              radiansToDegrees radiansToDegrees showZ 0%Z
              (fun _ => #35) (fun _ => []) unit
              (fun _ _ => []) (fun _ _ => []) (fun _ _ _ => tt)
              (lit "35.0") (lit "139.0") None example_coordinates)
    as (_ & _ & _ & _ & Hdegrade).
  destruct (Hdegrade 200%Z 200%Z
              (mkReversePayload (Some [tokyo]))
              (mkWeatherPayload
                 (Some (mkCurrentWeather (Some #21) (Some #3) (Some #2)))
                 (Some (mkHourly (Some [#1; #3]))))
              topoOk usgsOk (Replied false 503 None) [] I I I
              eq_refl eq_refl)
    as (body & Hget & Hcountry & _ & _ & _ & _ & Helev & _ & _ & _ & _ & Hsat).
  exists body. split; [exact Hget|].
  split; [now apply Hsat|]. split; [exact Hcountry|exact Helev].
Defined.

(** The claim as stated fails: with every other feed answering 200, a
    reverse-geocoding response that is not ok, or a weather response that
    is not ok, makes the handler answer 502 with an error and none of the
    categories that succeeded. *)
Lemma GET_answers_502_when_reverse_geocoding_fails :
  exampleGET (Some (lit "35.0")) (Some (lit "139.0")) None
    (Replied false 500 None) weatherOk topoOk usgsOk tleOk =
    JsonError 502 failedMessage /\
  exampleGET (Some (lit "35.0")) (Some (lit "139.0")) None
    reverseOk (Replied false 429 None) topoOk usgsOk tleOk =
    JsonError 502 failedMessage.
Proof. split; reflexivity. Qed.

(** A seismic event at the request point whose time, 1e16 ms, is beyond
    what a date holds: every feed answers 200 and the handler answers
    502. *)
Lemma GET_answers_502_on_a_time_no_date_holds :
  exampleGET (Some (lit "35.0")) (Some (lit "139.0")) None
    reverseOk weatherOk topoOk
    (Replied true 200
       (Some (mkUsgsPayload
                (Some [mkFeature (lit "us7000") (Some #4) None None
                         (Some #10000000000000000) (#35, #35, #10)]))))
    tleOk =
    JsonError 502 failedMessage.
Proof.
  unfold exampleGET.
  rewrite GET_accepted by exact example_coordinates.
  unfold reverseOk, weatherOk. rewrite tryLoad_throws; [reflexivity|].
  left. unfold alertsOfFeed, alertsOf.
  cbn [payloadOf andThen features mapThrowing]. unfold alertOf.
  cbn [featureCoordinates]. rewrite haversineDistance_same.
  assert (Hnear : (#0 >? ALERT_RADIUS_KM) = false)
    by (unfold ALERT_RADIUS_KM; js_crush).
  rewrite Hnear. unfold happenedAtOf. cbn [featureTime].
  assert (Htruthy : truthy #10000000000000000 = true) by js_crush.
  rewrite Htruthy.
  assert (Htime : validTime #10000000000000000 = false).
  { unfold validTime. rewrite Rabs_right by lra.
    destruct (Rlt_dec 8640000000000000 10000000000000000); [reflexivity|lra]. }
  now rewrite Htime.
Qed.

(** A name that is a lone surrogate cannot be encoded: every feed answers
    200 and the handler answers 502. *)
Lemma GET_answers_502_on_a_lone_surrogate :
  exampleGET (Some (lit "35.0")) (Some (lit "139.0")) (Some [55357%N])
    reverseOk weatherOk topoOk usgsOk tleOk =
    JsonError 502 failedMessage.
Proof. reflexivity. Qed.

End HandlerExamples.

(** ** The haversine distance: its range *)

Section HaversineRange.

Local Open Scope js_scope.

Lemma toRadians_not_finite (x : number) :
  isFinite x = false -> isFinite (toRadians x) = false.
Proof.
  pose proof PI_RGT_0 as Hpi.
  destruct x; intros H; try discriminate; unfold toRadians; js_crush.
Qed.

Lemma half_not_finite (x : number) :
  isFinite x = false -> isFinite (x / #2) = false.
Proof. destruct x; intros H; try discriminate; js_crush. Qed.

Lemma sin_not_finite (x : number) : isFinite x = false -> sin x = NaN.
Proof. destruct x; intros H; try discriminate; reflexivity. Qed.

Lemma cos_not_finite (x : number) : isFinite x = false -> cos x = NaN.
Proof. destruct x; intros H; try discriminate; reflexivity. Qed.

Lemma sub_not_finite (a b : number) :
  isFinite a = false \/ isFinite b = false -> isFinite (a - b) = false.
Proof. destruct a, b; intros [H|H]; try discriminate; reflexivity. Qed.

Lemma add_NaN_r (a : number) : a + NaN = NaN.
Proof. now destruct a. Qed.

Lemma mul_NaN_r (a : number) : a * NaN = NaN.
Proof. now destruct a. Qed.

(** A coordinate that is not finite makes the distance NaN. *)
Lemma haversineDistance_not_finite (lat1 lon1 lat2 lon2 : number) :
  isFinite lat1 = false \/ isFinite lon1 = false \/
  isFinite lat2 = false \/ isFinite lon2 = false ->
  haversineDistance lat1 lon1 lat2 lon2 = NaN.
Proof.
  intros Hbad. unfold haversineDistance. cbv zeta.
  assert (Ha : square (sin (toRadians (lat2 - lat1) / #2)) +
               cos (toRadians lat1) * cos (toRadians lat2) *
               square (sin (toRadians (lon2 - lon1) / #2)) = NaN).
  { destruct Hbad as [H|[H|[H|H]]].
    - rewrite (cos_not_finite _ (toRadians_not_finite _ H)).
      cbn [mul]. apply add_NaN_r.
    - rewrite (sin_not_finite
                 (toRadians (lon2 - lon1) / #2)
                 (half_not_finite _ (toRadians_not_finite _
                    (sub_not_finite lon2 lon1 (or_intror H))))).
      unfold square. cbn [mul]. rewrite mul_NaN_r. apply add_NaN_r.
    - rewrite (cos_not_finite _ (toRadians_not_finite _ H)).
      rewrite mul_NaN_r. cbn [mul]. apply add_NaN_r.
    - rewrite (sin_not_finite
                 (toRadians (lon2 - lon1) / #2)
                 (half_not_finite _ (toRadians_not_finite _
                    (sub_not_finite lon2 lon1 (or_introl H))))).
      unfold square. cbn [mul]. rewrite mul_NaN_r. apply add_NaN_r. }
  rewrite Ha. reflexivity.
Qed.

(** The angle of a point of the closed first quadrant. *)
Lemma Ratan2_first_quadrant (y x : R) :
  (0 <= y)%R -> (0 <= x)%R -> (0 <= Ratan2 y x <= PI / 2)%R.
Proof.
  intros Hy Hx. pose proof PI_RGT_0 as Hpi. unfold Ratan2.
  destruct (Rlt_dec 0 x) as [Hpos|Hzero].
  - pose proof (atan_bound (y / x)) as [_ Hup].
    assert (Hq : (0 <= y / x)%R).
    { apply Rmult_le_pos; [exact Hy|]. left. now apply Rinv_0_lt_compat. }
    split; [|lra].
    destruct Hq as [Hq|<-]; [|rewrite atan_0; lra].
    left. rewrite <- atan_0. now apply atan_increasing.
  - destruct (Rlt_dec x 0); [lra|].
    destruct (Rlt_dec 0 y); [lra|].
    destruct (Rlt_dec y 0); lra.
Qed.

(** On finite coordinates the distance is NaN, or a length between 0 and
    half the circumference. *)
Lemma haversineDistance_finite_range (lat1 lon1 lat2 lon2 : R) :
  haversineDistance #lat1 #lon1 #lat2 #lon2 = NaN \/
  exists d : R,
    haversineDistance #lat1 #lon1 #lat2 #lon2 = Fin d /\
    (0 <= d <= PI * 6371.0088)%R.
Proof.
  set (a := Rhaversine lat1 lon1 lat2 lon2).
  destruct (Rlt_dec a 0) as [Hneg|Hnonneg];
    [|destruct (Rlt_dec (1 + - a) 0) as [Hbig|Hsmall]].
  - left. unfold haversineDistance, toRadians, EARTH_MEAN_RADIUS_KM, square.
    repeat (cbn [sub neg add mul JSNumber.sin JSNumber.cos];
            rewrite ?div_Fin by lra).
    fold (Rhaversine lat1 lon1 lat2 lon2). fold a.
    unfold JSNumber.sqrt at 1.
    destruct (Rlt_dec a 0); [reflexivity|lra].
  - left. unfold haversineDistance, toRadians, EARTH_MEAN_RADIUS_KM, square.
    repeat (cbn [sub neg add mul JSNumber.sin JSNumber.cos];
            rewrite ?div_Fin by lra).
    fold (Rhaversine lat1 lon1 lat2 lon2). fold a.
    unfold JSNumber.sqrt.
    destruct (Rlt_dec a 0); [lra|].
    destruct (Rlt_dec (1 + - a) 0); [reflexivity|lra].
  - right. rewrite haversineDistance_finite by (fold a; lra). fold a.
    eexists. split; [reflexivity|].
    pose proof (Ratan2_first_quadrant
                  (sqrt_pos a) (sqrt_pos (1 + - a))) as Hangle.
    lra.
Qed.

Lemma haversineDistance_all_finite (lat1 lon1 lat2 lon2 : number) :
  isFinite lat1 && isFinite lon1 && isFinite lat2 && isFinite lon2 = false ->
  haversineDistance lat1 lon1 lat2 lon2 = NaN.
Proof.
  intros H. apply haversineDistance_not_finite.
  repeat (apply andb_false_iff in H; destruct H as [H|H]); auto.
Qed.

(** The distance is never negative, never infinite and never beyond half
    the circumference. *)
Lemma haversineDistance_cases (lat1 lon1 lat2 lon2 : number) :
  haversineDistance lat1 lon1 lat2 lon2 = NaN \/
  exists d : R,
    haversineDistance lat1 lon1 lat2 lon2 = Fin d /\
    (0 <= d <= PI * 6371.0088)%R.
Proof.
  destruct (isFinite lat1 && isFinite lon1 && isFinite lat2 && isFinite lon2)
    eqn:Hfin; [|left; now apply haversineDistance_all_finite].
  repeat (apply andb_true_iff in Hfin; destruct Hfin as [Hfin ?]).
  destruct lat1 as [| |a|], lon1 as [| |b|], lat2 as [| |c|],
    lon2 as [| |d|]; try discriminate.
  apply haversineDistance_finite_range.
Qed.

(** X2: whatever the coordinates, the haversine distance is NaN or a
    length between 0 and half the circumference of the Earth, pi times
    6371.0088 km; it is NaN as soon as a coordinate is not finite. *)
Theorem haversineDistance_range :
  forall lat1 lon1 lat2 lon2 : number,
    (haversineDistance lat1 lon1 lat2 lon2 = NaN \/
     exists d : R,
       haversineDistance lat1 lon1 lat2 lon2 = Fin d /\
       (0 <= d <= PI * 6371.0088)%R) /\
    (isFinite lat1 && isFinite lon1 && isFinite lat2 && isFinite lon2 = false ->
     haversineDistance lat1 lon1 lat2 lon2 = NaN).
Proof.
  intros lat1 lon1 lat2 lon2. split.
  - apply haversineDistance_cases.
  - apply haversineDistance_all_finite.
Qed.

(** The theorem at work on a pole and a point at infinity. *)
Lemma haversineDistance_range_witness :
  haversineDistance #90 #0 PosInf #0 = NaN.
Proof.
  apply (proj2 (haversineDistance_range #90 #0 PosInf #0)). reflexivity.
Defined.

End HaversineRange.

(** ** The TLE parser on any text *)

Section TleSound.

Lemma trimStart_head (s : jsstring) :
  isWhiteSpace (hd 0%N (trimStart s)) = false.
Proof.
  induction s as [|c rest IH]; [reflexivity|].
  cbn [trimStart]. destruct (isWhiteSpace c) eqn:Hc; [exact IH|exact Hc].
Qed.

Lemma trimStart_suffix (s : jsstring) :
  exists blanks : jsstring, s = blanks ++ trimStart s.
Proof.
  induction s as [|c rest [blanks IH]]; [now exists []|].
  cbn [trimStart]. destruct (isWhiteSpace c).
  - exists (c :: blanks). cbn [app]. now f_equal.
  - now exists [].
Qed.

Lemma trim_fixed (line : jsstring) :
  isWhiteSpace (hd 0%N line) = false ->
  isWhiteSpace (last line 0%N) = false ->
  trim line = line.
Proof.
  intros Hhead Hlast. unfold trim, trimEnd.
  rewrite (trimStart_clean _ Hhead).
  rewrite trimStart_clean by (now rewrite hd_rev_last).
  apply rev_involutive.
Qed.

(** Trimming twice is trimming once. *)
Lemma trim_idempotent (s : jsstring) : trim (trim s) = trim s.
Proof.
  apply trim_fixed.
  - unfold trim, trimEnd.
    destruct (trimStart_suffix (rev (trimStart s))) as [blanks Hsplit].
    pose proof (trimStart_head s) as Hhead.
    apply (f_equal (@rev N)) in Hsplit.
    rewrite rev_involutive, rev_app_distr in Hsplit.
    destruct (rev (trimStart (rev (trimStart s)))) as [|c kept];
      [reflexivity|].
    rewrite Hsplit in Hhead. exact Hhead.
  - unfold trim, trimEnd. rewrite <- hd_rev_last, rev_involutive.
    apply trimStart_head.
Qed.

(** The lines the parser works on are trimmed and not empty. *)
Lemma tleLines_trimmed (tleText : jsstring) :
  Forall (fun line => line <> [] /\ trim line = line) (tleLines tleText).
Proof.
  unfold tleLines. apply Forall_forall. intros line Hin.
  apply filter_In in Hin as [Hin Hne].
  apply in_map_iff in Hin as (raw & <- & _). split.
  - intros Hempty. rewrite Hempty in Hne. discriminate.
  - apply trim_idempotent.
Qed.

(** A record read from the window of index [k] of [lines]. *)
Local Abbreviation readFrom lines record :=
  (acceptsWindow (line1 record) (line2 record) = true /\
   exists k : nat,
     nth_error lines (3 * k) = Some (name record) /\
     nth_error lines (3 * k + 1) = Some (line1 record) /\
     nth_error lines (3 * k + 2) = Some (line2 record)).

Lemma scanWindows_sound (all : list jsstring) (fuel : nat) :
  forall (rest before : list jsstring) (sets : list TleSet) (k : nat),
    (List.length rest <= fuel)%nat ->
    all = before ++ rest ->
    List.length before = (3 * k)%nat ->
    Forall (fun record => readFrom all record) sets ->
    (List.length sets < SATELLITE_SAMPLE_COUNT)%nat ->
    (List.length sets <= k)%nat ->
    Forall (fun record => readFrom all record) (scanWindows rest sets) /\
    (List.length (scanWindows rest sets) <= SATELLITE_SAMPLE_COUNT)%nat /\
    (3 * List.length (scanWindows rest sets) <= List.length all)%nat.
Proof.
  assert (Hcount : SATELLITE_SAMPLE_COUNT = 6%nat) by reflexivity.
  induction fuel as [|fuel IH];
    intros rest before sets k Hfuel Hall Hbefore Hsets Hroom Hk.
  - destruct rest as [|a rest]; [|simpl in Hfuel; lia].
    cbn [scanWindows]. split; [exact Hsets|]. split; [lia|].
    rewrite Hall, length_app. lia.
  - destruct rest as [|nm [|l1 [|l2 rest]]];
      try (cbn [scanWindows]; split; [exact Hsets|]; split; [lia|];
           rewrite Hall, length_app; lia).
    cbn [scanWindows].
    assert (Hnm : nth_error all (3 * k) = Some nm).
    { rewrite Hall, nth_error_app2 by lia.
      now replace (3 * k - List.length before)%nat with 0%nat by lia. }
    assert (Hl1 : nth_error all (3 * k + 1) = Some l1).
    { rewrite Hall, nth_error_app2 by lia.
      now replace (3 * k + 1 - List.length before)%nat with 1%nat by lia. }
    assert (Hl2 : nth_error all (3 * k + 2) = Some l2).
    { rewrite Hall, nth_error_app2 by lia.
      now replace (3 * k + 2 - List.length before)%nat with 2%nat by lia. }
    assert (Hlen : (3 * (k + 1) <= List.length all)%nat).
    { rewrite Hall, length_app. cbn [List.length]. lia. }
    set (sets' := if acceptsWindow l1 l2 then sets ++ [mkTle nm l1 l2]
                  else sets).
    assert (Hsets' : Forall (fun record => readFrom all record) sets' /\
                     (List.length sets' <= k + 1)%nat /\
                     (List.length sets' <= SATELLITE_SAMPLE_COUNT)%nat).
    { unfold sets'. destruct (acceptsWindow l1 l2) eqn:Hacc.
      - split; [|rewrite length_app; cbn [List.length]; lia].
        apply Forall_app. split; [exact Hsets|].
        constructor; [|constructor].
        cbn [name line1 line2]. split; [exact Hacc|]. now exists k.
      - split; [exact Hsets|lia]. }
    destruct Hsets' as (Hread & Hk' & Hroom').
    destruct (SATELLITE_SAMPLE_COUNT <=? List.length sets')%nat eqn:Hfull.
    + split; [exact Hread|]. split; [exact Hroom'|lia].
    + apply Nat.leb_gt in Hfull.
      apply (IH rest (before ++ [nm; l1; l2]) sets' (k + 1)%nat).
      * cbn [List.length] in Hfuel. lia.
      * rewrite <- app_assoc. exact Hall.
      * rewrite length_app. cbn [List.length]. lia.
      * exact Hread.
      * exact Hfull.
      * exact Hk'.
Qed.

(** X3: whatever the text, the parser returns at most six records, three
    lines of the text for each; every record is a window of three
    consecutive trimmed, non-empty lines, at an index that is a multiple of
    three, whose second line starts with "1 " and whose third with "2 ";
    its name is already trimmed.  A text with fewer than three non-empty
    lines gives no record. *)
Theorem parseTleSets_sound :
  forall tleText : jsstring,
    let lines := tleLines tleText in
    let sets := parseTleSets tleText in
    (List.length sets <= 6)%nat /\
    (3 * List.length sets <= List.length lines)%nat /\
    Forall (fun record =>
              startsWith (line1 record) (lit "1 ") = true /\
              startsWith (line2 record) (lit "2 ") = true /\
              trim (name record) = name record /\
              name record <> [] /\
              exists k : nat,
                nth_error lines (3 * k) = Some (name record) /\
                nth_error lines (3 * k + 1) = Some (line1 record) /\
                nth_error lines (3 * k + 2) = Some (line2 record))
           sets /\
    ((List.length lines < 3)%nat -> sets = []).
Proof.
  intros tleText lines sets.
  destruct (@scanWindows_sound lines (List.length lines) lines [] [] 0%nat)
    as (Hread & Hmost & Hlines); auto.
  { unfold SATELLITE_SAMPLE_COUNT. cbn [List.length]. lia. }
  change (scanWindows lines []) with sets in Hread, Hmost, Hlines.
  split; [exact Hmost|]. split; [exact Hlines|]. split.
  - pose proof (tleLines_trimmed tleText) as Htrim. fold lines in Htrim.
    rewrite Forall_forall in Htrim.
    apply Forall_forall. intros record Hin.
    rewrite Forall_forall in Hread.
    destruct (Hread record Hin) as (Hacc & k & Hnm & Hl1 & Hl2).
    apply andb_true_iff in Hacc as [H1 H2].
    destruct (Htrim (name record) (nth_error_In _ _ Hnm)) as [Hne Hfix].
    repeat split; auto. now exists k.
  - intros Hshort. apply length_zero_iff_nil. lia.
Qed.

End TleSound.

(** ** Satellite passes: what every pass records *)

Section PassBounds.

Local Open Scope js_scope.

Variable Satrec : Type.
Variable Position : Type.
Variable twoline2satrec : jsstring -> jsstring -> option Satrec.
Variable propagate : Satrec -> Z -> option Position.
Variable gstime : Z -> number.
Variable eciToGeodetic : Position -> number -> Geodetic.
Variable degreesLat : number -> option number.
Variable degreesLong : number -> option number.
Variable toISOString : Z -> jsstring.
Variable now : Z.
Variables latitude longitude : number.

Local Abbreviation sampledDistance' :=
  (sampledDistance propagate gstime eciToGeodetic degreesLat degreesLong now
     latitude longitude).
Local Abbreviation tryTle' :=
  (tryTle twoline2satrec propagate gstime eciToGeodetic degreesLat
     degreesLong toISOString now latitude longitude).
Local Abbreviation collectPasses' :=
  (collectPasses twoline2satrec propagate gstime eciToGeodetic degreesLat
     degreesLong toISOString now latitude longitude).
Local Abbreviation computeSatellitePasses' :=
  (computeSatellitePasses twoline2satrec propagate gstime eciToGeodetic
     degreesLat degreesLong toISOString now latitude longitude).

Lemma in_firstn {A : Type} (n : nat) (l : list A) (x : A) :
  In x (firstn n l) -> In x l.
Proof.
  intros Hin. rewrite <- (firstn_skipn n l). apply in_or_app. now left.
Qed.

(** Rounding to one decimal keeps a number between 0 and a whole bound. *)
Lemma RtoFixed1_bounds (x : R) (bound : Z) :
  (0 <= x <= IZR bound)%R -> (0 <= RtoFixed1 x <= IZR bound)%R.
Proof.
  intros [Hlow Hhigh]. unfold RtoFixed1.
  destruct (Rlt_dec x 0) as [Hneg|_]; [lra|].
  set (z := Zfloor (x * 10 + / 2)).
  pose proof (Zfloor_bound (x * 10 + / 2)) as [Hz _]. fold z in Hz.
  assert (Hz0 : (0 <= z)%Z) by (apply Zfloor_lub; simpl; lra).
  assert (Hzb : (z <= bound * 10)%Z).
  { apply Z.lt_succ_r. apply lt_IZR. rewrite succ_IZR, mult_IZR. lra. }
  apply IZR_le in Hz0, Hzb. rewrite mult_IZR in Hzb. lra.
Qed.

Lemma sampledDistance_haversine (satrec : Satrec) (step : Z) (d : number) :
  sampledDistance' satrec step = Some d ->
  exists subLat subLon : number,
    d = haversineDistance latitude longitude subLat subLon.
Proof.
  unfold sampledDistance.
  destruct (subpointAt propagate gstime eciToGeodetic degreesLat
              degreesLong satrec (now + step * 1000))
    as [[[[subLat subLon] height]|]|]; try discriminate.
  intros Heq. injection Heq as <-. now exists subLat, subLon.
Qed.

(** What a pushed pass holds. *)
Lemma pushed_pass_bounds (tle : TleSet) (pass : SatellitePass) :
  tryTle' tle = Pushed pass ->
  passName pass = trim (name tle) /\
  noradId pass = parseInt10 (slice (line1 tle) 2 7) /\
  exists d : R, distanceKm pass = Fin d /\ (0 <= d <= 2500)%R.
Proof.
  intros Hpass.
  apply tryTle_pushed in Hpass
    as (satrec & best & time & _ & Hloop & Htime & Hnear & ->).
  cbn [passName noradId distanceKm]. split; [reflexivity|].
  split; [reflexivity|].
  apply sampleLoop_spec in Hloop as (_ & _ & _ & Hfrom & _);
    [|discriminate|reflexivity].
  destruct Hfrom as [->|(step & _ & Hd & _)]; [discriminate|].
  apply sampledDistance_haversine in Hd as (subLat & subLon & Hd).
  rewrite Hd in Hnear |- *.
  destruct (haversineDistance_cases latitude longitude subLat subLon)
    as [Hnan|(d & Hfin & Hrange)].
  - rewrite Hnan in Hnear. discriminate.
  - rewrite Hfin in Hnear |- *. cbn [toFixed1].
    exists (RtoFixed1 d). split; [reflexivity|].
    apply (@RtoFixed1_bounds d 2500).
    revert Hnear. cbn [ltb]. destruct (Rlt_dec d 2500); [lra|discriminate].
Qed.

Lemma collectPasses_length (tles : list TleSet) :
  (List.length (collectPasses' tles) <= List.length tles)%nat.
Proof.
  unfold collectPasses.
  induction tles as [|tle rest IH]; [reflexivity|].
  cbn [flat_map]. rewrite length_app. cbn [List.length].
  destruct (tryTle' tle); cbn [pushed List.length]; lia.
Qed.

(** X4: the list of passes has at most five entries and at most one per
    record; every pass in it comes from one of the records, carries the
    trimmed name of that record and the number read from columns 3 to 7 of
    its first line, and a distance that is a number between 0 and 2500 km,
    never NaN and never infinite. *)
Theorem computeSatellitePasses_bounds :
  forall tles : list TleSet,
    let passes := computeSatellitePasses' tles in
    (List.length passes <= 5)%nat /\
    (List.length passes <= List.length tles)%nat /\
    Forall (fun pass =>
              (exists d : R,
                  distanceKm pass = Fin d /\ (0 <= d <= 2500)%R) /\
              exists tle : TleSet,
                In tle tles /\
                tryTle' tle = Pushed pass /\
                passName pass = trim (name tle) /\
                noradId pass = parseInt10 (slice (line1 tle) 2 7))
           passes.
Proof.
  intros tles passes. unfold passes, computeSatellitePasses.
  split; [apply firstn_le_length|]. split.
  - rewrite length_firstn, sortBy_length.
    pose proof (collectPasses_length tles). lia.
  - apply Forall_forall. intros pass Hin.
    apply in_firstn in Hin.
    eapply Permutation_in in Hin; [|apply sortBy_perm].
    unfold collectPasses in Hin. apply in_flat_map in Hin as (tle & Htle & Hin).
    destruct (tryTle' tle) as [| |pass'] eqn:Hout; cbn [pushed] in Hin;
      try contradiction.
    destruct Hin as [<-|[]].
    destruct (pushed_pass_bounds _ Hout) as (Hname & Hid & Hdist).
    split; [exact Hdist|]. exists tle. auto.
Qed.

(** X5: a record whose processing throws, or that has no sample within
    range, leaves no trace: the passes are those computed from the records
    that push one, in their order. *)
Theorem computeSatellitePasses_skips_failures :
  forall tles : list TleSet,
    computeSatellitePasses' tles =
    computeSatellitePasses'
      (filter (fun tle =>
                 match tryTle' tle with Pushed _ => true | _ => false end)
         tles) /\
    forall before after : list TleSet,
    forall tle : TleSet,
      tryTle' tle = Threw \/ tryTle' tle = NoPass ->
      computeSatellitePasses' (before ++ tle :: after) =
      computeSatellitePasses' (before ++ after).
Proof.
  intros tles. split.
  - unfold computeSatellitePasses. do 2 f_equal. unfold collectPasses.
    induction tles as [|tle rest IH]; [reflexivity|].
    cbn [flat_map filter].
    destruct (tryTle' tle) as [| |pass] eqn:Hout; cbn [pushed app];
      try exact IH.
    cbn [flat_map]. rewrite Hout. cbn [pushed app]. now f_equal.
  - intros before after tle Hfails.
    unfold computeSatellitePasses, collectPasses.
    rewrite !flat_map_app. cbn [flat_map].
    now destruct Hfails as [-> | ->].
Qed.

End PassBounds.

(** ** The location route: alerts, precipitation and statuses *)

Section RouteAnswers.

Local Open Scope js_scope.

Variable Satrec : Type.
Variable Position : Type.
Variable twoline2satrec : jsstring -> jsstring -> option Satrec.
Variable propagate : Satrec -> Z -> option Position.
Variable gstime : Z -> number.
Variable eciToGeodetic : Position -> number -> Geodetic.
Variable degreesLat : number -> option number.
Variable degreesLong : number -> option number.
Variable toISOString : Z -> jsstring.
Variable now : Z.
Variable parseFloat : jsstring -> number.
Variable dateISO : number -> jsstring.
Variable Links : Type.
Variable buildNasaTileUrl : number -> number -> jsstring.
Variable buildFallbackImagery : number -> number -> jsstring.
Variable buildLinks : jsstring -> number -> number -> Links.

Local Abbreviation GET' :=
  (GET twoline2satrec propagate gstime eciToGeodetic degreesLat degreesLong
     toISOString now parseFloat dateISO buildNasaTileUrl
     buildFallbackImagery buildLinks).
Local Abbreviation tryLoad' :=
  (tryLoad twoline2satrec propagate gstime eciToGeodetic degreesLat
     degreesLong toISOString now dateISO buildNasaTileUrl
     buildFallbackImagery buildLinks).
Local Abbreviation alertOf' := (alertOf toISOString now dateISO).
Local Abbreviation alertsOf' := (alertsOf toISOString now dateISO).
Local Abbreviation alertsOfFeed' := (alertsOfFeed toISOString now dateISO).

Lemma happenedAtOf_cases (feature : Feature) :
  if timeFails feature
  then happenedAtOf toISOString now dateISO feature = None
  else exists happened : jsstring,
      happenedAtOf toISOString now dateISO feature = Some happened.
Proof.
  unfold timeFails, happenedAtOf.
  destruct (featureTime feature) as [time|]; [|now eexists].
  destruct (truthy time); [|now eexists].
  destruct (validTime time); cbn [negb andb]; [now eexists|reflexivity].
Qed.

Lemma alertOf_cases (latitude longitude : number) (feature : Feature) :
  let distance := featureDistance latitude longitude feature in
  if distance >? ALERT_RADIUS_KM
  then alertOf' latitude longitude feature = Some None
  else if timeFails feature
  then alertOf' latitude longitude feature = None
  else exists alert : AlertInfo,
      alertOf' latitude longitude feature = Some (Some alert) /\
      alertId alert = featureId feature /\
      alertMagnitude alert = featureMag feature /\
      alertSeverity alert = severityOfMagnitude (featureMag feature) /\
      alertDistanceKm alert = toFixed1 distance.
Proof.
  unfold alertOf, featureDistance.
  destruct (featureCoordinates feature) as [[eventLon eventLat] depth].
  cbv zeta.
  destruct (haversineDistance latitude longitude eventLat eventLon
            >? ALERT_RADIUS_KM); [reflexivity|].
  pose proof (happenedAtOf_cases feature) as Htime.
  destruct (timeFails feature).
  - now rewrite Htime.
  - destruct Htime as (happened & ->).
    eexists. split; [reflexivity|]. repeat split.
Qed.

Lemma keepSome_filter {A B : Type} (f : A -> option B) (xs : list A) :
  map Some (keepSome f xs) =
  map f (filter (fun x => match f x with Some _ => true | None => false end)
           xs).
Proof.
  induction xs as [|x rest IH]; [reflexivity|].
  cbn [keepSome filter]. destruct (f x) eqn:Hfx.
  - cbn [map]. rewrite Hfx. now f_equal.
  - exact IH.
Qed.

(** The map over the feed throws exactly on a feature near the point whose
    time fails; otherwise the alerts are those of the near features, in
    the order of the feed. *)
Lemma alertsOf_cases (latitude longitude : number) (fs : list Feature) :
  let near feature :=
    negb (featureDistance latitude longitude feature >? #500) in
  if existsb (timeThrows latitude longitude) fs
  then alertsOf' latitude longitude fs = None
  else exists alerts : list AlertInfo,
      alertsOf' latitude longitude fs = Some alerts /\
      map alertId alerts = map featureId (filter near fs) /\
      map alertMagnitude alerts = map featureMag (filter near fs) /\
      map alertDistanceKm alerts =
        map (fun feature =>
               toFixed1 (featureDistance latitude longitude feature))
          (filter near fs).
Proof.
  intros near. unfold alertsOf.
  induction fs as [|feature rest IH].
  - cbn [existsb mapThrowing keepSome]. eexists. now repeat split.
  - cbn [existsb mapThrowing filter]. unfold timeThrows at 1.
    assert (Hnear : near feature =
                    negb (featureDistance latitude longitude feature
                          >? #500)) by reflexivity.
    rewrite Hnear. clear Hnear.
    pose proof (alertOf_cases latitude longitude feature) as Hcase.
    cbv zeta in Hcase. unfold ALERT_RADIUS_KM in *.
    destruct (featureDistance latitude longitude feature >? #500);
      cbn [negb andb orb].
    + rewrite Hcase.
      destruct (existsb (timeThrows latitude longitude) rest).
      * destruct (mapThrowing (alertOf' latitude longitude) rest);
          [discriminate|reflexivity].
      * destruct IH as (alerts & Hrest & Hids).
        destruct (mapThrowing (alertOf' latitude longitude) rest)
          as [results|]; [|discriminate].
        injection Hrest as <-. cbn [keepSome]. eexists.
        split; [reflexivity|exact Hids].
    + destruct (timeFails feature); cbn [orb].
      * now rewrite Hcase.
      * destruct Hcase as (alert & -> & Hid & Hmag & _ & Hd).
        destruct (existsb (timeThrows latitude longitude) rest).
        -- destruct (mapThrowing (alertOf' latitude longitude) rest);
             [discriminate|reflexivity].
        -- destruct IH as (alerts & Hrest & IH1 & IH2 & IH3).
           destruct (mapThrowing (alertOf' latitude longitude) rest)
             as [results|]; [|discriminate].
           injection Hrest as <-. cbn [keepSome]. eexists.
           split; [reflexivity|]. cbn [map].
           rewrite Hid, Hmag, Hd, IH1, IH2, IH3. now repeat split.
Qed.

(** An alert lies within the alert radius, unless its distance is NaN. *)
Lemma alertsOf_distances (latitude longitude : number) (fs : list Feature)
    (alerts : list AlertInfo) :
  alertsOf' latitude longitude fs = Some alerts ->
  Forall (fun alert =>
            alertDistanceKm alert = NaN \/
            exists d : R,
              alertDistanceKm alert = Fin d /\ (0 <= d <= 500)%R)
    alerts.
Proof.
  intros Halerts.
  pose proof (alertsOf_cases latitude longitude fs) as Hcase.
  cbv zeta in Hcase.
  destruct (existsb (timeThrows latitude longitude) fs); [congruence|].
  destruct Hcase as (alerts' & Heq & _ & _ & Hdists).
  assert (alerts' = alerts) as -> by congruence.
  assert (Hall : Forall (fun d => d = NaN \/
                           exists r : R, d = Fin r /\ (0 <= r <= 500)%R)
                   (map alertDistanceKm alerts)).
  { rewrite Hdists. apply Forall_forall. intros d Hin.
    apply in_map_iff in Hin as (feature & <- & Hin).
    apply filter_In in Hin as [_ Hnear].
    apply negb_true_iff in Hnear. revert Hnear. unfold featureDistance.
    destruct (featureCoordinates feature) as [[eventLon eventLat] depth].
    destruct (haversineDistance_cases latitude longitude eventLat eventLon)
      as [->|(r & -> & Hr)]; [now left|].
    intros Hnear. right. cbn [toFixed1]. exists (RtoFixed1 r).
    split; [reflexivity|]. apply (@RtoFixed1_bounds r 500).
    revert Hnear. unfold gtb. cbn [ltb].
    destruct (Rlt_dec 500 r); [discriminate|lra]. }
  apply Forall_forall. intros alert Hin.
  rewrite Forall_forall in Hall. apply Hall. now apply in_map.
Qed.

(** X6: the map over the seismic feed throws exactly when the feed holds
    a feature that is not farther than 500 km and whose time is truthy
    and beyond what a date holds.  When it does not throw, a feature is
    dropped exactly when its distance to the request point compares
    greater than 500 km, so a feature whose distance is NaN stays; the
    alerts keep the order of the feed, and every alert carries the id and
    magnitude of its feature and a distance that is NaN or a number
    between 0 and 500 km. *)
Theorem alerts_within_radius :
  forall (latitude longitude : number) (fs : list Feature),
    let near feature :=
      negb (featureDistance latitude longitude feature >? #500) in
    (alertsOf' latitude longitude fs = None <->
     exists feature : Feature,
       In feature fs /\ near feature = true /\
       timeFails feature = true) /\
    (forall alerts : list AlertInfo,
        alertsOf' latitude longitude fs = Some alerts ->
        map alertId alerts = map featureId (filter near fs) /\
        map alertMagnitude alerts = map featureMag (filter near fs) /\
        map alertDistanceKm alerts =
          map (fun feature =>
                 toFixed1 (featureDistance latitude longitude feature))
            (filter near fs) /\
        Forall (fun alert =>
                  alertDistanceKm alert = NaN \/
                  exists d : R,
                    alertDistanceKm alert = Fin d /\ (0 <= d <= 500)%R)
          alerts).
Proof.
  intros latitude longitude fs near.
  pose proof (alertsOf_cases latitude longitude fs) as Hcase.
  cbv zeta in Hcase. fold near in Hcase.
  destruct (existsb (timeThrows latitude longitude) fs) eqn:Hthrows.
  - split.
    + split; [intros _|intros _; exact Hcase].
      apply existsb_exists in Hthrows as (feature & Hin & Hfeature).
      unfold timeThrows, ALERT_RADIUS_KM in Hfeature.
      apply andb_true_iff in Hfeature as [Hnear Hfails].
      now exists feature.
    + intros alerts Halerts. congruence.
  - destruct Hcase as (found & Hfound & Hids & Hmags & Hdists). split.
    + split; [congruence|].
      intros (feature & Hin & Hnear & Hfails). exfalso.
      assert (Hex : existsb (timeThrows latitude longitude) fs = true).
      { apply existsb_exists. exists feature. split; [exact Hin|].
        unfold timeThrows, ALERT_RADIUS_KM. fold (near feature).
        now rewrite Hnear, Hfails. }
      congruence.
    + intros alerts Halerts.
      assert (found = alerts) as -> by congruence.
      split; [exact Hids|]. split; [exact Hmags|]. split; [exact Hdists|].
      exact (alertsOf_distances latitude longitude fs Halerts).
Qed.

Lemma sum_finite (values : list R) (acc : R) :
  fold_left add (map Fin values) (Fin acc) =
  Fin (fold_left Rplus values acc).
Proof.
  revert acc. induction values as [|v rest IH]; intros acc; [reflexivity|].
  cbn [map fold_left add]. apply IH.
Qed.

Lemma sum_between (lo hi : R) (values : list R) (acc : R) :
  Forall (fun v => (lo <= v <= hi)%R) values ->
  (acc + INR (List.length values) * lo
     <= fold_left Rplus values acc
     <= acc + INR (List.length values) * hi)%R.
Proof.
  intros Hall. revert acc.
  induction Hall as [|v rest Hv _ IH]; intros acc.
  - simpl. lra.
  - change (List.length (v :: rest)) with (S (List.length rest)).
    rewrite S_INR. cbn [fold_left]. specialize (IH (acc + v)%R). lra.
Qed.

Lemma sum_nonneg (values : list R) (acc : R) :
  Forall (fun v => (0 <= v)%R) values -> (0 <= acc)%R ->
  (0 <= fold_left Rplus values acc)%R.
Proof.
  intros Hall. revert acc.
  induction Hall as [|v rest Hv _ IH]; intros acc Hacc; [exact Hacc|].
  cbn [fold_left]. apply IH. lra.
Qed.

Lemma sum_NaN (values : list number) : fold_left add values NaN = NaN.
Proof. induction values as [|v rest IH]; [reflexivity|exact IH]. Qed.

Lemma sum_with_NaN (values : list number) (acc : number) :
  In NaN values -> fold_left add values acc = NaN.
Proof.
  revert acc. induction values as [|v rest IH]; intros acc Hin;
    [contradiction|].
  cbn [fold_left]. destruct Hin as [->|Hin].
  - rewrite add_NaN_r. apply sum_NaN.
  - now apply IH.
Qed.

Lemma divisor_of_mean (n : nat) :
  (0 < n)%nat ->
  min2 #6 (ofNat n) = Fin (INR (Nat.min 6 n)) /\ (1 <= INR (Nat.min 6 n))%R.
Proof.
  intros Hn. unfold ofNat. rewrite min2_Fin. split.
  - f_equal. destruct (Nat.le_gt_cases 6 n) as [H|H].
    + rewrite Nat.min_l by lia. apply le_INR in H. simpl in H.
      rewrite Rmin_left by lra. simpl. lra.
    + rewrite Nat.min_r by lia. apply lt_INR in H. simpl in H.
      rewrite Rmin_right by lra. reflexivity.
  - change 1%R with (INR 1). apply le_INR. lia.
Qed.

(** X7: the average precipitation is null exactly for an empty series;
    values after the sixth change nothing, whatever they are; a single
    reading averages to itself; readings that are all finite and not
    negative never average below zero; and a NaN among the first six
    readings makes the average NaN. *)
Theorem averagePrecipitation_first_six :
  (forall precipitation : list number,
      averagePrecipitationOf precipitation = None <-> precipitation = []) /\
  (forall six later : list number,
      List.length six = 6%nat ->
      averagePrecipitationOf (six ++ later) = averagePrecipitationOf six) /\
  (forall value : R,
      averagePrecipitationOf [Fin value] = Some (Fin value)) /\
  (forall values : list R,
      values <> [] ->
      Forall (fun v => (0 <= v)%R) (firstn 6 values) ->
      exists mean : number,
        averagePrecipitationOf (map Fin values) = Some mean /\
        (#0 <=? mean) = true) /\
  (forall precipitation : list number,
      In NaN (firstn 6 precipitation) ->
      averagePrecipitationOf precipitation = Some NaN).
Proof.
  split; [|split; [|split; [|split]]].
  - intros precipitation. unfold averagePrecipitationOf.
    destruct precipitation as [|v rest]; cbn [List.length Nat.ltb Nat.leb].
    + split; reflexivity.
    + split; discriminate.
  - intros six later Hsix. unfold averagePrecipitationOf.
    rewrite length_app, Hsix.
    replace (firstn 6 (six ++ later)) with six.
    2:{ rewrite firstn_app, Hsix, Nat.sub_diag, firstn_O, app_nil_r.
        symmetry. apply firstn_all2. lia. }
    rewrite (firstn_all2 six) by lia.
    assert (Hpos : (0 <? 6 + List.length later)%nat = true)
      by (apply Nat.ltb_lt; lia).
    rewrite Hpos. cbn [Nat.ltb Nat.leb]. do 2 f_equal.
    unfold ofNat. rewrite !min2_Fin. f_equal.
    rewrite plus_INR. pose proof (pos_INR (List.length later)).
    simpl INR. rewrite Rmin_left by lra. rewrite Rmin_left by lra.
    reflexivity.
  - intros value. unfold averagePrecipitationOf, sumNumbers.
    cbn [List.length Nat.ltb Nat.leb firstn fold_left add].
    destruct (@divisor_of_mean 1) as [-> _]; [lia|].
    cbn [Nat.min INR]. rewrite div_Fin by lra. do 2 f_equal. lra.
  - intros values Hne Hall. unfold averagePrecipitationOf, sumNumbers.
    rewrite length_map.
    assert (Hlen : (0 < List.length values)%nat).
    { destruct values; [congruence|simpl; lia]. }
    apply Nat.ltb_lt in Hlen as Hpos. rewrite Hpos.
    rewrite firstn_map, sum_finite.
    destruct (divisor_of_mean Hlen) as [-> Hk].
    rewrite div_Fin by lra.
    eexists. split; [reflexivity|].
    pose proof (sum_nonneg Hall (Rle_refl 0)) as Hsum.
    assert (0 <= fold_left Rplus (firstn 6 values) 0 /
                 INR (Nat.min 6 (List.length values)))%R.
    { apply Rmult_le_reg_r with (r := INR (Nat.min 6 (List.length values)));
        [lra|].
      unfold Rdiv. rewrite Rmult_assoc, Rinv_l by lra. lra. }
    js_crush.
  - intros precipitation Hin. unfold averagePrecipitationOf, sumNumbers.
    assert (Hlen : (0 < List.length precipitation)%nat).
    { destruct precipitation; [destruct Hin|simpl; lia]. }
    apply Nat.ltb_lt in Hlen as Hpos. rewrite Hpos.
    now rewrite (sum_with_NaN _ _ Hin).
Qed.

(** X8: the status of the answer is decided in this order: 400 when a
    coordinate is missing, empty or does not parse to a finite number,
    whatever the feeds answer; otherwise 200 when reverse geocoding and
    weather answer ok with a body that reads, each of the three other
    feeds answers, ok with a body that reads or not ok, no seismic event
    near the point has a time beyond what a date holds, and the name of
    the links can be encoded; otherwise 502. *)
Theorem GET_status :
  forall (latParam lonParam nameParam : option jsstring)
         (reverseRes : Fetched ReversePayload)
         (weatherRes : Fetched WeatherPayload)
         (topoRes : Fetched TopoPayload)
         (usgsRes : Fetched UsgsPayload)
         (tleRes : Fetched jsstring),
    let parsed param :=
      match param with Some text => parseFloat text | None => NaN end in
    statusOf
      (GET' latParam lonParam nameParam
         reverseRes weatherRes topoRes usgsRes tleRes) =
    if negb (validRequest parseFloat latParam lonParam) then 400%Z
    else if readable reverseRes && readable weatherRes &&
            degradable topoRes && degradable usgsRes && degradable tleRes &&
            alertsFormat (parsed latParam) (parsed lonParam) usgsRes &&
            nameEncodes nameParam reverseRes
         then 200%Z
         else 502%Z.
Proof.
  intros latParam lonParam nameParam
    reverseRes weatherRes topoRes usgsRes tleRes parsed.
  unfold GET, validRequest, missing.
  destruct latParam as [lat|]; [|reflexivity].
  destruct lonParam as [lon|];
    [|destruct (nonEmpty lat); reflexivity].
  destruct (nonEmpty lat); [|reflexivity].
  destruct (nonEmpty lon); [|reflexivity].
  cbn [negb orb andb].
  destruct (isFinite (parseFloat lat)); [|reflexivity].
  destruct (isFinite (parseFloat lon)); [|reflexivity].
  cbn [negb orb andb]. unfold parsed.
  assert (Hfeed : forall payload : option UsgsPayload,
             match alertsOfFeed' (parseFloat lat) (parseFloat lon) payload
             with
             | Some _ => true
             | None => false
             end =
             match andThen payload features with
             | Some fs =>
                 negb (existsb (timeThrows (parseFloat lat) (parseFloat lon))
                         fs)
             | None => true
             end).
  { intros payload. unfold alertsOfFeed.
    destruct (andThen payload features) as [fs|]; [|reflexivity].
    pose proof (alertsOf_cases (parseFloat lat) (parseFloat lon) fs) as H.
    cbv zeta in H.
    destruct (existsb (timeThrows (parseFloat lat) (parseFloat lon)) fs).
    - now rewrite H.
    - now destruct H as (alerts & -> & _). }
  unfold tryLoad, alertsFormat, nameEncodes, linksOf.
  destruct reverseRes as [|[] sR [bR|]]; try reflexivity;
    destruct weatherRes as [|[] sW [bW|]]; try reflexivity;
    destruct topoRes as [|[] sT [bT|]]; try reflexivity;
    destruct usgsRes as [|[] sU [bU|]]; try reflexivity;
    destruct tleRes as [|[] sL [bL|]]; try reflexivity;
    cbn [negb bodyIfOk payloadOf readable degradable andb];
    rewrite <- Hfeed;
    match goal with
    | |- context [alertsOfFeed ?a ?b ?c ?d ?e ?f] =>
        destruct (alertsOfFeed a b c d e f)
    end; try reflexivity;
    cbn [andb andThen];
    match goal with
    | |- context [wellFormed ?n] => destruct (wellFormed n)
    end; reflexivity.
Qed.

End RouteAnswers.

(** ** The weather cells: the range of the severity *)

Section SeverityRange.

Local Open Scope js_scope.

Lemma severity_cases (p w c : number) :
  let st := classifyWeather p w c in
  let base :=
    match st with
    | storm => p + w * #0.4
    | rain => p
    | wind => w
    | cloudy => c
    | clear => #5
    end in
  exists s : R,
    min2 #1 (base / #20) = Fin s /\
    (0.1 <= s <= 1)%R /\
    match st with
    | storm => (0.64 <= s)%R
    | rain => True
    | wind => (0.6 <= s)%R
    | cloudy => s = 1%R
    | clear => s = 0.25%R
    end.
Proof.
  unfold classifyWeather, storm_precipitation, storm_wind,
    rain_precipitation, wind_wind, cloudy_cloudcover.
  destruct p as [| |p|], w as [| |w|], c as [| |c|];
    js_unfold; simpl; decide_reals; simpl; decide_reals;
    eexists; (split; [reflexivity|]); split; try lra; auto.
Qed.

Lemma weatherCellOf_severity (cell : WeatherObservation) :
  exists s : R,
    severity (weatherCellOf cell) = Fin s /\
    (0.1 <= s <= 1)%R /\
    match status (weatherCellOf cell) with
    | storm => (0.64 <= s)%R
    | rain => True
    | wind => (0.6 <= s)%R
    | cloudy => s = 1%R
    | clear => s = 0.25%R
    end.
Proof.
  pose proof (severity_cases (precipitation cell) (windspeed cell)
                (cloudcover cell)) as H.
  cbv zeta in H. unfold weatherCellOf, severityBase.
  cbn [severity status].
  destruct (classifyWeather (precipitation cell) (windspeed cell)
              (cloudcover cell)); exact H.
Qed.

Lemma loadWeatherCells_unit (samples : list WeatherObservation) :
  Forall (fun cell => unitInterval (severity cell))
    (loadWeatherCells samples).
Proof.
  unfold loadWeatherCells. apply Forall_forall. intros cell Hin.
  apply in_map_iff in Hin as (sample & <- & _).
  destruct (weatherCellOf_severity sample) as (s & Hs & Hrange & _).
  exists s. split; [exact Hs|lra].
Qed.

(** X9: whatever the readings of an observation, NaN and the infinities
    included, the severity of its weather cell is a number between 0.1 and
    1: at least 0.64 for a storm, at least 0.6 for wind, exactly 1 for a
    cloudy cell and exactly 0.25 for a clear one; the cells come one per
    observation, in order, with its id and coordinates. *)
Theorem loadWeatherCells_severity_range :
  forall samples : list WeatherObservation,
    map cellId (loadWeatherCells samples) = map obsId samples /\
    map cellLatitude (loadWeatherCells samples) = map obsLatitude samples /\
    map cellLongitude (loadWeatherCells samples) =
      map obsLongitude samples /\
    Forall (fun cell =>
              exists s : R,
                severity cell = Fin s /\
                (0.1 <= s <= 1)%R /\
                match status cell with
                | storm => (0.64 <= s)%R
                | rain => True
                | wind => (0.6 <= s)%R
                | cloudy => s = 1%R
                | clear => s = 0.25%R
                end)
           (loadWeatherCells samples).
Proof.
  intros samples. unfold loadWeatherCells. rewrite !map_map.
  repeat (split; [reflexivity|]).
  apply Forall_forall. intros cell Hin.
  apply in_map_iff in Hin as (sample & <- & _).
  apply weatherCellOf_severity.
Qed.

End SeverityRange.

(** ** The heatmap: the coldest and the warmest sample *)

Section HeatmapExtremes.

Local Open Scope js_scope.

Lemma fold_min_attained (xs : list number) :
  forall a : R,
    Forall (fun t => isFinite t = true) xs ->
    exists m : R,
      fold_left min2 xs (Fin a) = Fin m /\ (m = a \/ In (Fin m) xs).
Proof.
  induction xs as [|t rest IH]; intros a Hall.
  - exists a. split; [reflexivity|now left].
  - inversion Hall as [|? ? Ht Hrest]; subst.
    destruct t as [| |x|]; try discriminate.
    cbn [fold_left]. rewrite min2_Fin.
    destruct (IH (Rmin a x) Hrest) as (m & Hm & Hfrom).
    exists m. split; [exact Hm|].
    destruct Hfrom as [->|Hin]; [|right; now right].
    unfold Rmin. destruct (Rle_dec a x); [now left|right; now left].
Qed.

Lemma fold_max_attained (xs : list number) :
  forall a : R,
    Forall (fun t => isFinite t = true) xs ->
    exists m : R,
      fold_left max2 xs (Fin a) = Fin m /\ (m = a \/ In (Fin m) xs).
Proof.
  induction xs as [|t rest IH]; intros a Hall.
  - exists a. split; [reflexivity|now left].
  - inversion Hall as [|? ? Ht Hrest]; subst.
    destruct t as [| |x|]; try discriminate.
    cbn [fold_left]. rewrite max2_Fin.
    destruct (IH (Rmax a x) Hrest) as (m & Hm & Hfrom).
    exists m. split; [exact Hm|].
    destruct Hfrom as [->|Hin]; [|right; now right].
    unfold Rmax. destruct (Rle_dec a x); [right; now left|now left].
Qed.

(** The minimum and the maximum of a batch of finite numbers are two of
    its numbers. *)
Lemma batch_extremes (xs : list number) :
  xs <> [] ->
  Forall (fun t => isFinite t = true) xs ->
  exists lo hi : R,
    minOf xs = Fin lo /\ maxOf xs = Fin hi /\
    In (Fin lo) xs /\ In (Fin hi) xs /\
    (forall x : R, In (Fin x) xs -> (lo <= x <= hi)%R).
Proof.
  intros Hne Hall.
  destruct (batch_bounds Hne Hall) as (lo & hi & Hlo & Hhi & Hbounds).
  exists lo, hi. split; [exact Hlo|]. split; [exact Hhi|].
  destruct xs as [|t rest]; [congruence|].
  inversion Hall as [|? ? Ht Hrest]; subst.
  destruct t as [| |x0|]; try discriminate.
  unfold minOf, maxOf in Hlo, Hhi. cbn [fold_left] in Hlo, Hhi.
  assert (Hmin0 : min2 PosInf (Fin x0) = Fin x0) by js_crush.
  assert (Hmax0 : max2 NegInf (Fin x0) = Fin x0) by js_crush.
  rewrite Hmin0 in Hlo. rewrite Hmax0 in Hhi.
  destruct (fold_min_attained x0 Hrest) as (m & Hm & Hmfrom).
  destruct (fold_max_attained x0 Hrest) as (n & Hn & Hnfrom).
  rewrite Hm in Hlo. rewrite Hn in Hhi.
  injection Hlo as ->. injection Hhi as ->.
  split; [|split; [|exact Hbounds]].
  - destruct Hmfrom as [->|Hin]; [now left|now right].
  - destruct Hnfrom as [->|Hin]; [now left|now right].
Qed.

Lemma normalize_affine (t lo hi : R) :
  (lo < hi)%R -> normalize #t #lo #hi = Fin ((t - lo) / (hi - lo)).
Proof.
  intros Hlt. unfold normalize. cbn [isFinite negb orb].
  unfold strict_eq. destruct (Req_dec_T lo hi) as [Heq|_]; [lra|].
  cbn [sub neg add]. rewrite div_Fin by lra. reflexivity.
Qed.

(** X10: the heatmap keeps one point per sample, in order, with its id,
    name and coordinates.  For a batch of finite temperatures of
    magnitude at most 1e300, the coldest and the warmest temperature, lo
    and hi, are those of two samples, and the points are those of the
    samples normalized between lo and hi; when lo and hi differ, the
    intensity of a sample is a level of its temperature that is 0 at lo,
    1 at hi, within [0, 1] and never lower for a warmer sample, so the
    coldest samples get 0 and the warmest get 1. *)
Theorem loadHeatmapData_extremes :
  (forall samples : list WeatherObservation,
      map hpId (loadHeatmapData samples) = map obsId samples /\
      map hpName (loadHeatmapData samples) = map obsName samples /\
      map hpLatitude (loadHeatmapData samples) = map obsLatitude samples /\
      map hpLongitude (loadHeatmapData samples) =
        map obsLongitude samples) /\
  (forall samples : list WeatherObservation,
      samples <> [] ->
      Forall (fun cell => safeMagnitude (temperature cell)) samples ->
      exists lo hi : R,
        In (Fin lo) (map temperature samples) /\
        In (Fin hi) (map temperature samples) /\
        (forall t : R,
            In (Fin t) (map temperature samples) -> (lo <= t <= hi)%R) /\
        loadHeatmapData samples = map (heatmapPointOf #lo #hi) samples /\
        ((lo < hi)%R ->
         exists level : R -> R,
           level lo = 0%R /\ level hi = 1%R /\
           (forall a b : R,
               (lo <= a)%R -> (a <= b)%R -> (b <= hi)%R ->
               (0 <= level a <= level b)%R /\ (level b <= 1)%R) /\
           map intensity (loadHeatmapData samples) =
             map (fun cell =>
                    match temperature cell with
                    | Fin t => Fin (level t)
                    | _ => #0
                    end) samples /\
           In #0 (map intensity (loadHeatmapData samples)) /\
           In #1 (map intensity (loadHeatmapData samples)))).
Proof.
  split.
  - intros samples. destruct samples as [|s rest]; [now repeat split|].
    unfold loadHeatmapData. rewrite !map_map. now repeat split.
  - intros samples Hne Hsafe.
    assert (Hall : Forall (fun cell => isFinite (temperature cell) = true)
                     samples).
    { eapply Forall_impl; [|exact Hsafe].
      intros cell. apply safeMagnitude_finite. }
    assert (Hts : Forall (fun t => isFinite t = true)
                    (map temperature samples)).
    { apply Forall_forall. intros u Hu.
      apply in_map_iff in Hu as (cell & <- & Hcell).
      rewrite Forall_forall in Hall. now apply Hall. }
    assert (Hne' : map temperature samples <> []).
    { destruct samples; [congruence|discriminate]. }
    destruct (batch_extremes Hne' Hts)
      as (lo & hi & Hlo & Hhi & Hinlo & Hinhi & Hbounds).
    exists lo, hi. split; [exact Hinlo|]. split; [exact Hinhi|].
    split; [exact Hbounds|].
    assert (Hload : loadHeatmapData samples =
                    map (heatmapPointOf #lo #hi) samples).
    { destruct samples as [|s rest]; [congruence|].
      unfold loadHeatmapData. now rewrite Hlo, Hhi. }
    split; [exact Hload|]. intros Hlt.
    set (level := fun t : R => ((t - lo) / (hi - lo))%R).
    assert (Hlevels : map intensity (loadHeatmapData samples) =
                      map (fun cell =>
                             match temperature cell with
                             | Fin t => Fin (level t)
                             | _ => #0
                             end) samples).
    { rewrite Hload, map_map. apply map_ext_in. intros cell Hin.
      unfold heatmapPointOf. cbn [intensity].
      rewrite Forall_forall in Hall. specialize (Hall cell Hin).
      destruct (temperature cell) as [| |t|]; try discriminate.
      now apply normalize_affine. }
    assert (Hpos : (0 < / (hi - lo))%R) by (apply Rinv_0_lt_compat; lra).
    exists level. split; [|split; [|split; [|split; [exact Hlevels|split]]]].
    + unfold level, Rdiv. lra.
    + unfold level, Rdiv. rewrite Rinv_r; lra.
    + intros a b Ha Hab Hb. unfold level, Rdiv. repeat split.
      * apply Rmult_le_pos; lra.
      * apply Rmult_le_compat_r; lra.
      * apply Rmult_le_reg_r with (r := (hi - lo)%R); [lra|].
        rewrite Rmult_assoc, Rinv_l by lra. lra.
    + rewrite Hlevels.
      apply in_map_iff in Hinlo as (cell & Ht & Hin).
      apply in_map_iff. exists cell. split; [|exact Hin].
      rewrite Ht. f_equal. unfold level, Rdiv. lra.
    + rewrite Hlevels.
      apply in_map_iff in Hinhi as (cell & Ht & Hin).
      apply in_map_iff. exists cell. split; [|exact Hin].
      rewrite Ht. f_equal. unfold level, Rdiv. rewrite Rinv_r; lra.
Qed.

(** The theorem at work on a cold and a warm sample. *)
Lemma loadHeatmapData_extremes_witness :
  let samples :=
    [ mkObservation (lit "osl") (lit "Oslo") #59.9139 #10.7522
        #3 #0 #0 #0;
      mkObservation (lit "dub") (lit "Dubai") #25.276987 #55.296249
        #33 #0 #0 #0 ] in
  exists lo hi : R,
    In (Fin lo) (map temperature samples) /\
    In (Fin hi) (map temperature samples) /\
    (forall t : R,
        In (Fin t) (map temperature samples) -> (lo <= t <= hi)%R).
Proof.
  intros samples.
  destruct (proj2 loadHeatmapData_extremes samples)
    as (lo & hi & Hlo & Hhi & Hbounds & _).
  - discriminate.
  - repeat constructor; eexists; (split; [reflexivity|]);
      rewrite Rabs_right; lra.
  - now exists lo, hi.
Defined.

End HeatmapExtremes.

(** ** The route arcs: small inputs and ranges *)

Section RouteArcEdges.

Local Open Scope js_scope.

Lemma buildRouteArcs_map (points : list HeatmapPoint) (d : HeatmapPoint) :
  (2 <= List.length points)%nat ->
  let sorted := firstn 6 (sortBy byIntensityDescending points) in
  buildRouteArcs points =
  map (fun index =>
         arcBetween (nth index sorted d)
           (nth ((index + 2) mod List.length sorted) sorted d))
    (seq 0 (List.length sorted - 1)).
Proof.
  intros Hlen sorted. unfold buildRouteArcs.
  apply Nat.ltb_ge in Hlen. rewrite Hlen. fold sorted.
  apply flat_map_singletons. intros index Hin. apply in_seq in Hin.
  apply arcAt_in_range. lia.
Qed.

Lemma buildRouteArcs_length (points : list HeatmapPoint) :
  List.length (buildRouteArcs points) =
  if (List.length points <? 2)%nat then 0%nat
  else (Nat.min 6 (List.length points) - 1)%nat.
Proof.
  destruct (List.length points <? 2)%nat eqn:Hlen.
  - unfold buildRouteArcs. now rewrite Hlen.
  - apply Nat.ltb_ge in Hlen.
    rewrite (buildRouteArcs_map points (mkHeatmapPoint [] [] NaN NaN NaN None))
      by exact Hlen.
    rewrite length_map, length_seq, length_firstn, sortBy_length.
    reflexivity.
Qed.

Lemma buildRouteArcs_from_points (points : list HeatmapPoint)
    (arc : RouteArc) :
  In arc (buildRouteArcs points) ->
  exists source target : HeatmapPoint,
    In source points /\ In target points /\ arc = arcBetween source target.
Proof.
  unfold buildRouteArcs.
  destruct (List.length points <? 2)%nat; [contradiction|].
  set (sorted := firstn 6 (sortBy byIntensityDescending points)).
  intros Hin. apply in_flat_map in Hin as (index & _ & Hin).
  unfold arcAt in Hin.
  destruct (nth_error sorted index) as [source|] eqn:Hs;
    [|contradiction].
  destruct (nth_error sorted ((index + 2) mod List.length sorted))
    as [target|] eqn:Ht; [|contradiction].
  destruct Hin as [<-|[]].
  assert (Hback : forall p, In p sorted -> In p points).
  { intros p Hp. unfold sorted in Hp. apply in_firstn in Hp.
    eapply Permutation_in; [apply sortBy_perm|exact Hp]. }
  exists source, target.
  split; [apply Hback; eapply nth_error_In; eauto|].
  split; [apply Hback; eapply nth_error_In; eauto|reflexivity].
Qed.

Lemma mean_unit (a b : number) :
  unitInterval a -> unitInterval b -> unitInterval ((a + b) / #2).
Proof.
  intros (x & -> & Hx) (y & -> & Hy). cbn [add].
  rewrite div_Fin by lra. exists ((x + y) / 2)%R.
  split; [reflexivity|lra].
Qed.

(** X11: fewer than two points give no arc; two points give one arc, from
    the point that sorts first back to itself; there are never more than
    five arcs; every arc joins two of the points given; and intensities
    between 0 and 1 give magnitudes between 0 and 1. *)
Theorem buildRouteArcs_small_inputs :
  buildRouteArcs [] = [] /\
  (forall p : HeatmapPoint, buildRouteArcs [p] = []) /\
  (forall a b : HeatmapPoint,
      let top := if #0 <? intensity b - intensity a then b else a in
      buildRouteArcs [a; b] = [arcBetween top top]) /\
  (forall points : list HeatmapPoint,
      (List.length (buildRouteArcs points) <= 5)%nat /\
      List.length (buildRouteArcs points) =
        (if (List.length points <? 2)%nat then 0%nat
         else (Nat.min 6 (List.length points) - 1)%nat) /\
      Forall (fun arc =>
                exists source target : HeatmapPoint,
                  In source points /\ In target points /\
                  arc = arcBetween source target)
             (buildRouteArcs points)) /\
  (forall points : list HeatmapPoint,
      Forall (fun p => unitInterval (intensity p)) points ->
      Forall (fun arc => unitInterval (magnitude arc))
        (buildRouteArcs points)).
Proof.
  split; [reflexivity|]. split; [reflexivity|]. split; [|split].
  - intros a b top. unfold buildRouteArcs, sortBy. cbn [List.length Nat.ltb
      Nat.leb fold_right insertSorted].
    unfold comesAfter, byIntensityDescending. fold top.
    destruct (#0 <? intensity b - intensity a); reflexivity.
  - intros points. pose proof (buildRouteArcs_length points) as Hlen.
    split; [|split; [exact Hlen|]].
    + rewrite Hlen. destruct (List.length points <? 2)%nat; lia.
    + apply Forall_forall. intros arc Hin.
      now apply buildRouteArcs_from_points.
  - intros points Hunit. apply Forall_forall. intros arc Hin.
    apply buildRouteArcs_from_points in Hin
      as (source & target & Hs & Ht & ->).
    rewrite Forall_forall in Hunit. cbn [magnitude arcBetween].
    apply mean_unit; now apply Hunit.
Qed.

End RouteArcEdges.

(** ** Fetching the samples and loading the globe data *)

Section GlobeLoading.

Local Open Scope js_scope.

Variable now : Z.
Variable toISOString : Z -> jsstring.

Lemma fetchWeatherSample_readable (sample : WeatherSample)
    (reply : Fetched SamplePayload) :
  match fetchWeatherSample sample reply with
  | Some observation =>
      readable reply = true /\
      obsId observation = sampleId sample /\
      obsName observation = sampleName sample /\
      obsLatitude observation = sampleLatitude sample /\
      obsLongitude observation = sampleLongitude sample
  | None => readable reply = false
  end.
Proof.
  destruct reply as [|[] status [payload|]]; cbn; auto.
Qed.

Lemma fetched_fields (replyTo : WeatherSample -> Fetched SamplePayload)
    (locations : list WeatherSample) :
  let observations :=
    fulfilledValues
      (map (fun sample => fetchWeatherSample sample (replyTo sample))
         locations) in
  let answered := filter (fun sample => readable (replyTo sample)) locations in
  map obsId observations = map sampleId answered /\
  map obsName observations = map sampleName answered /\
  map obsLatitude observations = map sampleLatitude answered /\
  map obsLongitude observations = map sampleLongitude answered.
Proof.
  induction locations as [|sample rest IH]; [now repeat split|].
  cbv zeta in IH |- *. unfold fulfilledValues in *.
  cbn [map flat_map filter].
  pose proof (fetchWeatherSample_readable sample (replyTo sample)) as Hone.
  destruct (fetchWeatherSample sample (replyTo sample)) as [observation|].
  - destruct Hone as (-> & Hid & Hname & Hlat & Hlon).
    destruct IH as (IH1 & IH2 & IH3 & IH4).
    cbn [app map]. rewrite Hid, Hname, Hlat, Hlon, IH1, IH2, IH3, IH4.
    now repeat split.
  - rewrite Hone. exact IH.
Qed.

(** X12: the samples are the observations of the locations whose fetch
    answered ok with a body that reads, in the order of the locations and
    with the id, name and coordinates of each; a location whose fetch
    fails is left out, so there are at most eight samples and none when
    every fetch fails.  A payload without any reading gives zeros, which
    make a clear cell of severity 0.25. *)
Theorem fetchWeatherSamples_keeps_fulfilled :
  forall replyTo : WeatherSample -> Fetched SamplePayload,
    let observations := fetchWeatherSamples replyTo in
    let answered :=
      filter (fun sample => readable (replyTo sample))
        WEATHER_SAMPLE_LOCATIONS in
    map obsId observations = map sampleId answered /\
    map obsName observations = map sampleName answered /\
    map obsLatitude observations = map sampleLatitude answered /\
    map obsLongitude observations = map sampleLongitude answered /\
    (List.length observations <= 8)%nat /\
    ((forall sample, readable (replyTo sample) = false) ->
     observations = []) /\
    (forall (sample : WeatherSample) (code : Z),
        let bare := Replied true code (Some (mkSamplePayload None None)) in
        fetchWeatherSample sample bare =
          Some (mkObservation (sampleId sample) (sampleName sample)
                  (sampleLatitude sample) (sampleLongitude sample)
                  #0 #0 #0 #0) /\
        map status (loadWeatherCells (fulfilledValues
                                        [fetchWeatherSample sample bare])) =
          [clear] /\
        map severity (loadWeatherCells (fulfilledValues
                                          [fetchWeatherSample sample bare])) =
          [#0.25]).
Proof.
  intros replyTo observations answered.
  destruct (fetched_fields replyTo WEATHER_SAMPLE_LOCATIONS)
    as (Hid & Hname & Hlat & Hlon).
  fold (fetchWeatherSamples replyTo) in Hid, Hname, Hlat, Hlon.
  fold observations answered in Hid, Hname, Hlat, Hlon.
  assert (Hlen : List.length observations = List.length answered).
  { rewrite <- (length_map obsId observations), Hid. apply length_map. }
  repeat (split; [assumption|]).
  split; [|split].
  - rewrite Hlen. unfold answered.
    pose proof (filter_length_le
                  (fun sample => readable (replyTo sample))
                  WEATHER_SAMPLE_LOCATIONS) as Hle.
    exact Hle.
  - intros Hnone. apply length_zero_iff_nil. rewrite Hlen.
    unfold answered, WEATHER_SAMPLE_LOCATIONS. cbn [filter].
    now rewrite !Hnone.
  - intros sample code bare. split; [reflexivity|].
    assert (Hclear : classifyWeather #0 #0 #0 = clear).
    { unfold classifyWeather, storm_precipitation, storm_wind,
        rain_precipitation, wind_wind, cloudy_cloudcover. js_crush. }
    unfold bare, fetchWeatherSample, fulfilledValues, loadWeatherCells,
      weatherCellOf, observationOf, hourlyAt, latestIndex.
    cbn [negb flat_map app map status severity precipitation windspeed
         cloudcover valueOr andThen orElse spHourly spCurrent].
    rewrite Hclear. cbn [severityBase].
    split; [reflexivity|]. f_equal. apply clear_severity.
Qed.

End GlobeLoading.

(** ** Loading the globe data: sizes and ranges *)

Section GlobeDataRanges.

Local Open Scope js_scope.

Variable now : Z.
Variable toISOString : Z -> jsstring.

Lemma loadTimeline_unit (cells : list WeatherCell) :
  Forall (fun cell => unitInterval (severity cell)) cells ->
  let events := loadTimeline now toISOString cells in
  Forall unitInterval (channel heatmap events) /\
  Forall unitInterval (channel GlobeData.weather events) /\
  Forall unitInterval (channel routes events).
Proof.
  intros Hall events.
  destruct (loadTimeline_channels now toISOString cells)
    as (_ & Hh & Hw & Hr).
  fold events in Hh, Hw, Hr.
  destruct (meanSeverity_unit Hall) as (m & Hm & Hmb).
  split; [|split].
  - rewrite Hh, Hm. apply Forall_forall. intros x Hx.
    apply in_map_iff in Hx as (index & <- & _). apply ramp_unit; lra.
  - rewrite Hw, Hm. apply Forall_forall. intros x Hx.
    apply in_map_iff in Hx as (index & <- & _). apply ramp_unit; lra.
  - rewrite Hr. apply Forall_forall. intros x Hx.
    apply in_map_iff in Hx as (offset & <- & _). apply routes_unit.
Qed.

(** X13: whatever the eight fetches answer, the globe data holds one
    heatmap point and one weather cell for each fetch that succeeded, a
    timeline of six events, and no route arc below two successes, else one
    less than the number of successes, at most five; every severity and
    every multiplier of the timeline is a number between 0 and 1.  When
    every fetch fails the heatmap, the cells and the arcs are empty and
    the timeline is the one of a mean severity of 0. *)
Theorem loadGlobeData_ranges :
  forall replyTo : WeatherSample -> Fetched SamplePayload,
    let data := loadGlobeData now toISOString replyTo in
    let n := List.length (fetchWeatherSamples replyTo) in
    (n <= 8)%nat /\
    List.length (gdHeatmapPoints data) = n /\
    List.length (gdWeatherCells data) = n /\
    List.length (gdTimeline data) = 6%nat /\
    List.length (gdRouteArcs data) =
      (if (n <? 2)%nat then 0%nat else (Nat.min 6 n - 1)%nat) /\
    Forall (fun cell => unitInterval (severity cell)) (gdWeatherCells data) /\
    Forall unitInterval (channel heatmap (gdTimeline data)) /\
    Forall unitInterval (channel GlobeData.weather (gdTimeline data)) /\
    Forall unitInterval (channel routes (gdTimeline data)) /\
    ((forall sample, readable (replyTo sample) = false) ->
     gdHeatmapPoints data = [] /\ gdWeatherCells data = [] /\
     gdRouteArcs data = [] /\
     gdTimeline data = loadTimeline now toISOString []).
Proof.
  intros replyTo data n.
  set (observations := fetchWeatherSamples replyTo) in *.
  assert (Hanswered : n = List.length
                            (filter (fun sample => readable (replyTo sample))
                               WEATHER_SAMPLE_LOCATIONS)).
  { destruct (fetched_fields replyTo WEATHER_SAMPLE_LOCATIONS)
      as (Hid & _).
    unfold n, observations, fetchWeatherSamples.
    rewrite <- (length_map obsId), Hid. apply length_map. }
  assert (Hn : (n <= 8)%nat).
  { rewrite Hanswered.
    exact (filter_length_le (fun sample => readable (replyTo sample))
             WEATHER_SAMPLE_LOCATIONS). }
  assert (Hheat : List.length (gdHeatmapPoints data) = n).
  { unfold data, loadGlobeData. cbn [gdHeatmapPoints]. fold observations.
    unfold loadHeatmapData. destruct observations; [reflexivity|].
    apply length_map. }
  assert (Hcells : List.length (gdWeatherCells data) = n).
  { unfold data, loadGlobeData. cbn [gdWeatherCells].
    unfold loadWeatherCells. apply length_map. }
  assert (Hunit : Forall (fun cell => unitInterval (severity cell))
                    (gdWeatherCells data)).
  { unfold data, loadGlobeData. cbn [gdWeatherCells].
    apply loadWeatherCells_unit. }
  split; [exact Hn|]. split; [exact Hheat|]. split; [exact Hcells|].
  split; [reflexivity|]. split.
  { unfold data, loadGlobeData. cbn [gdRouteArcs].
    rewrite buildRouteArcs_length.
    change (List.length (loadHeatmapData (fetchWeatherSamples replyTo)))
      with (List.length (gdHeatmapPoints data)).
    now rewrite Hheat. }
  split; [exact Hunit|].
  destruct (loadTimeline_unit Hunit) as (Hh & Hw & Hr).
  split; [exact Hh|]. split; [exact Hw|]. split; [exact Hr|].
  intros Hnone.
  assert (Hempty : observations = []).
  { apply length_zero_iff_nil. fold n. rewrite Hanswered.
    unfold WEATHER_SAMPLE_LOCATIONS. cbn [filter]. now rewrite !Hnone. }
  unfold data, loadGlobeData. fold observations. rewrite Hempty.
  now repeat split.
Qed.

End GlobeDataRanges.

(** ** The store: overlays, trails, recent queries and saved targets *)

Section StoreLists.

Local Open Scope js_scope.

Variable SearchResult : Type.
Variable SearchPatch : Type.
Variable SavedTarget : Type.
Variable QueryTrail : Type.
Variable resultId : SearchResult -> jsstring.
Variable targetId : SavedTarget -> jsstring.
Variable patched : SearchResult -> SearchPatch -> SearchResult.
Variable merged : SavedTarget -> SavedTarget -> SavedTarget.

Local Abbreviation State := (GlobeState SearchResult SavedTarget QueryTrail).
Local Abbreviation Call :=
  (Store.Call SearchResult SearchPatch SavedTarget QueryTrail).
Local Abbreviation perform := (Store.perform resultId targetId patched merged).
Local Abbreviation run := (Store.run resultId targetId patched merged).
Local Abbreviation start :=
  (initialState SearchResult SavedTarget QueryTrail).

Lemma sameString_eq (a b : jsstring) : sameString a b = true <-> a = b.
Proof.
  revert b. induction a as [|x a IH]; intros [|y b]; cbn [sameString];
    try (split; [discriminate|discriminate]); [tauto|].
  rewrite andb_true_iff, N.eqb_eq, IH. split.
  - now intros [-> ->].
  - intros Heq. injection Heq as -> ->. auto.
Qed.

Lemma sameString_refl (a : jsstring) : sameString a a = true.
Proof. now apply sameString_eq. Qed.

Lemma sameKey_eq (a b : OverlayKey) : sameKey a b = true <-> a = b.
Proof. destruct a, b; cbn; split; congruence. Qed.

(** X14: switching one overlay, or setting its intensity, changes the
    entry of that key to the value given and no other entry; the last
    write to a key wins, and writes to different keys commute. *)
Theorem overlay_writes_are_per_key :
  forall (s : State) (key : OverlayKey) (enabled : bool) (value : number),
    overlays (setOverlayEnabled key enabled s) key = enabled /\
    overlayIntensity (setOverlayIntensity key value s) key = value /\
    (forall other : OverlayKey,
        other <> key ->
        overlays (setOverlayEnabled key enabled s) other = overlays s other /\
        overlayIntensity (setOverlayIntensity key value s) other =
          overlayIntensity s other) /\
    (forall k : OverlayKey,
        overlayIntensity (setOverlayEnabled key enabled s) k =
          overlayIntensity s k /\
        overlays (setOverlayIntensity key value s) k = overlays s k) /\
    (forall (earlier : bool) (k : OverlayKey),
        overlays
          (setOverlayEnabled key enabled (setOverlayEnabled key earlier s)) k =
        overlays (setOverlayEnabled key enabled s) k) /\
    (forall (key' : OverlayKey) (enabled' : bool) (k : OverlayKey),
        key' <> key ->
        overlays
          (setOverlayEnabled key enabled (setOverlayEnabled key' enabled' s))
          k =
        overlays
          (setOverlayEnabled key' enabled' (setOverlayEnabled key enabled s))
          k).
Proof.
  intros s key enabled value.
  assert (Hrefl : sameKey key key = true) by now apply sameKey_eq.
  split; [cbn; unfold withKey; now rewrite Hrefl|].
  split; [cbn; unfold withKey; now rewrite Hrefl|].
  split; [|split; [|split]].
  - intros other Hother.
    assert (Hdiff : sameKey other key = false).
    { destruct (sameKey other key) eqn:H; [|reflexivity].
      apply sameKey_eq in H. contradiction. }
    cbn. unfold withKey. now rewrite Hdiff.
  - intros k. split; reflexivity.
  - intros earlier k. cbn. unfold withKey.
    now destruct (sameKey k key).
  - intros key' enabled' k Hdiff. cbn. unfold withKey.
    destruct (sameKey k key) eqn:H1, (sameKey k key') eqn:H2;
      try reflexivity.
    apply sameKey_eq in H1, H2. congruence.
Qed.

Lemma lastN_length {A : Type} (count : nat) (xs : list A) :
  List.length (lastN count xs) = Nat.min count (List.length xs).
Proof. unfold lastN. rewrite length_skipn. lia. Qed.

Lemma lastN_suffix {A : Type} (count : nat) (xs : list A) :
  xs = firstn (List.length xs - count) xs ++ lastN count xs.
Proof. unfold lastN. symmetry. apply firstn_skipn. Qed.

Lemma perform_trails (call : Call) (s : State) :
  queryTrails (perform call s) = queryTrails s \/
  exists trail : QueryTrail,
    queryTrails (perform call s) = lastN 19 (queryTrails s) ++ [trail].
Proof.
  destruct call; try (left; reflexivity).
  right. now exists trail.
Qed.

(** X15: recording a trail puts it last, after the last 19 of the trails
    there were, in their order, so the store keeps the 20 latest trails;
    no other setter touches the trails, and after any sequence of calls
    from the initial state there are at most 20. *)
Theorem queryTrails_keep_latest_20 :
  (forall (trail : QueryTrail) (s : State),
      let trails := queryTrails (recordQueryTrail trail s) in
      exists dropped kept : list QueryTrail,
        queryTrails s = dropped ++ kept /\
        trails = kept ++ [trail] /\
        List.length dropped = (List.length (queryTrails s) - 19)%nat /\
        List.length trails =
          Nat.min 20 (S (List.length (queryTrails s)))) /\
  (forall (calls : list Call),
      (List.length (queryTrails (run calls start)) <= 20)%nat).
Proof.
  split.
  - intros trail s trails.
    exists (firstn (List.length (queryTrails s) - 19) (queryTrails s)),
      (lastN 19 (queryTrails s)).
    split; [apply lastN_suffix|]. split; [reflexivity|]. split.
    + rewrite length_firstn. lia.
    + unfold trails. cbn [recordQueryTrail queryTrails].
      rewrite length_app, lastN_length. cbn [List.length]. lia.
  - intros calls.
    assert (Hinv : forall (cs : list Call) (s : State),
               (List.length (queryTrails s) <= 20)%nat ->
               (List.length (queryTrails (run cs s)) <= 20)%nat).
    { induction cs as [|call later IH]; intros s Hs; [exact Hs|].
      unfold Store.run. cbn [fold_left]. apply IH.
      destruct (perform_trails call s) as [->|[trail ->]]; [exact Hs|].
      rewrite length_app, lastN_length. cbn [List.length]. lia. }
    apply Hinv. cbn. lia.
Qed.

Lemma NoDup_map_filter {A B : Type} (f : A -> B) (keep : A -> bool)
    (l : list A) :
  NoDup (map f l) -> NoDup (map f (filter keep l)).
Proof.
  induction l as [|x rest IH]; intros Hnd; [constructor|].
  cbn [map] in Hnd. inversion Hnd as [|? ? Hnotin Hrest]; subst.
  cbn [filter]. destruct (keep x); [|now apply IH].
  cbn [map]. constructor; [|now apply IH].
  intros Hin. apply Hnotin. apply in_map_iff in Hin as (y & Hy & Hin).
  apply filter_In in Hin as [Hin _]. apply in_map_iff. now exists y.
Qed.

Lemma NoDup_firstn {A : Type} (n : nat) (l : list A) :
  NoDup l -> NoDup (firstn n l).
Proof.
  revert n. induction l as [|x rest IH]; intros n Hnd.
  - rewrite firstn_nil. constructor.
  - destruct n as [|n]; [constructor|].
    inversion Hnd as [|? ? Hnotin Hrest]; subst.
    cbn [firstn]. constructor; [|now apply IH].
    intros Hin. apply Hnotin. now apply in_firstn in Hin.
Qed.

(** X16: pushing a recent query puts it first, leaves at most 15 entries,
    and drops every older entry with the same id; the entries behind it
    are older entries in their order, and ids that were unique stay
    unique. *)
Theorem pushRecentQuery_dedupes :
  forall (result : SearchResult) (s : State),
    let recent := recentQueries (pushRecentQuery resultId result s) in
    let others :=
      filter (fun item => negb (sameString (resultId item) (resultId result)))
        (recentQueries s) in
    recent = result :: firstn 14 others /\
    (List.length recent <= 15)%nat /\
    Forall (fun item =>
              resultId item <> resultId result /\
              In item (recentQueries s))
           (tl recent) /\
    (NoDup (map resultId (recentQueries s)) ->
     NoDup (map resultId recent)).
Proof.
  intros result s recent others.
  assert (Hrecent : recent = result :: firstn 14 others) by reflexivity.
  split; [exact Hrecent|]. split; [|split].
  - rewrite Hrecent. cbn [List.length].
    pose proof (firstn_le_length 14 others). lia.
  - rewrite Hrecent. cbn [tl]. apply Forall_forall. intros item Hin.
    apply in_firstn in Hin. apply filter_In in Hin as [Hin Hdiff].
    split; [|exact Hin].
    intros Heq. rewrite Heq, sameString_refl in Hdiff. discriminate.
  - intros Hnd. rewrite Hrecent. cbn [map]. constructor.
    + intros Hin. apply in_map_iff in Hin as (item & Hid & Hin).
      apply in_firstn in Hin. apply filter_In in Hin as [_ Hdiff].
      rewrite Hid, sameString_refl in Hdiff. discriminate.
    + rewrite <- firstn_map. apply NoDup_firstn.
      now apply NoDup_map_filter.
Qed.

(** X18: patching a search result keeps the number and the order of the
    results; a result with the id given is replaced by its patched
    version, every other result is left as it is, and when no result has
    the id the list is unchanged. *)
Theorem updateSearchResult_touches_one_id :
  forall (id : jsstring) (patch : SearchPatch) (s : State),
    let results := searchResults (updateSearchResult resultId patched id patch s) in
    List.length results = List.length (searchResults s) /\
    (forall (index : nat) (item : SearchResult),
        nth_error (searchResults s) index = Some item ->
        (resultId item = id ->
         nth_error results index = Some (patched item patch)) /\
        (resultId item <> id -> nth_error results index = Some item)) /\
    (~ In id (map resultId (searchResults s)) ->
     results = searchResults s).
Proof.
  intros id patch s results.
  assert (Hresults : results =
                     map (fun item =>
                            if sameString (resultId item) id
                            then patched item patch else item)
                       (searchResults s)) by reflexivity.
  split; [rewrite Hresults; apply length_map|]. split.
  - intros index item Hnth. rewrite Hresults, nth_error_map, Hnth.
    cbn [option_map]. split.
    + intros ->. now rewrite sameString_refl.
    + intros Hdiff. destruct (sameString (resultId item) id) eqn:Hsame;
        [|reflexivity].
      apply sameString_eq in Hsame. contradiction.
  - intros Hnotin. rewrite Hresults.
    rewrite <- (map_id (searchResults s)) at 2.
    apply map_ext_in. intros item Hin.
    destruct (sameString (resultId item) id) eqn:Hsame; [|reflexivity].
    apply sameString_eq in Hsame. exfalso. apply Hnotin.
    apply in_map_iff. now exists item.
Qed.

End StoreLists.

(** ** The store: saved targets *)

Section SavedTargets.

Local Open Scope js_scope.

Variable SearchResult : Type.
Variable SavedTarget : Type.
Variable QueryTrail : Type.
Variable targetId : SavedTarget -> jsstring.
Variable merged : SavedTarget -> SavedTarget -> SavedTarget.

Local Abbreviation State := (GlobeState SearchResult SavedTarget QueryTrail).

Lemma removeSavedTarget_ids (id : jsstring) (s : State) :
  map targetId (savedTargets (removeSavedTarget targetId id s)) =
  filter (fun other => negb (sameString other id))
    (map targetId (savedTargets s)).
Proof.
  cbn [removeSavedTarget setSavedTargets savedTargets].
  induction (savedTargets s) as [|entry rest IH]; [reflexivity|].
  cbn [filter map]. destruct (sameString (targetId entry) id); cbn [negb].
  - exact IH.
  - cbn [map]. now f_equal.
Qed.

Lemma filter_absent (id : jsstring) (entries : list SavedTarget) :
  ~ In id (map targetId entries) ->
  filter (fun entry => negb (sameString (targetId entry) id)) entries =
  entries.
Proof.
  induction entries as [|entry rest IH]; intros Hnotin; [reflexivity|].
  cbn [filter]. destruct (sameString (targetId entry) id) eqn:Hsame.
  - apply sameString_eq in Hsame. exfalso. apply Hnotin. now left.
  - cbn [negb]. f_equal. apply IH. intros Hin. apply Hnotin. now right.
Qed.

Lemma existsb_same_id (id : jsstring) (entries : list SavedTarget) :
  existsb (fun entry => sameString (targetId entry) id) entries = true <->
  In id (map targetId entries).
Proof.
  rewrite existsb_exists, in_map_iff. split.
  - intros (entry & Hin & Hsame). apply sameString_eq in Hsame.
    now exists entry.
  - intros (entry & Hid & Hin). exists entry. split; [exact Hin|].
    now apply sameString_eq.
Qed.

(** X17: saving a target whose id is new appends it; saving one whose id
    is already there replaces the entries of that id by their merge with
    it and leaves the list of ids as it was; removing an id drops every
    entry of that id and no other.  So ids that are unique stay unique,
    a saved target is found under its id, and removing a target that was
    just saved under a new id gives the list back.  The merge
    [{ ...entry, ...target }] is taken to carry the id of the target. *)
Theorem savedTargets_keep_unique_ids :
  (forall entry target : SavedTarget,
      targetId (merged entry target) = targetId target) ->
  forall (target : SavedTarget) (s : State),
    let saved := savedTargets (addSavedTarget targetId merged target s) in
    let ids := map targetId (savedTargets s) in
    (In (targetId target) ids -> map targetId saved = ids) /\
    (~ In (targetId target) ids -> saved = savedTargets s ++ [target]) /\
    In (targetId target) (map targetId saved) /\
    (NoDup ids -> NoDup (map targetId saved)) /\
    (forall id : jsstring,
        let left := savedTargets (removeSavedTarget targetId id s) in
        ~ In id (map targetId left) /\
        map targetId left =
          filter (fun other => negb (sameString other id)) ids /\
        (NoDup ids -> NoDup (map targetId left))) /\
    (~ In (targetId target) ids ->
     savedTargets
       (removeSavedTarget targetId (targetId target)
          (addSavedTarget targetId merged target s)) =
     savedTargets s).
Proof.
  intros Hmerged target s saved ids.
  assert (Hpresent : In (targetId target) ids -> map targetId saved = ids).
  { intros Hin. unfold saved, ids.
    cbn [addSavedTarget setSavedTargets savedTargets].
    apply existsb_same_id in Hin. rewrite Hin. rewrite map_map.
    apply map_ext. intros entry.
    destruct (sameString (targetId entry) (targetId target)) eqn:Hsame;
      [|reflexivity].
    apply sameString_eq in Hsame. now rewrite Hmerged. }
  assert (Habsent : ~ In (targetId target) ids ->
                    saved = savedTargets s ++ [target]).
  { intros Hnotin. unfold saved.
    cbn [addSavedTarget setSavedTargets savedTargets].
    destruct (existsb (fun entry =>
                         sameString (targetId entry) (targetId target))
                (savedTargets s)) eqn:Hex; [|reflexivity].
    apply existsb_same_id in Hex. contradiction. }
  assert (Hdec : In (targetId target) ids \/ ~ In (targetId target) ids).
  { destruct (existsb (fun entry =>
                         sameString (targetId entry) (targetId target))
                (savedTargets s)) eqn:Hex.
    - left. now apply existsb_same_id.
    - right. intros Hin. apply existsb_same_id in Hin. congruence. }
  split; [exact Hpresent|]. split; [exact Habsent|].
  split; [|split; [|split]].
  - destruct Hdec as [Hin|Hnotin].
    + now rewrite (Hpresent Hin).
    + rewrite (Habsent Hnotin), map_app. apply in_or_app. right. now left.
  - intros Hnd. destruct Hdec as [Hin|Hnotin].
    + now rewrite (Hpresent Hin).
    + rewrite (Habsent Hnotin), map_app. cbn [map].
      apply NoDup_app; [exact Hnd|repeat constructor; intros []|].
      intros id Hid [<-|[]]. contradiction.
  - intros id left. unfold left. rewrite removeSavedTarget_ids.
    fold ids. split; [|split; [reflexivity|]].
    + intros Hin. apply filter_In in Hin as [_ Hdiff].
      rewrite sameString_refl in Hdiff. discriminate.
    + intros Hnd. now apply NoDup_filter.
  - intros Hnotin.
    cbn [removeSavedTarget setSavedTargets savedTargets].
    change (savedTargets (addSavedTarget targetId merged target s))
      with saved.
    rewrite (Habsent Hnotin), filter_app. cbn [filter].
    rewrite sameString_refl. cbn [negb]. rewrite app_nil_r.
    now apply filter_absent.
Qed.

End SavedTargets.

Section SavedTargetExamples.

Local Open Scope js_scope.

(** The theorem at work: targets that are an id and a note, the merge
    taking both from the newer one; a target is saved under a new id. *)
Lemma savedTargets_keep_unique_ids_witness :
  let s := setSavedTargets [(lit "a", lit "first")]
             (initialState unit (jsstring * jsstring) unit) in
  savedTargets
    (addSavedTarget fst (fun _ target => target) (lit "b", lit "second") s) =
  [(lit "a", lit "first"); (lit "b", lit "second")].
Proof.
  intros s.
  refine (proj1 (proj2 (@savedTargets_keep_unique_ids unit
                          (jsstring * jsstring) unit fst
                          (fun _ target => target) _
                          (lit "b", lit "second") s)) _).
  - reflexivity.
  - cbn. intros [H|[]]. discriminate.
Defined.

End SavedTargetExamples.

(** ** The provider: hydration and playback *)

Section ProviderFacts.

Local Open Scope js_scope.

Variable SearchResult : Type.
Variable SavedTarget : Type.
Variable QueryTrail : Type.

Local Abbreviation State := (GlobeState SearchResult SavedTarget QueryTrail).

Lemma clamp_zero (events : list TimelineEvent) :
  max2 #0 (min2 #0 (lastIndex events)) = #0.
Proof.
  destruct (lastIndex_finite events) as (r & -> & Hr). js_crush.
Qed.

(** X20: hydration installs the data loaded and rewinds the timeline:
    whatever the index was before, NaN included, it is 0 afterwards and
    in range; the overlays, the search and the saved lists are left as
    they were. *)
Theorem hydrate_rewinds_timeline :
  forall (data : GlobeData) (s : State),
    let s' := hydrate data s in
    timelineIndex s' = #0 /\
    indexInRange s' /\
    heatmapPoints s' = gdHeatmapPoints data /\
    weatherCells s' = gdWeatherCells data /\
    routeArcs s' = gdRouteArcs data /\
    timeline s' = gdTimeline data /\
    overlays s' = overlays s /\
    overlayIntensity s' = overlayIntensity s /\
    isPlayingTimeline s' = isPlayingTimeline s /\
    searchQuery s' = searchQuery s /\
    searchResults s' = searchResults s /\
    savedTargets s' = savedTargets s /\
    recentQueries s' = recentQueries s /\
    queryTrails s' = queryTrails s /\
    activeGeofence s' = activeGeofence s.
Proof.
  intros data s s'.
  assert (Hindex : timelineIndex s' = #0).
  { unfold s', hydrate, setTimelineIndex.
    cbn [timelineIndex resolve timeline setTimeline].
    apply clamp_zero. }
  split; [exact Hindex|]. split.
  - unfold indexInRange. rewrite Hindex.
    destruct (lastIndex_finite (timeline s')) as (r & -> & Hr). js_crush.
  - now repeat split.
Qed.

Lemma nextFrame_cycles (n i : nat) :
  (i < n)%nat -> nextFrame n (ofNat i) = ofNat ((i + 1) mod n).
Proof.
  intros Hi. unfold nextFrame, ofNat. cbn [add].
  destruct (Nat.eq_dec (i + 1) n) as [Hlast|Hmore].
  - rewrite Hlast, Nat.Div0.mod_same.
    assert (Hge : (Fin (INR i + 1) >=? Fin (INR n)) = true).
    { apply geb_Fin. rewrite <- Hlast, plus_INR. simpl. lra. }
    now rewrite Hge.
  - rewrite Nat.mod_small by lia.
    assert (Hlt : (Fin (INR i + 1) >=? Fin (INR n)) = false).
    { apply geb_Fin_false.
      assert (H : (i + 1 < n)%nat) by lia.
      apply lt_INR in H. rewrite plus_INR in H. simpl in H. lra. }
    rewrite Hlt, plus_INR. reflexivity.
Qed.

(** X19: while the timeline plays, each firing of the timer moves the
    index from i to (i + 1) mod n, n being the number of events: it steps
    through the events and wraps from the last to the first, and the index
    stays in range. *)
Theorem playback_wraps_around :
  forall (s : State) (i : nat),
    let n := List.length (timeline s) in
    timelineIndex s = ofNat i ->
    (i < n)%nat ->
    let s' := setTimelineIndex (Updater (nextFrame n)) s in
    timelineIndex s' = ofNat ((i + 1) mod n) /\
    indexInRange s' /\
    timeline s' = timeline s.
Proof.
  intros s i n Hindex Hi s'.
  assert (Hnext : ((i + 1) mod n < n)%nat)
    by (apply Nat.mod_upper_bound; lia).
  assert (Hstored : timelineIndex s' = ofNat ((i + 1) mod n)).
  { unfold s', setTimelineIndex. cbn [timelineIndex resolve].
    rewrite Hindex, (nextFrame_cycles Hi).
    unfold lastIndex. fold n. unfold ofNat. cbn [sub neg add].
    rewrite max2_Fin, min2_Fin, max2_Fin. f_equal.
    apply lt_INR in Hnext as Hr. apply le_INR in Hnext as Hr'.
    rewrite S_INR in Hr'.
    pose proof (pos_INR ((i + 1) mod n)) as Hpos.
    rewrite (Rmax_left (INR n + - (1)) 0) by lra.
    rewrite Rmin_left by lra. now rewrite Rmax_right. }
  split; [exact Hstored|]. split; [|reflexivity].
  unfold indexInRange. rewrite Hstored.
  change (timeline s') with (timeline s).
  unfold lastIndex. fold n. unfold ofNat. cbn [sub neg add].
  rewrite max2_Fin.
  apply le_INR in Hnext as Hr'. rewrite S_INR in Hr'.
  pose proof (pos_INR ((i + 1) mod n)) as Hpos.
  split; apply leb_Fin; [exact Hpos|].
  rewrite Rmax_left by lra. lra.
Qed.

End ProviderFacts.

Section ProviderExamples.

Local Open Scope js_scope.

(** The theorem at work: on the timeline of six events, the timer moves
    the index from 5 back to 0. *)
Lemma playback_wraps_around_witness :
  let playing : GlobeState unit unit unit :=
    mkState defaultOverlays defaultOverlayIntensity [] [] []
      (loadTimeline 0 showZ []) (ofNat 5) true
      [] [] false None [] [] [] false None in
  timelineIndex (setTimelineIndex (Updater (nextFrame 6)) playing) = ofNat 0.
Proof.
  intros playing.
  exact (proj1 (@playback_wraps_around unit unit unit playing 5%nat
                  eq_refl (Nat.lt_succ_diag_r 5))).
Defined.

End ProviderExamples.

(** ** The control panel: distance and bearing of a trail *)

Section TrailBearing.

Local Open Scope js_scope.

(** The angle [Math.atan2] returns lies in (-pi, pi]. *)
Lemma Ratan2_range (y x : R) : (- PI < Ratan2 y x <= PI)%R.
Proof.
  pose proof PI_RGT_0 as Hpi. unfold Ratan2.
  pose proof (atan_bound (y / x)) as [Hlow Hhigh].
  destruct (Rlt_dec 0 x) as [Hpos|Hnpos]; [lra|].
  destruct (Rlt_dec x 0) as [Hneg|Hzero].
  - assert (Hinv : (/ x < 0)%R) by now apply Rinv_lt_0_compat.
    destruct (Rlt_dec y 0) as [Hy|Hy].
    + assert (Hq : (0 < y / x)%R).
      { unfold Rdiv. replace (y * / x)%R with ((- y) * (- / x))%R by lra.
        apply Rmult_lt_0_compat; lra. }
      assert (0 < atan (y / x))%R
        by (rewrite <- atan_0; now apply atan_increasing).
      lra.
    + assert (Hq : (y / x <= 0)%R).
      { unfold Rdiv. replace (y * / x)%R with (- (y * (- / x)))%R by lra.
        assert (0 <= y * (- / x))%R by (apply Rmult_le_pos; lra). lra. }
      assert (atan (y / x) <= 0)%R.
      { destruct Hq as [Hq|Hq].
        - left. rewrite <- atan_0. now apply atan_increasing.
        - rewrite Hq, atan_0. lra. }
      lra.
  - destruct (Rlt_dec 0 y); [lra|]. destruct (Rlt_dec y 0); lra.
Qed.

(** The remainder by 360 of a number between 180 and 540. *)
Lemma rem_360 (v : R) :
  (180 < v <= 540)%R ->
  rem (Fin v) #360 = Fin (if Rlt_dec v 360 then v else v - 360).
Proof.
  intros Hv. unfold rem.
  destruct (Req_dec_T 360 0) as [Hz|_]; [lra|]. f_equal.
  unfold Rtrunc. destruct (Rlt_dec (v / 360) 0) as [Hneg|_]; [lra|].
  destruct (Rlt_dec v 360) as [Hlt|Hge].
  - rewrite (Zfloor_eq 0 (v / 360)) by (simpl; lra). simpl. lra.
  - rewrite (Zfloor_eq 1 (v / 360)) by (simpl; lra). simpl. lra.
Qed.

Lemma degrees_range (angle : R) :
  (- PI < angle <= PI)%R -> (180 < angle * 180 / PI + 360 <= 540)%R.
Proof.
  intros [Hlow Hhigh]. pose proof PI_RGT_0 as Hpi.
  assert (Hq : (- 1 < angle / PI <= 1)%R).
  { split.
    - apply Rmult_lt_reg_r with (r := PI); [exact Hpi|].
      unfold Rdiv. rewrite Rmult_assoc, Rinv_l by lra. lra.
    - apply Rmult_le_reg_r with (r := PI); [exact Hpi|].
      unfold Rdiv. rewrite Rmult_assoc, Rinv_l by lra. lra. }
  replace (angle * 180 / PI)%R with (180 * (angle / PI))%R
    by (unfold Rdiv; ring).
  lra.
Qed.

(** The bearing on finite coordinates. *)
Lemma trailBearing_finite (tlat tlon lat lon : R) :
  let dLon := ((lon + - tlon) * PI / 180)%R in
  let y := (Rtrigo_def.sin dLon * Rtrigo_def.cos (lat * PI / 180))%R in
  let x :=
    (Rtrigo_def.cos (tlat * PI / 180) * Rtrigo_def.sin (lat * PI / 180) +
     - (Rtrigo_def.sin (tlat * PI / 180) * Rtrigo_def.cos (lat * PI / 180) *
        Rtrigo_def.cos dLon))%R in
  trailBearing #tlat #tlon #lat #lon =
  rem (Fin (Ratan2 y x * 180 / PI + 360)) #360.
Proof.
  intros dLon y x. pose proof PI_RGT_0 as Hpi.
  unfold trailBearing, toRadians.
  repeat (cbn [sub neg add mul JSNumber.sin JSNumber.cos atan2];
          rewrite ?div_Fin by lra).
  reflexivity.
Qed.

Lemma trailBearing_value (tlat tlon lat lon angle : R) :
  let dLon := ((lon + - tlon) * PI / 180)%R in
  let y := (Rtrigo_def.sin dLon * Rtrigo_def.cos (lat * PI / 180))%R in
  let x :=
    (Rtrigo_def.cos (tlat * PI / 180) * Rtrigo_def.sin (lat * PI / 180) +
     - (Rtrigo_def.sin (tlat * PI / 180) * Rtrigo_def.cos (lat * PI / 180) *
        Rtrigo_def.cos dLon))%R in
  Ratan2 y x = angle ->
  trailBearing #tlat #tlon #lat #lon =
  Fin (if Rlt_dec (angle * 180 / PI + 360) 360
       then angle * 180 / PI + 360
       else angle * 180 / PI + 360 - 360).
Proof.
  intros dLon y x Hangle.
  rewrite trailBearing_finite. fold dLon. fold y. fold x.
  rewrite Hangle. apply rem_360. apply degrees_range.
  rewrite <- Hangle. apply Ratan2_range.
Qed.

Lemma bearing_not_finite (tlat tlon lat lon : number) :
  isFinite tlat && isFinite tlon && isFinite lat && isFinite lon = false ->
  trailBearing tlat tlon lat lon = NaN.
Proof.
  intros Hbad. unfold trailBearing. cbv zeta.
  assert (Hrem : rem ((NaN * #180) / #PI + #360) #360 = NaN) by reflexivity.
  assert (Hatan : forall y x, y = NaN \/ x = NaN -> atan2 y x = NaN).
  { intros y x [-> | ->]; [reflexivity|now destruct y]. }
  rewrite Hatan; [exact Hrem|].
  repeat (apply andb_false_iff in Hbad; destruct Hbad as [Hbad|Hbad]).
  - right. rewrite (cos_not_finite _ (toRadians_not_finite _ Hbad)).
    rewrite (sin_not_finite _ (toRadians_not_finite _ Hbad)).
    cbn [mul]. now destruct (sin (toRadians lat)).
  - left.
    rewrite (sin_not_finite
               _ (toRadians_not_finite _
                    (sub_not_finite lon tlon (or_intror Hbad)))).
    reflexivity.
  - left. rewrite (cos_not_finite _ (toRadians_not_finite _ Hbad)).
    apply mul_NaN_r.
  - left.
    rewrite (sin_not_finite
               _ (toRadians_not_finite _
                    (sub_not_finite lon tlon (or_introl Hbad)))).
    reflexivity.
Qed.

(** Along a meridian the bearing is 0 towards the north and 180 towards
    the south. *)
Lemma bearing_along_meridian (lat1 lat2 lon : R) :
  ((0 < lat2 - lat1 < 180)%R ->
   trailBearing #lat1 #lon #lat2 #lon = #0) /\
  ((-180 < lat2 - lat1 < 0)%R ->
   trailBearing #lat1 #lon #lat2 #lon = #180).
Proof.
  pose proof PI_RGT_0 as Hpi.
  assert (Hy : (Rtrigo_def.sin ((lon + - lon) * PI / 180) *
                Rtrigo_def.cos (lat2 * PI / 180))%R = 0%R).
  { replace ((lon + - lon) * PI / 180)%R with 0%R by lra.
    rewrite sin_0. lra. }
  assert (Hx : (Rtrigo_def.cos (lat1 * PI / 180) *
                Rtrigo_def.sin (lat2 * PI / 180) +
                - (Rtrigo_def.sin (lat1 * PI / 180) *
                   Rtrigo_def.cos (lat2 * PI / 180) *
                   Rtrigo_def.cos ((lon + - lon) * PI / 180)))%R =
               Rtrigo_def.sin ((lat2 - lat1) * PI / 180)).
  { replace ((lon + - lon) * PI / 180)%R with 0%R by lra.
    rewrite cos_0.
    replace ((lat2 - lat1) * PI / 180)%R
      with (lat2 * PI / 180 - lat1 * PI / 180)%R by lra.
    rewrite sin_minus. lra. }
  split; intros Hdir.
  + assert (Hsin : (0 < Rtrigo_def.sin ((lat2 - lat1) * PI / 180))%R).
    { apply sin_gt_0.
      - apply Rmult_lt_0_compat; [|lra].
        apply Rmult_lt_0_compat; lra.
      - replace PI with (180 * PI / 180)%R at 2 by lra.
        apply Rmult_lt_compat_r; [lra|].
        apply Rmult_lt_compat_r; lra. }
    rewrite (@trailBearing_value lat1 lon lat2 lon 0%R).
    * f_equal. destruct (Rlt_dec (0 * 180 / PI + 360) 360) as [H|H];
        unfold Rdiv in *; rewrite ?Rmult_0_l in *; lra.
    * rewrite Hy, Hx. unfold Ratan2.
      destruct (Rlt_dec 0 _) as [_|Hn]; [|lra].
      unfold Rdiv. rewrite Rmult_0_l. apply atan_0.
  + assert (Hsin : (Rtrigo_def.sin ((lat2 - lat1) * PI / 180) < 0)%R).
    { apply sin_lt_0_var.
      - replace (- PI)%R with (- 180 * PI / 180)%R by lra.
        apply Rmult_lt_compat_r; [lra|].
        apply Rmult_lt_compat_r; lra.
      - replace 0%R with (0 * PI / 180)%R by lra.
        apply Rmult_lt_compat_r; [lra|].
        apply Rmult_lt_compat_r; lra. }
    rewrite (@trailBearing_value lat1 lon lat2 lon PI).
    * f_equal. replace (PI * 180 / PI)%R with 180%R
        by (unfold Rdiv; rewrite Rmult_comm, <- Rmult_assoc, Rinv_l; lra).
      destruct (Rlt_dec (180 + 360) 360); lra.
    * rewrite Hy, Hx. unfold Ratan2.
      destruct (Rlt_dec 0 _) as [Hp|_]; [lra|].
      destruct (Rlt_dec _ 0) as [_|Hn]; [|lra].
      destruct (Rlt_dec 0 0) as [H0|_]; [lra|].
      unfold Rdiv. rewrite Rmult_0_l, atan_0. lra.
Qed.

(** Along the equator the bearing is 90 towards the east and 270 towards
    the west. *)
Lemma bearing_along_equator (lon1 lon2 : R) :
  ((0 < lon2 - lon1 < 180)%R ->
   trailBearing #0 #lon1 #0 #lon2 = #90) /\
  ((-180 < lon2 - lon1 < 0)%R ->
   trailBearing #0 #lon1 #0 #lon2 = #270).
Proof.
  pose proof PI_RGT_0 as Hpi.
  assert (Hy : (Rtrigo_def.sin ((lon2 + - lon1) * PI / 180) *
                Rtrigo_def.cos (0 * PI / 180))%R =
               Rtrigo_def.sin ((lon2 - lon1) * PI / 180)).
  { replace (0 * PI / 180)%R with 0%R by lra. rewrite cos_0.
    replace ((lon2 + - lon1) * PI / 180)%R
      with ((lon2 - lon1) * PI / 180)%R by lra.
    lra. }
  assert (Hx : (Rtrigo_def.cos (0 * PI / 180) *
                Rtrigo_def.sin (0 * PI / 180) +
                - (Rtrigo_def.sin (0 * PI / 180) *
                   Rtrigo_def.cos (0 * PI / 180) *
                   Rtrigo_def.cos ((lon2 + - lon1) * PI / 180)))%R = 0%R).
  { replace (0 * PI / 180)%R with 0%R by lra.
    rewrite sin_0, cos_0. lra. }
  split; intros Hdir.
  + assert (Hsin : (0 < Rtrigo_def.sin ((lon2 - lon1) * PI / 180))%R).
    { apply sin_gt_0.
      - apply Rmult_lt_0_compat; [|lra].
        apply Rmult_lt_0_compat; lra.
      - replace PI with (180 * PI / 180)%R at 2 by lra.
        apply Rmult_lt_compat_r; [lra|].
        apply Rmult_lt_compat_r; lra. }
    rewrite (@trailBearing_value 0 lon1 0 lon2 (PI / 2)).
    * f_equal. replace (PI / 2 * 180 / PI)%R with 90%R
        by (unfold Rdiv;
            replace (PI * / 2 * 180 * / PI)%R
              with (90 * (PI * / PI))%R by lra;
            rewrite Rinv_r; lra).
      destruct (Rlt_dec (90 + 360) 360); lra.
    * rewrite Hy, Hx. unfold Ratan2.
      destruct (Rlt_dec 0 0) as [H0|_]; [lra|].
      destruct (Rlt_dec 0 _) as [_|Hn]; [reflexivity|lra].
  + assert (Hsin : (Rtrigo_def.sin ((lon2 - lon1) * PI / 180) < 0)%R).
    { apply sin_lt_0_var.
      - replace (- PI)%R with (- 180 * PI / 180)%R by lra.
        apply Rmult_lt_compat_r; [lra|].
        apply Rmult_lt_compat_r; lra.
      - replace 0%R with (0 * PI / 180)%R by lra.
        apply Rmult_lt_compat_r; [lra|].
        apply Rmult_lt_compat_r; lra. }
    rewrite (@trailBearing_value 0 lon1 0 lon2 (- (PI / 2))).
    * f_equal. replace (- (PI / 2) * 180 / PI)%R with (- 90)%R
        by (unfold Rdiv;
            replace (- (PI * / 2) * 180 * / PI)%R
              with (- 90 * (PI * / PI))%R by lra;
            rewrite Rinv_r; lra).
      destruct (Rlt_dec (- 90 + 360) 360); lra.
    * rewrite Hy, Hx. unfold Ratan2.
      destruct (Rlt_dec 0 0) as [H0|_]; [lra|].
      destruct (Rlt_dec 0 _) as [Hp|_]; [lra|].
      destruct (Rlt_dec _ 0) as [_|Hn]; [reflexivity|lra].
Qed.

Lemma bearing_in_range (tlat tlon lat lon : R) :
  exists b : R,
    trailBearing #tlat #tlon #lat #lon = Fin b /\ (0 <= b < 360)%R.
Proof.
  pose proof PI_RGT_0 as Hpi. rewrite trailBearing_finite.
  set (angle := Ratan2 _ _).
  pose proof (degrees_range (Ratan2_range _ _ : (- PI < angle <= PI)%R))
    as Hv.
  rewrite (rem_360 Hv). eexists. split; [reflexivity|].
  destruct (Rlt_dec (angle * 180 / PI + 360) 360); lra.
Qed.

Lemma bearing_to_itself (lat lon : R) :
  trailBearing #lat #lon #lat #lon = #0.
Proof.
  pose proof PI_RGT_0 as Hpi.
  rewrite (@trailBearing_value lat lon lat lon 0%R).
  - f_equal. destruct (Rlt_dec (0 * 180 / PI + 360) 360) as [H|H];
      unfold Rdiv in *; rewrite ?Rmult_0_l in *; lra.
  - replace ((lon + - lon) * PI / 180)%R with 0%R by lra.
    rewrite sin_0, cos_0.
    replace (0 * Rtrigo_def.cos (lat * PI / 180))%R with 0%R by lra.
    replace (Rtrigo_def.cos (lat * PI / 180) *
             Rtrigo_def.sin (lat * PI / 180) +
             - (Rtrigo_def.sin (lat * PI / 180) *
                Rtrigo_def.cos (lat * PI / 180) * 1))%R with 0%R by lra.
    unfold Ratan2.
    destruct (Rlt_dec 0 0) as [H0|_]; [lra|].
    destruct (Rlt_dec 0 0) as [H0|_]; [lra|]. reflexivity.
Qed.

(** X21: the distance the control panel records for a trail is the
    haversine distance of the location route.  The bearing is NaN when a
    coordinate is not finite, and whatever the coordinates it is NaN or a
    number of degrees in [0, 360).  From a point of latitude between -90
    and 90 to itself it is 0; between two such latitudes at least 1e-6
    and at most 179 degrees apart on one meridian it is 0 towards the
    north and 180 towards the south; along the equator, between
    longitudes at least 1e-6 and at most 179 degrees apart, it is 90
    towards the east and 270 towards the west. *)
Theorem trail_bearing_range :
  (forall tlat tlon lat lon : number,
      trailDistance tlat tlon lat lon =
        haversineDistance tlat tlon lat lon) /\
  (forall tlat tlon lat lon : number,
      isFinite tlat && isFinite tlon && isFinite lat && isFinite lon = false ->
      trailBearing tlat tlon lat lon = NaN) /\
  (forall tlat tlon lat lon : number,
      trailBearing tlat tlon lat lon = NaN \/
      exists b : R,
        trailBearing tlat tlon lat lon = Fin b /\ (0 <= b < 360)%R) /\
  (forall lat lon : R,
      (-90 <= lat <= 90)%R -> trailBearing #lat #lon #lat #lon = #0) /\
  (forall lat1 lat2 lon : R,
      (-90 <= lat1 <= 90)%R -> (-90 <= lat2 <= 90)%R ->
      ((1e-6 <= lat2 - lat1 <= 179)%R ->
       trailBearing #lat1 #lon #lat2 #lon = #0) /\
      ((1e-6 <= lat1 - lat2 <= 179)%R ->
       trailBearing #lat1 #lon #lat2 #lon = #180)) /\
  (forall lon1 lon2 : R,
      ((1e-6 <= lon2 - lon1 <= 179)%R ->
       trailBearing #0 #lon1 #0 #lon2 = #90) /\
      ((1e-6 <= lon1 - lon2 <= 179)%R ->
       trailBearing #0 #lon1 #0 #lon2 = #270)).
Proof.
  split; [reflexivity|]. split; [exact bearing_not_finite|].
  split; [|split; [|split]].
  - intros tlat tlon lat lon.
    destruct (isFinite tlat && isFinite tlon && isFinite lat && isFinite lon)
      eqn:Hfinite.
    + right. destruct tlat, tlon, lat, lon; try discriminate.
      apply bearing_in_range.
    + left. now apply bearing_not_finite.
  - intros lat lon _. apply bearing_to_itself.
  - intros lat1 lat2 lon _ _.
    destruct (bearing_along_meridian lat1 lat2 lon) as [Hnorth Hsouth].
    split; intros Hdir; [apply Hnorth|apply Hsouth]; lra.
  - intros lon1 lon2.
    destruct (bearing_along_equator lon1 lon2) as [Heast Hwest].
    split; intros Hdir; [apply Heast|apply Hwest]; lra.
Qed.

End TrailBearing.

(** ** The scene: points on the globe *)

Section SceneFacts.

Local Open Scope js_scope.

Lemma latLonToVector3_finite (lat lon radius : R) :
  let phi := ((90 + - lat) * (PI / 180))%R in
  let theta := ((lon + 180) * (PI / 180))%R in
  latLonToVector3 #lat #lon #radius =
  mkVector3
    (Fin (- (radius * Rtrigo_def.sin phi * Rtrigo_def.cos theta)))
    (Fin (radius * Rtrigo_def.cos phi))
    (Fin (radius * Rtrigo_def.sin phi * Rtrigo_def.sin theta)).
Proof.
  intros phi theta. unfold latLonToVector3.
  rewrite div_Fin by lra. reflexivity.
Qed.

Lemma within_radius (r s c : R) :
  (-1 <= s <= 1)%R -> (-1 <= c <= 1)%R -> (Rabs (r * s * c) <= Rabs r)%R.
Proof.
  intros Hs Hc. rewrite !Rabs_mult.
  assert (Hs' : (Rabs s <= 1)%R) by (apply Rabs_le; lra).
  assert (Hc' : (Rabs c <= 1)%R) by (apply Rabs_le; lra).
  pose proof (Rabs_pos r). pose proof (Rabs_pos s). pose proof (Rabs_pos c).
  assert (Rabs r * Rabs s <= Rabs r)%R by nra.
  nra.
Qed.

(** X22: for finite latitude, longitude and radius, the point
    [latLonToVector3] returns has finite coordinates, none of them larger
    in magnitude than the radius, and its height y depends on the
    latitude and the radius only; in the northern hemisphere the height
    has the sign of the radius, and the north pole is the point
    (0, radius, 0) whatever the longitude.  A latitude that is not finite
    makes the three coordinates NaN. *)
Theorem latLonToVector3_within_radius :
  (forall lat lon radius : R,
      exists x y z : R,
        latLonToVector3 #lat #lon #radius = mkVector3 #x #y #z /\
        (Rabs x <= Rabs radius)%R /\
        (Rabs y <= Rabs radius)%R /\
        (Rabs z <= Rabs radius)%R /\
        ((0 <= lat <= 90)%R -> (0 <= radius)%R -> (0 <= y)%R) /\
        forall other : R,
          vy (latLonToVector3 #lat #other #radius) = #y) /\
  (forall lon radius : R,
      latLonToVector3 #90 #lon #radius = mkVector3 #0 #radius #0) /\
  (forall lat lon radius : number,
      isFinite lat = false ->
      latLonToVector3 lat lon radius = mkVector3 NaN NaN NaN).
Proof.
  pose proof PI_RGT_0 as Hpi. split; [|split].
  - intros lat lon radius. rewrite latLonToVector3_finite. cbv zeta.
    do 3 eexists. split; [reflexivity|].
    split; [|split; [|split; [|split]]].
    + rewrite Rabs_Ropp. apply within_radius; [apply SIN_bound|apply COS_bound].
    + replace (radius * Rtrigo_def.cos ((90 + - lat) * (PI / 180)))%R
        with (radius * Rtrigo_def.cos ((90 + - lat) * (PI / 180)) * 1)%R
        by ring.
      apply within_radius; [apply COS_bound|lra].
    + apply within_radius; [apply SIN_bound|apply SIN_bound].
    + intros Hlat Hradius. apply Rmult_le_pos; [exact Hradius|].
      apply cos_ge_0; nra.
    + intros other. rewrite latLonToVector3_finite. reflexivity.
  - intros lon radius. rewrite latLonToVector3_finite. cbv zeta.
    replace ((90 + - (90)) * (PI / 180))%R with 0%R by lra.
    rewrite sin_0, cos_0. f_equal; f_equal; ring.
  - intros lat lon radius Hlat. unfold latLonToVector3. cbv zeta.
    assert (Hphi : isFinite ((#90 - lat) * (#PI / #180)) = false).
    { rewrite div_Fin by lra.
      destruct lat; try discriminate; js_crush. }
    rewrite (sin_not_finite _ Hphi), (cos_not_finite _ Hphi).
    rewrite !mul_NaN_r. cbn [mul neg]. reflexivity.
Qed.

End SceneFacts.

(** ** The scene: the edges of the geofence *)

Section GeoFenceFacts.

Local Open Scope js_scope.

Variable latLonToVector3 : number -> number -> number -> Vector3.
Variable radius : number.

Local Abbreviation latLine := (latLine latLonToVector3 radius).
Local Abbreviation lonLine := (lonLine latLonToVector3 radius).
Local Abbreviation geofenceEdges := (geofenceEdges latLonToVector3 radius).

Lemma INR_48 : INR segments = 48%R.
Proof. unfold segments. rewrite INR_IZR_INZ. reflexivity. Qed.

(** The point of index [i] on a line from [a] to [b]. *)
Lemma interpolate_finite (a b : R) (i : nat) :
  #a + (#b - #a) * (ofNat i / ofNat segments) =
  Fin (a + (b + - a) * (INR i / 48)).
Proof.
  unfold ofNat. rewrite INR_48. rewrite div_Fin by lra. reflexivity.
Qed.

Lemma latLine_finite (lat a b : R) :
  latLine #lat #a #b =
  map (fun i =>
         latLonToVector3 #lat (Fin (a + (b + - a) * (INR i / 48)))
           (radius * #1.008))
    segmentIndices.
Proof.
  unfold Overlays.latLine. apply map_ext. intros i. cbv zeta.
  now rewrite interpolate_finite.
Qed.

Lemma lonLine_finite (lon a b : R) :
  lonLine #lon #a #b =
  map (fun i =>
         latLonToVector3 (Fin (a + (b + - a) * (INR i / 48))) #lon
           (radius * #1.008))
    segmentIndices.
Proof.
  unfold Overlays.lonLine. apply map_ext. intros i. cbv zeta.
  now rewrite interpolate_finite.
Qed.

Lemma interpolate_start (a b : R) :
  Fin (a + (b + - a) * (INR 0 / 48)) = Fin a.
Proof. f_equal. simpl INR. lra. Qed.

(** X23: for a bounding box of latitudes from -90 to 90 and longitudes
    from -180 to 180 the geofence is drawn as four edges of 49 points
    each; every point of a parallel is at the latitude of the parallel,
    every point of a meridian at the longitude of the meridian, all at
    1.008 times the radius of the globe; the two parallels start at the
    west corners of the box and the two meridians at its south corners. *)
Theorem geofence_edges_start_at_corners :
  forall south north west east : R,
    (-90 <= south <= 90)%R -> (-90 <= north <= 90)%R ->
    (-180 <= west <= 180)%R -> (-180 <= east <= 180)%R ->
    let edges := geofenceEdges (#south, #north, #west, #east) in
    let at_ (lat lon : number) :=
      latLonToVector3 lat lon (radius * #1.008) in
    List.length edges = 4%nat /\
    Forall (fun edge => List.length edge = 49%nat) edges /\
    map (@hd_error Vector3) edges =
      [ Some (at_ #north #west); Some (at_ #south #west);
        Some (at_ #south #west); Some (at_ #south #east) ] /\
    Forall (fun point => exists lon : R, point = at_ #north #lon)
      (latLine #north #west #east) /\
    Forall (fun point => exists lon : R, point = at_ #south #lon)
      (latLine #south #west #east) /\
    Forall (fun point => exists lat : R, point = at_ #lat #west)
      (lonLine #west #south #north) /\
    Forall (fun point => exists lat : R, point = at_ #lat #east)
      (lonLine #east #south #north).
Proof.
  intros south north west east _ _ _ _ edges at_.
  unfold edges, Overlays.geofenceEdges.
  rewrite !latLine_finite, !lonLine_finite.
  split; [reflexivity|]. split; [|split].
  - repeat (apply Forall_cons; [now rewrite length_map|]).
    apply Forall_nil.
  - cbn [map].
    assert (Hhead : forall f : nat -> Vector3,
               hd_error (map f segmentIndices) = Some (f 0%nat))
      by reflexivity.
    rewrite !Hhead, !interpolate_start. reflexivity.
  - repeat split; apply Forall_forall; intros point Hin;
      apply in_map_iff in Hin as (i & <- & _); eexists; reflexivity.
Qed.

End GeoFenceFacts.

Section GeoFenceExamples.

Local Open Scope js_scope.

(** The theorem at work, with the function of the scene in the place of
    the imported one: the edges of a box over the Mediterranean. *)
Lemma geofence_edges_start_at_corners_witness :
  map (@hd_error Vector3)
    (geofenceEdges latLonToVector3 #1.6 (#30, #45, #(-5), #35)) =
  [ Some (latLonToVector3 #45 #(-5) (#1.6 * #1.008));
    Some (latLonToVector3 #30 #(-5) (#1.6 * #1.008));
    Some (latLonToVector3 #30 #(-5) (#1.6 * #1.008));
    Some (latLonToVector3 #30 #35 (#1.6 * #1.008)) ].
Proof.
  destruct (@geofence_edges_start_at_corners latLonToVector3 #1.6
              30 45 (-5) 35) as (_ & _ & Hstart & _); try lra.
  exact Hstart.
Defined.

End GeoFenceExamples.

(** ** The location route: the column of the imagery tile *)

Section TileColumn.

Local Open Scope js_scope.

Lemma Zfloor_nonneg (x : R) : (0 <= Zfloor x)%Z <-> (0 <= x)%R.
Proof.
  split.
  - intros H. apply IZR_le in H. pose proof (Zfloor_bound x). lra.
  - intros H. now apply Zfloor_lub.
Qed.

Lemma Zfloor_below (x : R) (n : Z) : (Zfloor x < n)%Z <-> (x < IZR n)%R.
Proof.
  pose proof (Zfloor_bound x) as [Hlow Hhigh]. split.
  - intros H. assert (H1 : (Zfloor x + 1 <= n)%Z) by lia.
    apply IZR_le in H1. rewrite plus_IZR in H1. lra.
  - intros H. apply lt_IZR. lra.
Qed.

Lemma Zfloor_monotone (x y : R) : (x <= y)%R -> (Zfloor x <= Zfloor y)%Z.
Proof.
  intros Hxy. pose proof (Zfloor_bound x) as [Hx _].
  apply Zfloor_lub. lra.
Qed.

Lemma tileColumn_finite (longitude : R) (zoom : nat) :
  tileColumn #longitude zoom =
  Fin (IZR (Zfloor ((longitude + 180) / 360 * 2 ^ zoom))).
Proof.
  unfold tileColumn, pow2. cbv zeta.
  cbn [add]. rewrite div_Fin by lra. reflexivity.
Qed.

(** X24: for a zoom of at most 30 and a longitude from -180 to 180 the
    column of the imagery tile is a whole number from 0 to 2^zoom: 0 at
    the longitude -180, half of 2^zoom at the longitude 0 for a zoom of at
    least 1, and 2^zoom, one
    past the last of the 2^zoom columns, at the longitude 180; a
    longitude further east never gets a lower column. *)
Theorem tileColumn_range :
  forall (longitude : R) (zoom : nat),
    (zoom <= 30)%nat ->
    (-180 <= longitude <= 180)%R ->
    exists column : Z,
      tileColumn #longitude zoom = Fin (IZR column) /\
      (0 <= column <= 2 ^ Z.of_nat zoom)%Z /\
      (longitude = 180%R -> column = (2 ^ Z.of_nat zoom)%Z) /\
      (longitude = (-180)%R -> column = 0%Z) /\
      (longitude = 0%R -> (1 <= zoom)%nat ->
       column = (2 ^ Z.of_nat (zoom - 1))%Z) /\
      (forall east : R,
          (longitude <= east <= 180)%R ->
          exists further : Z,
            tileColumn #east zoom = Fin (IZR further) /\
            (column <= further)%Z).
Proof.
  intros longitude zoom _ Hlon. rewrite tileColumn_finite.
  set (count := (2 ^ zoom)%R).
  assert (Hcount : (0 < count)%R) by (apply pow_lt; lra).
  assert (Hz : count = IZR (2 ^ Z.of_nat zoom)) by apply pow_IZR.
  eexists. split; [reflexivity|].
  split; [|split; [|split; [|split]]].
  - assert (Hq : (0 <= (longitude + 180) / 360 <= 1)%R) by lra.
    split.
    + apply Zfloor_nonneg. apply Rmult_le_pos; lra.
    + assert (Hle : (Zfloor ((longitude + 180) / 360 * count) <=
                     Zfloor count)%Z).
      { apply Zfloor_monotone.
        replace count with (1 * count)%R at 2 by lra.
        apply Rmult_le_compat_r; lra. }
      assert (Hwhole : Zfloor count = (2 ^ Z.of_nat zoom)%Z)
        by (rewrite Hz; apply ZfloorZ).
      now rewrite Hwhole in Hle.
  - intros ->. apply Zfloor_eq. rewrite <- Hz. lra.
  - intros ->. apply Zfloor_eq. simpl. lra.
  - intros -> Hzoom. apply Zfloor_eq.
    destruct zoom as [|z]; [lia|].
    replace (S z - 1)%nat with z by lia.
    rewrite <- pow_IZR. unfold count. cbn [pow].
    assert (0 < 2 ^ z)%R by (apply pow_lt; lra). lra.
  - intros east Heast. rewrite tileColumn_finite. fold count.
    eexists. split; [reflexivity|].
    apply Zfloor_monotone. apply Rmult_le_compat_r; lra.
Qed.

(** The theorem at work: at the default zoom the longitude 180 gets the
    column 32. *)
Lemma tileColumn_range_witness :
  exists column : Z,
    tileColumn #180 5 = Fin (IZR column) /\ column = 32%Z.
Proof.
  destruct (@tileColumn_range 180 5) as (column & Hcolumn & _ & Hend & _).
  - lia.
  - lra.
  - exists column. split; [exact Hcolumn|]. now rewrite Hend.
Defined.

End TileColumn.

(** ** The satellites route: the limit *)

Section SatelliteLimit.

Local Open Scope js_scope.

Lemma parseInt10_cases (s : jsstring) :
  parseInt10 s = NaN \/ exists z : Z, parseInt10 s = ofZ z.
Proof.
  unfold parseInt10.
  destruct (trimStart s) as [|c rest].
  - cbn. now left.
  - destruct c as [|p]; [|do 6 (destruct p as [p|p|]; try
      (match goal with
       | |- context [parseDigits ?t None] =>
           destruct (parseDigits t None) as [v|];
           [right; eexists; reflexivity|now left]
       end))];
    match goal with
    | |- context [parseDigits ?t None] =>
        destruct (parseDigits t None) as [v|];
        [right; eexists; reflexivity|now left]
    end.
Qed.

Lemma clamp_limit (z : Z) :
  max2 #1 (min2 (if truthy (ofZ z) then ofZ z else #25) #100) =
  ofZ (if (z =? 0)%Z then 25 else Z.max 1 (Z.min z 100)).
Proof.
  unfold ofZ, truthy.
  destruct (Req_dec_T (IZR z) 0) as [Hzero|Hnz].
  - apply eq_IZR in Hzero. subst z. cbn [Z.eqb].
    rewrite min2_Fin, max2_Fin. f_equal.
    rewrite Rmin_left by lra. rewrite Rmax_right by lra. reflexivity.
  - assert (Hneq : z <> 0%Z) by (intros ->; now apply Hnz).
    apply Z.eqb_neq in Hneq as Heqb. rewrite Heqb.
    rewrite min2_Fin, max2_Fin. f_equal.
    destruct (Z.le_gt_cases z 100) as [Hle|Hgt].
    + rewrite Z.min_l by lia. apply IZR_le in Hle as Hr.
      rewrite Rmin_left by lra.
      destruct (Z.le_gt_cases 1 z) as [H1|H1].
      * rewrite Z.max_r by lia. apply IZR_le in H1.
        now rewrite Rmax_right by lra.
      * rewrite Z.max_l by lia. apply IZR_lt in H1.
        now rewrite Rmax_left by lra.
    + rewrite Z.min_r by lia. apply IZR_lt in Hgt.
      rewrite Rmin_right by lra. rewrite Z.max_r by lia.
      now rewrite Rmax_right by lra.
Qed.

Lemma limitOf_cases (limit : option jsstring) :
  exists l : Z,
    limitOf limit = ofZ l /\ (1 <= l <= 100)%Z /\
    Rtrunc (IZR l) = l.
Proof.
  assert (Htrunc : forall l : Z, (1 <= l)%Z -> Rtrunc (IZR l) = l).
  { intros l Hl. unfold Rtrunc. apply IZR_le in Hl as Hr.
    destruct (Rlt_dec (IZR l) 0); [lra|]. apply ZfloorZ. }
  unfold limitOf. cbv zeta.
  destruct (parseInt10_cases
              match limit with Some text => text | None => lit "25" end)
    as [->|[z ->]].
  - exists 25%Z. split; [|split; [lia|now apply Htrunc]].
    cbn [truthy]. rewrite min2_Fin, max2_Fin. unfold ofZ. f_equal.
    rewrite Rmin_left by lra. now rewrite Rmax_right by lra.
  - rewrite clamp_limit. eexists. split; [reflexivity|].
    assert (Hrange : (1 <= (if (z =? 0)%Z then 25
                            else Z.max 1 (Z.min z 100)) <= 100)%Z)
      by (destruct (z =? 0)%Z; lia).
    split; [exact Hrange|apply Htrunc; lia].
Qed.

(** X25: whatever the limit parameter, the limit is a whole number from 1
    to 100: 25 when the parameter is missing, does not start with a number
    or reads as 0, else the number read, raised to 1 or lowered to 100.
    The route answers with the first satellites of the catalogue, at most
    the limit of them and so never more than 100; it hands on the status
    of a catalogue response that is not ok when a response with a body
    can carry it, and answers 502 when it cannot, as for 304, and when
    the fetch or the reading of the body fails. *)
Theorem satellites_limit_is_1_to_100 :
  (forall limit : option jsstring,
      exists l : Z, limitOf limit = ofZ l /\ (1 <= l <= 100)%Z) /\
  limitOf None = #25 /\
  limitOf (Some (lit "0")) = #25 /\
  limitOf (Some (lit "abc")) = #25 /\
  limitOf (Some (lit "-5")) = #1 /\
  limitOf (Some (lit "7.9")) = #7 /\
  limitOf (Some (lit "1000")) = #100 /\
  (forall (Sat : Type) (limit : option jsstring)
          (upstream : Fetched (list Sat)),
      match upstream with
      | Replied true _ (Some payload) =>
          exists l : nat,
            (1 <= l <= 100)%nat /\ limitOf limit = ofNat l /\
            satellitesGET limit upstream = Answered (firstn l payload)
      | Replied false status _ =>
          exists error,
            satellitesGET limit upstream =
              Refused (if jsonStatus status then status else 502) error
      | _ =>
          exists error, satellitesGET limit upstream = Refused 502 error
      end) /\
  (forall (Sat : Type) (limit : option jsstring),
      @satellitesGET Sat limit (Replied false 503 None) =
        Refused 503 (lit "Satellite lookup failed (503).") /\
      @satellitesGET Sat limit (Replied false 304 None) =
        Refused 502 (lit "Unable to reach satellite service right now.")).
Proof.
  assert (Hexample : forall (text : string) (z : Z),
             parseInt10 (lit text) = ofZ z ->
             limitOf (Some (lit text)) =
             ofZ (if (z =? 0)%Z then 25 else Z.max 1 (Z.min z 100))).
  { intros text z Hparse. unfold limitOf. cbv zeta. rewrite Hparse.
    apply clamp_limit. }
  split; [|repeat split].
  - intros limit. destruct (limitOf_cases limit) as (l & Hl & Hrange & _).
    now exists l.
  - apply (Hexample "25"%string 25%Z). reflexivity.
  - apply (Hexample "0"%string 0%Z). reflexivity.
  - unfold limitOf. cbv zeta.
    assert (Hparse : parseInt10 (lit "abc") = NaN) by reflexivity.
    rewrite Hparse. cbn [truthy]. rewrite min2_Fin, max2_Fin. f_equal.
    rewrite Rmin_left by lra. now rewrite Rmax_right by lra.
  - apply (Hexample "-5"%string (-5)%Z). reflexivity.
  - apply (Hexample "7.9"%string 7%Z). reflexivity.
  - apply (Hexample "1000"%string 1000%Z). reflexivity.
  - intros Sat limit upstream.
    destruct upstream as [|[] status [payload|]]; cbn [satellitesGET negb];
      try (eexists; reflexivity);
      try (destruct (jsonStatus status); eexists; reflexivity).
    destruct (limitOf_cases limit) as (l & Hl & Hrange & Htrunc).
    exists (Z.to_nat l). split; [lia|].
    assert (Hnat : ofNat (Z.to_nat l) = ofZ l).
    { unfold ofNat, ofZ. rewrite INR_IZR_INZ, Z2Nat.id by lia.
      reflexivity. }
    split; [now rewrite Hnat|].
    rewrite Hl. unfold ofZ, sliceTo. rewrite Htrunc.
    destruct (l <? 0)%Z eqn:Hneg; [apply Z.ltb_lt in Hneg; lia|].
    reflexivity.
Qed.

End SatelliteLimit.

(** ** The scene: what the overlays draw *)

Section OverlayFacts.

Local Open Scope js_scope.

Variable SearchResult : Type.
Variable SavedTarget : Type.
Variable QueryTrail : Type.

Variable latLonToVector3 : number -> number -> number -> Vector3.

Local Abbreviation State := (GlobeState SearchResult SavedTarget QueryTrail).
Local Abbreviation heatmapMeshes := (heatmapMeshes latLonToVector3).
Local Abbreviation weatherMeshes := (weatherMeshes latLonToVector3).

Lemma elementAt_ofNat {A : Type} (xs : list A) (i : nat) :
  elementAt xs (ofNat i) = nth_error xs i.
Proof.
  unfold elementAt, ofNat. rewrite INR_IZR_INZ, ZfloorZ.
  destruct (Req_dec_T (IZR (Z.of_nat i)) (IZR (Z.of_nat i))) as [_|Hne];
    [|now elim Hne].
  destruct (Z.of_nat i <? 0)%Z eqn:Hneg; [apply Z.ltb_lt in Hneg; lia|].
  now rewrite Nat2Z.id.
Qed.



End OverlayFacts.

(** ** From the fetches to the meshes *)

Section HydratedGlobe.

Local Open Scope js_scope.

Variable SearchResult : Type.
Variable SavedTarget : Type.
Variable QueryTrail : Type.
Variable now : Z.
Variable toISOString : Z -> jsstring.
Variable latLonToVector3 : number -> number -> number -> Vector3.

Local Abbreviation State := (GlobeState SearchResult SavedTarget QueryTrail).
Local Abbreviation start :=
  (initialState SearchResult SavedTarget QueryTrail).
Local Abbreviation heatmapMeshes := (heatmapMeshes latLonToVector3).
Local Abbreviation weatherMeshes := (weatherMeshes latLonToVector3).

Lemma sum_severity_range (cells : list WeatherCell) (acc : R) :
  Forall (fun cell =>
            exists v : R, severity cell = Fin v /\ (0.1 <= v <= 1)%R)
    cells ->
  exists total : R,
    fold_left (fun a cell => a + severity cell) cells (Fin acc) =
      Fin total /\
    (acc + 0.1 * INR (List.length cells) <= total
       <= acc + INR (List.length cells))%R.
Proof.
  intros Hall. revert acc.
  induction Hall as [|cell rest (v & Hv & Hbounds) _ IH]; intros acc.
  - exists acc. simpl. split; [reflexivity|lra].
  - simpl fold_left. rewrite Hv. simpl add.
    destruct (IH (acc + v)%R) as (total & Htotal & Hrange).
    exists total. split; [exact Htotal|].
    change (List.length (cell :: rest)) with (S (List.length rest)).
    rewrite S_INR. lra.
Qed.

(** The mean severity of cells whose severities lie between 0.1 and 1. *)
Lemma meanSeverity_range (cells : list WeatherCell) :
  Forall (fun cell =>
            exists v : R, severity cell = Fin v /\ (0.1 <= v <= 1)%R)
    cells ->
  exists m : R,
    meanSeverity cells = Fin m /\
    (cells = [] -> m = 0%R) /\
    (cells <> [] -> (0.1 <= m <= 1)%R).
Proof.
  intros Hall. unfold meanSeverity.
  destruct (sum_severity_range 0 Hall) as (total & -> & Htotal).
  unfold ofNat. rewrite max2_Fin.
  set (n := INR (List.length cells)) in *.
  destruct cells as [|cell rest].
  - assert (Hn : n = 0%R) by reflexivity.
    rewrite Hn in Htotal |- *. rewrite Rmax_right by lra.
    rewrite div_Fin by lra. eexists. split; [reflexivity|].
    split; [intros _; lra|congruence].
  - assert (Hn : (1 <= n)%R).
    { unfold n. change 1%R with (INR 1). apply le_INR. simpl. lia. }
    rewrite Rmax_left by lra. rewrite div_Fin by lra.
    eexists. split; [reflexivity|]. split; [discriminate|]. intros _.
    split.
    + apply Rmult_le_reg_r with (r := n); [lra|].
      unfold Rdiv. rewrite Rmult_assoc, Rinv_l by lra. lra.
    + apply Rmult_le_reg_r with (r := n); [lra|].
      unfold Rdiv. rewrite Rmult_assoc, Rinv_l by lra. lra.
Qed.

Lemma loadWeatherCells_range (samples : list WeatherObservation) :
  Forall (fun cell =>
            exists v : R, severity cell = Fin v /\ (0.1 <= v <= 1)%R)
    (loadWeatherCells samples).
Proof.
  unfold loadWeatherCells. apply Forall_forall. intros cell Hin.
  apply in_map_iff in Hin as (sample & <- & _).
  destruct (weatherCellOf_severity sample) as (v & Hv & Hrange & _).
  now exists v.
Qed.

Lemma elementAt_first {A : Type} (xs : list A) :
  elementAt xs #0 = hd_error xs.
Proof.
  change #0 with (ofNat 0). rewrite elementAt_ofNat. now destruct xs.
Qed.

Lemma hydrate_fields (data : GlobeData) (s0 : State) :
  heatmapPoints (hydrate data s0) = gdHeatmapPoints data /\
  weatherCells (hydrate data s0) = gdWeatherCells data /\
  timeline (hydrate data s0) = gdTimeline data /\
  timelineIndex (hydrate data s0) = #0 /\
  overlays (hydrate data s0) = overlays s0 /\
  overlayIntensity (hydrate data s0) = overlayIntensity s0.
Proof.
  repeat split. unfold hydrate, setTimelineIndex.
  cbn [timelineIndex resolve timeline setTimeline]. apply clamp_zero.
Qed.

Lemma weather_on_fields (s0 : State) :
  let s1 := setOverlayEnabled KeyWeather true s0 in
  weatherCells s1 = weatherCells s0 /\
  timeline s1 = timeline s0 /\
  timelineIndex s1 = timelineIndex s0 /\
  overlays s1 KeyWeather = true /\
  overlayIntensity s1 = overlayIntensity s0.
Proof. repeat split. Qed.

(** X27: right after hydration of the initial store, whatever the eight
    fetches answered, the heatmap overlay draws one mesh for each sample
    that was fetched, at an effective opacity that is the mean severity of
    the cells, above 0.09 and at most 1; the weather overlay, off by
    default, draws nothing, and once switched on it draws one mesh per
    sample, of a size 0.25 * (severity + 0.2), between 0.07 and 0.31: its
    clamp to [0.2, 1.8] never acts on a loaded cell. *)
Theorem hydrated_globe_draws_every_sample :
  forall (radius : number)
         (replyTo : WeatherSample -> Fetched SamplePayload),
    let s : State := hydrate (loadGlobeData now toISOString replyTo) start in
    let n := List.length (fetchWeatherSamples replyTo) in
    List.length (heatmapMeshes radius s) = n /\
    weatherMeshes radius s = [] /\
    List.length (weatherMeshes radius (setOverlayEnabled KeyWeather true s)) =
      n /\
    map meshSize (weatherMeshes radius (setOverlayEnabled KeyWeather true s)) =
      map (fun cell => #0.25 * (severity cell + #0.2)) (weatherCells s) /\
    Forall (fun mesh =>
              exists size : R,
                meshSize mesh = Fin size /\ (0.07 <= size <= 0.31)%R)
      (weatherMeshes radius (setOverlayEnabled KeyWeather true s)) /\
    exists o : R,
      effectiveOpacity KeyHeatmap heatmap s = Fin o /\
      meanSeverity (weatherCells s) = Fin o /\
      (n = 0%nat -> o = 0%R) /\
      ((0 < n)%nat -> (0.09 < o <= 1)%R).
Proof.
  intros radius replyTo s n.
  set (observations := fetchWeatherSamples replyTo) in *.
  set (cells := loadWeatherCells observations).
  destruct (hydrate_fields (loadGlobeData now toISOString replyTo) start)
    as (Hpoints & Hcells & Htimeline & Hindex & Hoverlays & Hintensity).
  fold s in Hpoints, Hcells, Htimeline, Hindex, Hoverlays, Hintensity.
  change (gdHeatmapPoints (loadGlobeData now toISOString replyTo))
    with (loadHeatmapData observations) in Hpoints.
  change (gdWeatherCells (loadGlobeData now toISOString replyTo))
    with cells in Hcells.
  change (gdTimeline (loadGlobeData now toISOString replyTo))
    with (loadTimeline now toISOString cells) in Htimeline.
  change (overlays start) with defaultOverlays in Hoverlays.
  change (overlayIntensity start) with defaultOverlayIntensity in Hintensity.
  clearbody s.
  assert (Hlen_cells : List.length cells = n)
    by (unfold cells, loadWeatherCells; apply length_map).
  assert (Hlen_points : List.length (heatmapPoints s) = n).
  { rewrite Hpoints. unfold loadHeatmapData.
    destruct observations; [reflexivity|apply length_map]. }
  destruct (meanSeverity_range (loadWeatherCells_range observations))
    as (m & Hmean & Hnone & Hsome).
  fold cells in Hmean, Hnone, Hsome.
  assert (Hm : (0 <= m <= 1)%R /\ (n = 0%nat -> m = 0%R) /\
               ((0 < n)%nat -> (0.1 <= m <= 1)%R)).
  { destruct cells as [|cell rest] eqn:Hc.
    - rewrite (Hnone eq_refl). simpl in Hlen_cells.
      split; [lra|]. split; [reflexivity|lia].
    - assert (Hr : (0.1 <= m <= 1)%R) by (apply Hsome; discriminate).
      split; [lra|]. split; [|now intros _].
      intros Hz. rewrite Hz in Hlen_cells. discriminate. }
  destruct Hm as (Hunit & Hzero & Hpos).
  assert (Hmult : forall (pick : OverlayMultipliers -> number) (ramp : R),
             (0 <= ramp)%R ->
             (pick = heatmap /\ ramp = 0.05%R) \/
             (pick = GlobeData.weather /\ ramp = 0.08%R) ->
             forall s' : State,
               timeline s' = timeline s -> timelineIndex s' = #0 ->
               timelineMultiplier pick s' = Fin m).
  { intros pick ramp Hramp Hpick s' Ht Hi. unfold timelineMultiplier.
    rewrite Hi, Ht, Htimeline, elementAt_first.
    unfold loadTimeline, hours. cbn [mapIndexed hd_error].
    unfold timelineEventOf. cbn [overlayMultipliers].
    rewrite Hmean. unfold ofNat. cbn [INR mul add].
    destruct Hpick as [[-> ->]|[-> ->]];
      cbn [heatmap GlobeData.weather]; rewrite min2_Fin; f_equal;
      rewrite Rmin_right by lra; lra. }
  assert (Hheat : effectiveOpacity KeyHeatmap heatmap s = Fin (1 * m)).
  { assert (Hon : overlays s KeyHeatmap = true) by now rewrite Hoverlays.
    assert (Hone : overlayIntensity s KeyHeatmap = #1)
      by now rewrite Hintensity.
    assert (Hramp : (0 <= 0.05)%R) by lra.
    unfold effectiveOpacity. rewrite Hon, Hone.
    rewrite (Hmult heatmap 0.05%R Hramp
               (or_introl (conj eq_refl eq_refl)) s eq_refl Hindex).
    reflexivity. }
  destruct (weather_on_fields s) as (Hcells1 & Hsame & Hindex1 & Hon1 & Hint1).
  cbv zeta in Hcells1, Hsame, Hindex1, Hon1, Hint1.
  set (s1 := setOverlayEnabled KeyWeather true s) in *.
  clearbody s1.
  assert (Hweather : effectiveOpacity KeyWeather GlobeData.weather s1 =
                     Fin (1 * m)).
  { assert (Hon : overlays s1 KeyWeather = true) by exact Hon1.
    assert (Hone : overlayIntensity s1 KeyWeather = #1)
      by now rewrite Hint1, Hintensity.
    assert (Hramp : (0 <= 0.08)%R) by lra.
    assert (Hrewound : timelineIndex s1 = #0) by now rewrite Hindex1.
    unfold effectiveOpacity. rewrite Hon, Hone.
    rewrite (Hmult GlobeData.weather 0.08%R Hramp
               (or_intror (conj eq_refl eq_refl)) s1 Hsame Hrewound).
    reflexivity. }
  assert (Hdrawn : weatherMeshes radius s1 =
            if (0 <? n)%nat then
              map (fun cell =>
                     mkMesh (lit "weather-" ++ cellId cell)
                       (latLonToVector3 (cellLatitude cell)
                          (cellLongitude cell) (radius * #1.025))
                       (#0.25 * max2 #0.2 (min2 (severity cell + #0.2) #1.8))
                       (#0.22 * Fin (1 * m)))
                cells
            else []).
  { unfold weatherMeshes. cbv zeta. rewrite Hweather.
    rewrite Hcells1, Hcells.
    destruct cells as [|cell rest] eqn:Hc.
    - simpl in Hlen_cells. rewrite <- Hlen_cells. reflexivity.
    - assert (Hn : (0 < n)%nat) by (rewrite <- Hlen_cells; simpl; lia).
      apply Nat.ltb_lt in Hn as Hb. rewrite Hb.
      assert (Hhigh : (Fin (1 * m) <=? #0.01) = false).
      { destruct (Fin (1 * m) <=? #0.01) eqn:H; [|reflexivity].
        apply leb_Fin in H. specialize (Hpos Hn). lra. }
      rewrite Hhigh. reflexivity. }
  assert (Hsizes : forall cell,
             In cell cells ->
             exists v : R,
               severity cell = Fin v /\ (0.1 <= v <= 1)%R /\
               #0.25 * max2 #0.2 (min2 (severity cell + #0.2) #1.8) =
                 Fin (0.25 * (v + 0.2))).
  { intros cell Hin.
    pose proof (loadWeatherCells_range observations) as Hall.
    rewrite Forall_forall in Hall.
    destruct (Hall cell Hin) as (v & Hv & Hr).
    exists v. split; [exact Hv|]. split; [exact Hr|].
    rewrite Hv. cbn [add]. rewrite min2_Fin, max2_Fin. cbn [mul].
    rewrite Rmin_left by lra. rewrite Rmax_right by lra. reflexivity. }
  split; [|split; [|split; [|split; [|split]]]].
  - unfold heatmapMeshes. cbv zeta. rewrite Hheat.
    destruct (heatmapPoints s) as [|point rest] eqn:Hp.
    + simpl in Hlen_points. now rewrite <- Hlen_points.
    + assert (Hn : (0 < n)%nat) by (rewrite <- Hlen_points; simpl; lia).
      assert (Hhigh : (Fin (1 * m) <=? #0.01) = false).
      { destruct (Fin (1 * m) <=? #0.01) eqn:H; [|reflexivity].
        apply leb_Fin in H. specialize (Hpos Hn). lra. }
      rewrite Hhigh. cbn [isEmpty orb]. now rewrite length_map.
  - assert (Hoff : overlays s KeyWeather = false) by now rewrite Hoverlays.
    unfold weatherMeshes, effectiveOpacity. rewrite Hoff.
    assert (Hlow : (#0 <=? #0.01) = true) by (apply leb_Fin; lra).
    rewrite Hlow. now rewrite orb_true_r.
  - rewrite Hdrawn. destruct (0 <? n)%nat eqn:Hn.
    + now rewrite length_map.
    + apply Nat.ltb_ge in Hn. simpl. lia.
  - rewrite Hdrawn, Hcells. destruct (0 <? n)%nat eqn:Hn.
    + rewrite map_map. cbn [meshSize]. apply map_ext_in.
      intros cell Hin. destruct (Hsizes cell Hin) as (v & Hv & _ & ->).
      now rewrite Hv.
    + apply Nat.ltb_ge in Hn.
      assert (Hnil : cells = [])
        by (apply length_zero_iff_nil; lia).
      now rewrite Hnil.
  - rewrite Hdrawn. destruct (0 <? n)%nat; [|constructor].
    apply Forall_forall. intros mesh Hin.
    apply in_map_iff in Hin as (cell & <- & Hin). cbn [meshSize].
    destruct (Hsizes cell Hin) as (v & _ & Hr & ->).
    eexists. split; [reflexivity|lra].
  - exists m. rewrite Hcells, Hmean, Hheat.
    split; [f_equal; lra|]. split; [reflexivity|].
    split; [assumption|]. intros Hn. specialize (Hpos Hn). lra.
Qed.

End HydratedGlobe.

(** ** The geocode route *)

Section GeocodeFacts.

Local Open Scope js_scope.

Variable parseFloat : jsstring -> number.

Lemma beforeComma_prefix (s : jsstring) :
  exists rest : jsstring,
    s = beforeComma s ++ rest /\
    ~ In 44%N (beforeComma s) /\
    (rest = [] \/ hd_error rest = Some 44%N).
Proof.
  induction s as [|c s' (rest & Hsplit & Hnone & Hrest)].
  - exists []. cbn. split; [reflexivity|]. split; [tauto|now left].
  - cbn [beforeComma]. destruct (c =? 44)%N eqn:Hc.
    + apply N.eqb_eq in Hc. subst c. exists (44%N :: s').
      split; [reflexivity|]. split; [intros []|now right].
    + apply N.eqb_neq in Hc. exists rest. cbn [app].
      split; [now f_equal|]. split; [|exact Hrest].
      intros [Heq|Hin]; [now apply Hc|now apply Hnone].
Qed.

Lemma beforeComma_whole (s : jsstring) :
  ~ In 44%N s -> beforeComma s = s.
Proof.
  induction s as [|c s' IH]; intros Hnone; [reflexivity|].
  cbn [beforeComma]. destruct (c =? 44)%N eqn:Hc.
  - apply N.eqb_eq in Hc. exfalso. apply Hnone. now left.
  - f_equal. apply IH. intros Hin. apply Hnone. now right.
Qed.

(** X28: the geocode route refuses with 400, whatever the geocoder would
    answer, a query that is missing or shorter than three code units once
    trimmed; otherwise it hands on the status of a response that is not
    ok when a response with a body can carry it, answers 502 when it
    cannot, as for 304, and when the fetch or the reading fails, and else
    answers one result per place, in order, with the id of the place and, as its
    name, what stands before the first comma of the display name: the
    name holds no comma and is the whole display name when that holds
    none. *)
Theorem geocode_one_hit_per_place :
  (forall (query : option jsstring) (upstream : Fetched (list Place)),
      tooShort query = true ->
      exists error, geocodeGET parseFloat query upstream = Refused 400 error) /\
  tooShort None = true /\
  tooShort (Some (lit "   ab   ")) = true /\
  tooShort (Some (lit " abc")) = false /\
  (forall (query : option jsstring) (upstream : Fetched (list Place)),
      tooShort query = false ->
      match upstream with
      | Replied true _ (Some payload) =>
          exists hits : list SearchHit,
            geocodeGET parseFloat query upstream = Answered hits /\
            hits = map (hitOf parseFloat) payload /\
            map hitId hits = map place_id payload /\
            map hitDisplayName hits = map display_name payload
      | Replied false status _ =>
          exists error,
            geocodeGET parseFloat query upstream =
              Refused (if jsonStatus status then status else 502) error
      | _ =>
          exists error,
            geocodeGET parseFloat query upstream = Refused 502 error
      end) /\
  (forall place : Place,
      let hit := hitOf parseFloat place in
      (exists rest : jsstring,
          display_name place = hitName hit ++ rest /\
          (rest = [] \/ hd_error rest = Some 44%N)) /\
      ~ In 44%N (hitName hit) /\
      (~ In 44%N (display_name place) -> hitName hit = display_name place)).
Proof.
  split; [|split; [|split; [|split; [|split]]]].
  - intros query upstream Hshort. unfold geocodeGET. rewrite Hshort.
    eexists. reflexivity.
  - reflexivity.
  - vm_compute. reflexivity.
  - vm_compute. reflexivity.
  - intros query upstream Hlong. unfold geocodeGET. rewrite Hlong.
    destruct upstream as [|[] status [payload|]]; cbn [negb];
      try (eexists; reflexivity);
      try (destruct (jsonStatus status); eexists; reflexivity).
    eexists. split; [reflexivity|]. split; [reflexivity|].
    rewrite !map_map. split; reflexivity.
  - intros place hit. unfold hit, hitOf. cbn [hitName].
    destruct (beforeComma_prefix (display_name place))
      as (rest & Hsplit & Hnone & Hrest).
    split; [now exists rest|]. split; [exact Hnone|].
    apply beforeComma_whole.
Qed.

End GeocodeFacts.

(** ** The location route: the name in the links *)

Section LinkNames.

Lemma underscoreRuns_no_blank (inRun : bool) (name : jsstring) :
  Forall (fun c => isWhiteSpace c = false) (underscoreRuns inRun name).
Proof.
  revert inRun. induction name as [|c rest IH]; intros inRun.
  - constructor.
  - cbn [underscoreRuns]. destruct (isWhiteSpace c) eqn:Hc.
    + destruct inRun; [apply IH|].
      constructor; [reflexivity|apply IH].
    + constructor; [exact Hc|apply IH].
Qed.

Lemma underscoreRuns_clean (inRun : bool) (name : jsstring) :
  Forall (fun c => isWhiteSpace c = false) name ->
  underscoreRuns inRun name = name.
Proof.
  intros Hclean. revert inRun.
  induction Hclean as [|c rest Hc _ IH]; intros inRun; [reflexivity|].
  cbn [underscoreRuns]. rewrite Hc. now rewrite IH.
Qed.

Lemma underscoreRuns_length (inRun : bool) (name : jsstring) :
  (List.length (underscoreRuns inRun name) <= List.length name)%nat.
Proof.
  revert inRun. induction name as [|c rest IH]; intros inRun;
    [reflexivity|].
  pose proof (IH true) as Htrue. pose proof (IH false) as Hfalse.
  cbn [underscoreRuns].
  destruct (isWhiteSpace c), inRun; cbn [List.length]; lia.
Qed.

(** Between two code units that are no blanks, a run of blanks becomes
    one underscore. *)
Lemma underscoreRuns_run (before blanks after : jsstring) (c : N) :
  Forall (fun b => isWhiteSpace b = false) before ->
  Forall (fun b => isWhiteSpace b = true) blanks ->
  blanks <> [] ->
  isWhiteSpace c = false ->
  underscoreRuns false (before ++ blanks ++ c :: after) =
  before ++ 95%N :: c :: underscoreRuns false after.
Proof.
  intros Hbefore Hblanks Hne Hc.
  induction Hbefore as [|b before' Hb _ IH].
  - cbn [app]. destruct Hblanks as [|b blanks' Hb Hrest]; [congruence|].
    cbn [app underscoreRuns]. rewrite Hb. f_equal.
    clear Hne. induction Hrest as [|b' blanks'' Hb' _ IH'].
    + cbn [app underscoreRuns]. now rewrite Hc.
    + cbn [app underscoreRuns]. now rewrite Hb'.
  - cbn [app underscoreRuns]. rewrite Hb. f_equal. exact IH.
Qed.

(** X29: the name put into the encyclopedia links holds no blank and is
    no longer than the name given; a run of blanks between two code units
    that are no blanks becomes a single underscore; a name without blanks
    is unchanged, and the replacement done twice is the replacement done
    once. *)
Theorem encodedName_has_no_blank :
  forall name : jsstring,
    Forall (fun c => isWhiteSpace c = false) (encodedName name) /\
    (List.length (encodedName name) <= List.length name)%nat /\
    (Forall (fun c => isWhiteSpace c = false) name ->
     encodedName name = name) /\
    encodedName (encodedName name) = encodedName name /\
    (forall (before blanks after : jsstring) (c : N),
        Forall (fun b => isWhiteSpace b = false) before ->
        Forall (fun b => isWhiteSpace b = true) blanks ->
        blanks <> [] ->
        isWhiteSpace c = false ->
        encodedName (before ++ blanks ++ c :: after) =
        before ++ 95%N :: c :: encodedName after).
Proof.
  intros name. unfold encodedName.
  split; [apply underscoreRuns_no_blank|].
  split; [apply underscoreRuns_length|].
  split; [apply underscoreRuns_clean|].
  split; [apply underscoreRuns_clean, underscoreRuns_no_blank|].
  intros before blanks after c. apply underscoreRuns_run.
Qed.

(** The theorem at work on a name with two runs of blanks. *)
Lemma encodedName_has_no_blank_witness :
  encodedName (lit "New  York City") = lit "New_York_City".
Proof.
  pose proof (proj2 (proj2 (proj2 (proj2
                (encodedName_has_no_blank (lit "New  York City")))))) as Hrun.
  change (lit "New  York City")
    with (lit "New" ++ lit "  " ++ 89%N :: lit "ork City").
  rewrite (Hrun (lit "New") (lit "  ") (lit "ork City") 89%N);
    [|repeat constructor|repeat constructor|discriminate|reflexivity].
  change (lit "ork City") with (lit "ork" ++ lit " " ++ 67%N :: lit "ity").
  rewrite (Hrun (lit "ork") (lit " ") (lit "ity") 67%N);
    [|repeat constructor|repeat constructor|discriminate|reflexivity].
  reflexivity.
Defined.

End LinkNames.

(** ** The location route: what a 200 answer holds *)

Section AnswerBody.

Local Open Scope js_scope.

Variable Satrec : Type.
Variable Position : Type.
Variable twoline2satrec : jsstring -> jsstring -> option Satrec.
Variable propagate : Satrec -> Z -> option Position.
Variable gstime : Z -> number.
Variable eciToGeodetic : Position -> number -> Geodetic.
Variable degreesLat : number -> option number.
Variable degreesLong : number -> option number.
Variable toISOString : Z -> jsstring.
Variable now : Z.
Variable parseFloat : jsstring -> number.
Variable dateISO : number -> jsstring.
Variable Links : Type.
Variable buildNasaTileUrl : number -> number -> jsstring.
Variable buildFallbackImagery : number -> number -> jsstring.
Variable buildLinks : jsstring -> number -> number -> Links.

Local Abbreviation GET' :=
  (GET twoline2satrec propagate gstime eciToGeodetic degreesLat degreesLong
     toISOString now parseFloat dateISO buildNasaTileUrl
     buildFallbackImagery buildLinks).
Local Abbreviation tryLoad' :=
  (tryLoad twoline2satrec propagate gstime eciToGeodetic degreesLat
     degreesLong toISOString now dateISO buildNasaTileUrl
     buildFallbackImagery buildLinks).
Local Abbreviation passesOf lat lon :=
  (computeSatellitePasses twoline2satrec propagate gstime eciToGeodetic
     degreesLat degreesLong toISOString now lat lon).
Local Abbreviation tryTle' lat lon :=
  (tryTle twoline2satrec propagate gstime eciToGeodetic degreesLat
     degreesLong toISOString now lat lon).
Local Abbreviation alertsOfFeed' := (alertsOfFeed toISOString now dateISO).

Lemma passes_within_range (latitude longitude : number)
    (tles : list TleSet) :
  (List.length (passesOf latitude longitude tles) <= 5)%nat /\
  Forall (fun pass =>
            exists d : R, distanceKm pass = Fin d /\ (0 <= d <= 2500)%R)
    (passesOf latitude longitude tles).
Proof.
  unfold computeSatellitePasses. split; [apply firstn_le_length|].
  apply Forall_forall. intros pass Hin.
  apply in_firstn in Hin.
  eapply Permutation_in in Hin; [|apply sortBy_perm].
  unfold collectPasses in Hin. apply in_flat_map in Hin as (tle & _ & Hin).
  destruct (tryTle' latitude longitude tle) as [| |pass'] eqn:Hout;
    cbn [pushed] in Hin; try contradiction.
  destruct Hin as [<-|[]].
  now destruct (pushed_pass_bounds _ _ _ _ _ _ _ _ _ _ _ Hout)
    as (_ & _ & Hdist).
Qed.

Lemma alerts_within_range (latitude longitude : number)
    (usgsPayload : option UsgsPayload) (found : list AlertInfo) :
  alertsOfFeed' latitude longitude usgsPayload = Some found ->
  Forall (fun alert =>
            alertDistanceKm alert = NaN \/
            exists d : R,
              alertDistanceKm alert = Fin d /\ (0 <= d <= 500)%R)
    found.
Proof.
  unfold alertsOfFeed.
  destruct (andThen usgsPayload features) as [fs|].
  - apply alertsOf_distances.
  - intros Heq. injection Heq as <-. constructor.
Qed.

Lemma tryLoad_lists (lat lon : jsstring) (nameParam : option jsstring)
    (latitude longitude : number)
    (reverseRes : Fetched ReversePayload) (weatherRes : Fetched WeatherPayload)
    (topoRes : Fetched TopoPayload) (usgsRes : Fetched UsgsPayload)
    (tleRes : Fetched jsstring) (body : ResponseBody Links) :
  tryLoad' lat lon nameParam latitude longitude
    reverseRes weatherRes topoRes usgsRes tleRes = Some body ->
  (exists tleText : jsstring,
      satellites body = passesOf latitude longitude (parseTleSets tleText)) /\
  (exists usgsPayload : option UsgsPayload,
      alertsOfFeed' latitude longitude usgsPayload = Some (alerts body)) /\
  readable reverseRes = true /\ readable weatherRes = true.
Proof.
  unfold tryLoad, linksOf.
  destruct reverseRes as [|[] sR [bR|]]; try discriminate;
    destruct weatherRes as [|[] sW [bW|]]; try discriminate;
    destruct topoRes as [|[] sT [bT|]]; try discriminate;
    destruct usgsRes as [|[] sU [bU|]]; try discriminate;
    destruct tleRes as [|[] sL [bL|]]; try discriminate;
    cbn [negb bodyIfOk];
    match goal with
    | |- context [alertsOfFeed ?a ?b ?c ?d ?e ?f] =>
        destruct (alertsOfFeed a b c d e f) as [found|] eqn:Hfound
    end; try discriminate;
    match goal with
    | |- context [wellFormed ?n] => destruct (wellFormed n)
    end; try discriminate;
    intros Heq; injection Heq as <-;
    cbn [satellites alerts];
    (split; [eexists; reflexivity|]);
    (split; [|split; reflexivity]);
    eexists; exact Hfound.
Qed.

(** X30: an answer of the location route is a 200 with a body, a 400 or
    a 502.  A body is only answered to a request with valid coordinates
    whose reverse geocoding and weather answered ok; it holds at most five
    satellites, each at a distance between 0 and 2500 km, and alerts whose
    distance is NaN or between 0 and 500 km. *)
Theorem GET_body_within_bounds :
  forall (latParam lonParam nameParam : option jsstring)
         (reverseRes : Fetched ReversePayload)
         (weatherRes : Fetched WeatherPayload)
         (topoRes : Fetched TopoPayload)
         (usgsRes : Fetched UsgsPayload)
         (tleRes : Fetched jsstring),
    match GET' latParam lonParam nameParam
            reverseRes weatherRes topoRes usgsRes tleRes with
    | JsonOk body =>
        validRequest parseFloat latParam lonParam = true /\
        readable reverseRes = true /\
        readable weatherRes = true /\
        (List.length (satellites body) <= 5)%nat /\
        Forall (fun pass =>
                  exists d : R,
                    distanceKm pass = Fin d /\ (0 <= d <= 2500)%R)
          (satellites body) /\
        Forall (fun alert =>
                  alertDistanceKm alert = NaN \/
                  exists d : R,
                    alertDistanceKm alert = Fin d /\ (0 <= d <= 500)%R)
          (alerts body)
    | JsonError status _ => status = 400%Z \/ status = 502%Z
    end.
Proof.
  intros latParam lonParam nameParam
    reverseRes weatherRes topoRes usgsRes tleRes.
  unfold GET, validRequest, missing.
  destruct latParam as [lat|]; [|now left].
  destruct lonParam as [lon|]; [|destruct (nonEmpty lat); now left].
  destruct (nonEmpty lat); [|now left].
  destruct (nonEmpty lon); [|now left].
  cbn [negb orb andb].
  destruct (isFinite (parseFloat lat)); [|now left].
  destruct (isFinite (parseFloat lon)); [|now left].
  cbn [negb orb andb].
  destruct (tryLoad' lat lon nameParam (parseFloat lat) (parseFloat lon)
              reverseRes weatherRes topoRes usgsRes tleRes)
    as [body|] eqn:Hload; [|now right].
  apply tryLoad_lists in Hload
    as ((tleText & ->) & (usgsPayload & Hfound) & Hreverse & Hweather).
  split; [reflexivity|]. split; [exact Hreverse|]. split; [exact Hweather|].
  destruct (passes_within_range (parseFloat lat) (parseFloat lon)
              (parseTleSets tleText)) as (Hfive & Hpasses).
  split; [exact Hfive|]. split; [exact Hpasses|].
  exact (alerts_within_range _ _ _ Hfound).
Qed.

End AnswerBody.
